(** * The ssl_slave TLS relay of AnariaMUSH (src/src/filecopy.c)

    A shallow embedding of the relay process: the connection record and
    its intrusive doubly linked registry, the libevent callbacks
    (new_ssl_conn_cb, ssl_connected, address_resolved, local_connected,
    pipe_cb, ssl_event_cb, close_connections, check_parent, shutdown_cb)
    and main.  The C heap is a finite map from addresses to connection
    records; a read or write through a freed address is undefined
    behaviour and makes a computation fail ([None]).  Every externally
    visible action of the code (a bufferevent created, disabled, flushed
    or freed, bytes sent or written, a resolver request issued or
    cancelled) is appended to an effect log, and so is every assignment
    to the [state] field, which gives the history of states of each
    connection. *)

From Stdlib Require Import ZArith Ascii String List Lia.
From stdpp Require Import base gmap list strings pretty.
Import ListNotations.

Open Scope Z_scope.

(** ** Constants of the C headers *)

(** libevent: bufferevent event flags (event2/bufferevent.h). *)
Definition BEV_EVENT_READING : Z := 1.
Definition BEV_EVENT_WRITING : Z := 2.
Definition BEV_EVENT_EOF : Z := 16.
Definition BEV_EVENT_ERROR : Z := 32.
Definition BEV_EVENT_TIMEOUT : Z := 64.
Definition BEV_EVENT_CONNECTED : Z := 128.

(** libevent: event flags (event2/event.h). *)
Definition EV_TIMEOUT : Z := 1.
Definition EV_READ : Z := 2.
Definition EV_WRITE : Z := 4.
Definition EV_SIGNAL : Z := 8.

(** libevent: resolver result codes and record types (event2/dns.h). *)
Definition DNS_ERR_NONE : Z := 0.
Definition DNS_ERR_CANCEL : Z := 69.
Definition DNS_PTR : Z := 2.

(** Address families and signals (Linux values). *)
Definition AF_INET : Z := 2.
Definition AF_INET6 : Z := 10.
Definition SIGUSR1 : Z := 10.
Definition SIGTERM : Z := 15.

Definition EXIT_SUCCESS : Z := 0.
Definition EXIT_FAILURE : Z := 1.

(** Modelled from the spec: BUFFER_LEN (hdrs/conf.h, not in src/) is the
    size of the fixed relay buffer of pipe_cb; the results below only use
    that it is positive. *)
Definition BUFFER_LEN : nat := Z.to_nat 8192.

(** ** Data model *)

(** A heap address; [None : option ptr] is NULL. *)
Abbreviation ptr := positive.

(** A resolver request handle ([struct evdns_request *]). *)
Abbreviation reqid := positive.

Definition byte := ascii.

Inductive conn_state :=
| C_SSL_CONNECTING
| C_HOSTNAME_LOOKUP
| C_LOCAL_CONNECTING
| C_ESTABLISHED
| C_SHUTTINGDOWN.

Global Instance conn_state_eq_dec : EqDecision conn_state.
Proof. solve_decision. Defined.

(** The two bufferevents of a connection: [local_bev] (to the mush) and
    [remote_bev] (the TLS client). *)
Inductive side := Local | Remote.

Global Instance side_eq_dec : EqDecision side.
Proof. solve_decision. Defined.

(** [union sockaddr_u]: the family and the raw address bytes. *)
Record sockaddr := mkSockaddr {
  sa_family : Z;
  sa_data : list Z;
}.

(** A bufferevent as far as the relay uses it: whether pipe_cb is its read
    callback (ssl_event_cb is always its event callback, with the
    connection as argument), the enabled mask, the read/write timeout, a
    pending connect or TLS accept (whose completion is reported with
    BEV_EVENT_CONNECTED) and the input buffer. *)
Record bufferevent := mkBev {
  bev_readcb : bool;
  bev_enabled : Z;
  bev_timeout : option Z;
  bev_connecting : bool;
  bev_input : list byte;
}.

(** [struct conn] (remote_addrfam and remote_addrlen are never read and are
    left out). *)
Record conn := mkConn {
  state : conn_state;
  remote_addr : sockaddr;
  remote_host : option string;
  remote_ip : option string;
  local_bev : option bufferevent;
  remote_bev : option bufferevent;
  resolver_req : option reqid;
  next : option ptr;
  prev : option ptr;
}.

(** Externally visible actions, tagged with the connection they act on. *)
Inductive effect :=
| E_state (x : ptr) (s : conn_state)
| E_bev_new (x : ptr) (sd : side)
| E_bev_free (x : ptr) (sd : side)
| E_disable (x : ptr) (sd : side) (what : Z)
| E_flush (x : ptr) (sd : side)
| E_send (x : ptr) (sd : side) (bytes : list byte) (res : Z)
| E_write (x : ptr) (sd : side) (bytes : list byte)
| E_resolve (x : ptr) (r : reqid)
| E_cancel (x : ptr) (r : reqid)
| E_ssl_shutdown (x : ptr).

Definition eff_ptr (e : effect) : ptr :=
  match e with
  | E_state x _ | E_bev_new x _ | E_bev_free x _ | E_disable x _ _
  | E_flush x _ | E_send x _ _ _ | E_write x _ _ | E_resolve x _
  | E_cancel x _ | E_ssl_shutdown x => x
  end.

(** How main watches the parent process: prctl(PR_SET_PDEATHSIG, SIGUSR1)
    or the 5 second check_parent timer. *)
Inductive watch := Watch_pdeathsig | Watch_poll (period : Z).

Global Instance watch_eq_dec : EqDecision watch.
Proof. solve_decision. Defined.

(** [event_base_loopexit] lets the callbacks already active in the current
    iteration run; [event_base_loopbreak] stops after the running one. *)
Inductive loop_status := Loop_running | Loop_exiting | Loop_broken.

Record world := mkWorld {
  heap : gmap ptr conn;
  connections : option ptr;
  next_ptr : ptr;
  dns_pending : list (reqid * ptr);
  dns_cancelled : list (reqid * ptr);
  next_req : reqid;
  parent_pid : Z;
  watcher : watch;
  loop : loop_status;
  log : list effect;
}.

(** ** A state and failure monad over the world *)

Definition M (A : Type) : Type := world -> option (A * world).

Global Instance M_ret : MRet M := fun A a w => Some (a, w).
Global Instance M_bind : MBind M := fun A B k m w =>
  match m w with
  | Some (a, w') => k a w'
  | None => None
  end.

Definition get : M world := fun w => Some (w, w).
Definition put (w : world) : M unit := fun _ => Some (tt, w).
Definition ub {A} : M A := fun _ => None.

Definition set_heap (h : gmap ptr conn) (w : world) : world :=
  mkWorld h (connections w) (next_ptr w) (dns_pending w) (dns_cancelled w)
    (next_req w) (parent_pid w) (watcher w) (loop w) (log w).
Definition set_connections (p : option ptr) (w : world) : world :=
  mkWorld (heap w) p (next_ptr w) (dns_pending w) (dns_cancelled w)
    (next_req w) (parent_pid w) (watcher w) (loop w) (log w).
Definition set_log (l : list effect) (w : world) : world :=
  mkWorld (heap w) (connections w) (next_ptr w) (dns_pending w)
    (dns_cancelled w) (next_req w) (parent_pid w) (watcher w) (loop w) l.
Definition set_loop (s : loop_status) (w : world) : world :=
  mkWorld (heap w) (connections w) (next_ptr w) (dns_pending w)
    (dns_cancelled w) (next_req w) (parent_pid w) (watcher w) s (log w).
Definition set_dns (p c : list (reqid * ptr)) (w : world) : world :=
  mkWorld (heap w) (connections w) (next_ptr w) p c
    (next_req w) (parent_pid w) (watcher w) (loop w) (log w).

(** Read the record at [x]; undefined behaviour if [x] is not allocated. *)
Definition load (x : ptr) : M conn := fun w =>
  match heap w !! x with
  | Some c => Some (c, w)
  | None => None
  end.

(** Write the record at [x]; undefined behaviour if [x] is not allocated. *)
Definition store (x : ptr) (c : conn) : M unit := fun w =>
  match heap w !! x with
  | Some _ => Some (tt, set_heap (<[x := c]> (heap w)) w)
  | None => None
  end.

Definition emit (e : effect) : M unit := fun w =>
  Some (tt, set_log (log w ++ [e]) w).

(** ** Record updates *)

Definition with_state (s : conn_state) (c : conn) : conn :=
  mkConn s (remote_addr c) (remote_host c) (remote_ip c) (local_bev c)
    (remote_bev c) (resolver_req c) (next c) (prev c).
Definition with_host_ip (h i : option string) (c : conn) : conn :=
  mkConn (state c) (remote_addr c) h i (local_bev c)
    (remote_bev c) (resolver_req c) (next c) (prev c).
Definition with_bev (sd : side) (b : option bufferevent) (c : conn) : conn :=
  match sd with
  | Local => mkConn (state c) (remote_addr c) (remote_host c) (remote_ip c)
               b (remote_bev c) (resolver_req c) (next c) (prev c)
  | Remote => mkConn (state c) (remote_addr c) (remote_host c) (remote_ip c)
               (local_bev c) b (resolver_req c) (next c) (prev c)
  end.
Definition with_resolver_req (r : option reqid) (c : conn) : conn :=
  mkConn (state c) (remote_addr c) (remote_host c) (remote_ip c)
    (local_bev c) (remote_bev c) r (next c) (prev c).
Definition with_next (n : option ptr) (c : conn) : conn :=
  mkConn (state c) (remote_addr c) (remote_host c) (remote_ip c)
    (local_bev c) (remote_bev c) (resolver_req c) n (prev c).
Definition with_prev (p : option ptr) (c : conn) : conn :=
  mkConn (state c) (remote_addr c) (remote_host c) (remote_ip c)
    (local_bev c) (remote_bev c) (resolver_req c) (next c) p.

Definition bev_of (sd : side) (c : conn) : option bufferevent :=
  match sd with Local => local_bev c | Remote => remote_bev c end.

Definition other (sd : side) : side :=
  match sd with Local => Remote | Remote => Local end.

(** [c->state = s]; the assignment is recorded in the log. *)
Definition set_state (x : ptr) (s : conn_state) : M unit :=
  c ← load x; store x (with_state s c);; emit (E_state x s).

(** Free the record at [x]. *)
Definition free (x : ptr) : M unit := fun w =>
  match heap w !! x with
  | Some _ => Some (tt, set_heap (delete x (heap w)) w)
  | None => None
  end.

(** ** libevent and resolver primitives used by the relay *)

(** Apply [f] to the bufferevent [sd] of connection [x]; libevent is
    handed the field's value, so a NULL bufferevent is undefined
    behaviour. *)
Definition update_bev (x : ptr) (sd : side)
    (f : bufferevent -> bufferevent) : M unit :=
  c ← load x;
  match bev_of sd c with
  | Some b => store x (with_bev sd (Some (f b)) c)
  | None => ub
  end.

Definition bufferevent_setcb (x : ptr) (sd : side) (pipe : bool) : M unit :=
  update_bev x sd (fun b => mkBev pipe (bev_enabled b) (bev_timeout b)
                              (bev_connecting b) (bev_input b)).

Definition bufferevent_enable (x : ptr) (sd : side) (what : Z) : M unit :=
  update_bev x sd (fun b => mkBev (bev_readcb b) (Z.lor (bev_enabled b) what)
                              (bev_timeout b) (bev_connecting b) (bev_input b)).

Definition bufferevent_disable (x : ptr) (sd : side) (what : Z) : M unit :=
  update_bev x sd (fun b => mkBev (bev_readcb b)
                              (Z.land (bev_enabled b) (Z.lnot what))
                              (bev_timeout b) (bev_connecting b) (bev_input b));;
  emit (E_disable x sd what).

Definition bufferevent_set_timeouts (x : ptr) (sd : side) (t : option Z)
    : M unit :=
  update_bev x sd (fun b => mkBev (bev_readcb b) (bev_enabled b) t
                              (bev_connecting b) (bev_input b)).

(** [bufferevent_flush(bev, EV_WRITE, BEV_FINISHED)]. *)
Definition bufferevent_flush (x : ptr) (sd : side) : M unit :=
  update_bev x sd (fun b => b);; emit (E_flush x sd).

(** [bufferevent_free]: the object is released; the field keeps its value. *)
Definition bufferevent_free (x : ptr) (sd : side) : M unit :=
  update_bev x sd (fun b => b);; emit (E_bev_free x sd).

(** [bufferevent_read(bev, buff, n)]: take at most [n] bytes of input. *)
Definition bufferevent_read (x : ptr) (sd : side) (n : nat) : M (list byte) :=
  c ← load x;
  match bev_of sd c with
  | Some b =>
      store x (with_bev sd (Some (mkBev (bev_readcb b) (bev_enabled b)
                                  (bev_timeout b) (bev_connecting b)
                                  (skipn n (bev_input b)))) c);;
      mret (firstn n (bev_input b))
  | None => ub
  end.

(** [bufferevent_write(bev, data, len)]: the bytes go to the output. *)
Definition bufferevent_write (x : ptr) (sd : side) (data : list byte)
    : M unit :=
  update_bev x sd (fun b => b);; emit (E_write x sd data).

(** A new bufferevent in field [sd] of [x]: a socket bufferevent whose
    connect is then started (local side, bufferevent_socket_new and
    bufferevent_socket_connect) or an OpenSSL bufferevent in state
    BUFFEREVENT_SSL_ACCEPTING (remote side); in both cases libevent
    reports the end of the connect or handshake with BEV_EVENT_CONNECTED. *)
Definition bufferevent_new (x : ptr) (sd : side) : M unit :=
  c ← load x;
  store x (with_bev sd (Some (mkBev false EV_WRITE None true [])) c);;
  emit (E_bev_new x sd).

Definition SSL_shutdown (x : ptr) : M unit := emit (E_ssl_shutdown x).

(** Modelled from the spec: send_with_creds (src/mysocket.c, not in src/)
    sends the bytes on the local socket together with the process
    credentials; its result [res] is given by the environment. *)
Definition send_with_creds (x : ptr) (sd : side) (data : list byte) (res : Z)
    : M Z :=
  emit (E_send x sd data res);; mret res.

(** Modelled from the spec: ip_convert (src/mysocket.c, not in src/)
    renders the numeric form of an address, here the address bytes in
    decimal separated by dots (AF_INET) or colons. *)
Definition ip_convert (a : sockaddr) : string :=
  let sep := if bool_decide (sa_family a = AF_INET) then "." else ":" in
  match sa_data a with
  | [] => ""
  | d :: ds => fold_left (fun acc n => String.append acc
                                        (String.append sep (pretty n)))
                 ds (pretty d)
  end%string.

(** evdns_base_resolve_reverse(_ipv6) with the connection as callback
    argument: a new request becomes pending. *)
Definition evdns_base_resolve_reverse (x : ptr) : M (option reqid) :=
  w ← get;
  let r := next_req w in
  put (mkWorld (heap w) (connections w) (next_ptr w)
         (dns_pending w ++ [(r, x)]) (dns_cancelled w) (r + 1)%positive
         (parent_pid w) (watcher w) (loop w) (log w));;
  emit (E_resolve x r);;
  mret (Some r).

Definition evdns_base_resolve_reverse_ipv6 (x : ptr) : M (option reqid) :=
  evdns_base_resolve_reverse x.

(** evdns_cancel_request: libevent schedules the request's callback with
    DNS_ERR_CANCEL (it runs later from the event loop) and drops the
    request. *)
Definition evdns_cancel_request (r : reqid) : M unit :=
  w ← get;
  match list_find (fun q => q.1 = r) (dns_pending w) with
  | Some (_, (_, arg)) =>
      put (set_dns (filter (fun q => q.1 <> r) (dns_pending w))
             (dns_cancelled w ++ [(r, arg)]) w);;
      emit (E_cancel arg r)
  | None => ub  (* a handle libevent has already released *)
  end.

(** ** The relay (src/src/filecopy.c) *)

(** alloc_conn: malloc and memset 0; the model's malloc hands out fresh
    addresses.  The zeroed [state] is C_SSL_CONNECTING (value 0). *)
Definition alloc_conn : M ptr :=
  w ← get;
  let x := next_ptr w in
  put (mkWorld (<[x := mkConn C_SSL_CONNECTING (mkSockaddr 0 []) None None
                         None None None None None]> (heap w))
         (connections w) (x + 1)%positive (dns_pending w) (dns_cancelled w)
         (next_req w) (parent_pid w) (watcher w) (loop w) (log w));;
  mret x.

Definition free_conn (x : ptr) : M unit :=
  c ← load x;
  (match local_bev c with
   | Some _ => bufferevent_free x Local
   | None => mret ()
   end);;
  (match remote_bev c with
   | Some _ => bufferevent_free x Remote
   | None => mret ()
   end);;
  (match resolver_req c with
   | Some r => evdns_cancel_request r
   | None => mret ()
   end);;
  free x.

(** The loop of delete_conn, walking the list from [curr]; [fuel] bounds
    the walk (the list is acyclic and shorter than the heap). *)
Fixpoint delete_conn_loop (fuel : nat) (curr : option ptr) (x : ptr)
    : M unit :=
  match fuel with
  | O => mret ()
  | S fuel' =>
      match curr with
      | None => mret ()
      | Some cp =>
          cc ← load cp;
          let nxt := next cc in
          if decide (cp = x) then
            (match prev cc with
             | Some pp =>
                 pc ← load pp;
                 store pp (with_next nxt pc);;
                 match nxt with
                 | Some np => nc ← load np; store np (with_prev (prev cc) nc)
                 | None => mret ()
                 end
             | None =>
                 w ← get;
                 put (set_connections nxt w);;
                 match nxt with
                 | Some np => nc ← load np; store np (with_prev None nc)
                 | None => mret ()
                 end
             end);;
            free_conn x
          else delete_conn_loop fuel' nxt x
      end
  end.

Definition delete_conn (x : ptr) : M unit :=
  w ← get;
  delete_conn_loop (S (size (heap w))) (connections w) x.

(** The insertion at the head of [connections] done in new_ssl_conn_cb. *)
Definition link_conn (x : ptr) : M unit :=
  w ← get;
  (match connections w with
   | Some h => hc ← load h; store h (with_prev (Some x) hc)
   | None => mret ()
   end);;
  c ← load x;
  store x (with_next (connections w) c);;
  w' ← get;
  put (set_connections (Some x) w').

(** evdns_getnameinfo: reverse lookup of an AF_INET or AF_INET6 address;
    any other family is logged and yields NULL. *)
Definition evdns_getnameinfo (x : ptr) (addr : sockaddr) : M (option reqid) :=
  if bool_decide (sa_family addr = AF_INET) then evdns_base_resolve_reverse x
  else if bool_decide (sa_family addr = AF_INET6)
  then evdns_base_resolve_reverse_ipv6 x
  else mret None.

(** [c->local_bev == bev] for the bufferevent [bev] of [c] that fired. *)
Definition is_local_bev (c : conn) (bev : side) : bool :=
  match bev, local_bev c with
  | Local, Some _ => true
  | _, _ => false
  end.

Definition pipe_cb (x : ptr) (from_bev : side) : M unit :=
  c ← load x;
  let to_side := if is_local_bev c from_bev then Remote else Local in
  buff ← bufferevent_read x from_bev BUFFER_LEN;
  match bev_of to_side c with
  | Some _ =>
      if bool_decide (0 < length buff)%nat
      then bufferevent_write x to_side buff
      else mret ()
  | None => mret ()
  end.

Definition CRLF : string := String "013"%char (String "010"%char EmptyString).

(** The line [snprintf(hostid, len + 1, "%s^%s\r\n", remote_ip, remote_host)]. *)
Definition hostid_format (ip host : string) : string :=
  String.append ip (String.append "^" (String.append host CRLF)).

(** The [len] bytes of that line that local_connected sends, with
    [len = strlen(remote_host) + strlen(remote_ip) + 3]. *)
Definition hostid_line (ip host : string) : list byte :=
  firstn (String.length host + String.length ip + 3)%nat
    (list_ascii_of_string (hostid_format ip host)).

Definition local_connected (x : ptr) (send_res : Z) : M unit :=
  bufferevent_setcb x Local true;;
  bufferevent_enable x Local (Z.lor EV_READ EV_WRITE);;
  bufferevent_setcb x Remote true;;
  bufferevent_enable x Remote (Z.lor EV_READ EV_WRITE);;
  set_state x C_ESTABLISHED;;
  c ← load x;
  match remote_host c, remote_ip c with
  | Some host, Some ip =>
      res ← send_with_creds x Local (hostid_line ip host) send_res;
      if bool_decide (res < 0) then delete_conn x else mret ()
  | _, _ => ub  (* strlen(NULL) *)
  end.

(** address_resolved with [data] = [x]. *)
Definition address_resolved (result type count : Z)
    (addresses : option (list string)) (x : ptr) : M unit :=
  c ← load x;
  store x (with_resolver_req None c);;
  if bool_decide (result = DNS_ERR_CANCEL) then mret ()
  else
    c ← load x;
    (if bool_decide (result <> DNS_ERR_NONE) || bool_decide (addresses = None)
        || bool_decide (type <> DNS_PTR) || bool_decide (count = 0)
     then
       let ipaddr := ip_convert (remote_addr c) in
       store x (with_host_ip (Some ipaddr) (Some ipaddr) c)
     else
       match addresses with
       | Some (hostname :: _) =>
           store x (with_host_ip (Some hostname)
                      (Some (ip_convert (remote_addr c))) c)
       | _ => ub
       end);;
    set_state x C_LOCAL_CONNECTING;;
    bufferevent_new x Local;;
    bufferevent_setcb x Local false;;
    bufferevent_enable x Local EV_WRITE.

Definition ssl_connected (x : ptr) : M unit :=
  bufferevent_set_timeouts x Remote None;;
  set_state x C_HOSTNAME_LOOKUP;;
  c ← load x;
  r ← evdns_getnameinfo x (remote_addr c);
  c' ← load x;
  store x (with_resolver_req r c').

Definition flag (e f : Z) : bool := negb (Z.land e f =? 0).

Definition error_conditions : Z :=
  Z.lor BEV_EVENT_EOF (Z.lor BEV_EVENT_ERROR BEV_EVENT_TIMEOUT).

Definition ssl_event_cb (x : ptr) (bev : side) (e : Z) (send_res : Z)
    : M unit :=
  c ← load x;
  if flag e BEV_EVENT_CONNECTED then
    (if is_local_bev c bev then local_connected x send_res else ssl_connected x)
  else if flag e BEV_EVENT_TIMEOUT then
    (if decide (state c = C_SSL_CONNECTING) then
       bufferevent_disable x Remote (Z.lor EV_READ EV_WRITE);;
       bufferevent_free x Remote;;
       c1 ← load x;
       store x (with_bev Remote None c1);;
       set_state x C_SHUTTINGDOWN;;
       c2 ← load x;
       (match local_bev c2 with
        | Some _ => bufferevent_disable x Local EV_READ;; bufferevent_flush x Local
        | None => mret ()
        end);;
       delete_conn x
     else mret ())
  else if flag e error_conditions then
    (if is_local_bev c bev then
       bufferevent_disable x Local (Z.lor EV_READ EV_WRITE);;
       bufferevent_free x Local;;
       c1 ← load x;
       store x (with_bev Local None c1);;
       set_state x C_SHUTTINGDOWN;;
       c2 ← load x;
       (match remote_bev c2 with
        | Some _ =>
            bufferevent_disable x Remote EV_READ;;
            bufferevent_flush x Remote;;
            SSL_shutdown x
        | None => mret ()
        end);;
       delete_conn x
     else
       bufferevent_disable x Remote (Z.lor EV_READ EV_WRITE);;
       bufferevent_free x Remote;;
       c1 ← load x;
       store x (with_bev Remote None c1);;
       set_state x C_SHUTTINGDOWN;;
       c2 ← load x;
       (match local_bev c2 with
        | Some _ => bufferevent_disable x Local EV_READ;; bufferevent_flush x Local
        | None => mret ()
        end);;
       delete_conn x)
  else mret ().

Definition handshake_timeout : Z := 60.

(** new_ssl_conn_cb; [accepted] is the result of accept (None when it
    fails, else the peer address) and [bev_ok] whether
    bufferevent_openssl_socket_new succeeds. *)
Definition new_ssl_conn_cb (accepted : option sockaddr) (bev_ok : bool)
    : M unit :=
  x ← alloc_conn;
  link_conn x;;
  set_state x C_SSL_CONNECTING;;
  match accepted with
  | None => delete_conn x
  | Some addr =>
      c ← load x;
      store x (mkConn (state c) addr (remote_host c) (remote_ip c)
                 (local_bev c) (remote_bev c) (resolver_req c) (next c)
                 (prev c));;
      if bev_ok then
        bufferevent_new x Remote;;
        bufferevent_setcb x Remote false;;
        bufferevent_set_timeouts x Remote (Some handshake_timeout);;
        bufferevent_enable x Remote EV_WRITE
      else delete_conn x
  end.

Fixpoint close_connections_loop (fuel : nat) (curr : option ptr)
    (flush_local : bool) : M unit :=
  match fuel, curr with
  | S fuel', Some x =>
      set_state x C_SHUTTINGDOWN;;
      c ← load x;
      (match remote_bev c with
       | Some _ => bufferevent_disable x Remote EV_READ;; bufferevent_flush x Remote
       | None => mret ()
       end);;
      (match flush_local, local_bev c with
       | true, Some _ => bufferevent_disable x Local EV_READ;; bufferevent_flush x Local
       | _, _ => mret ()
       end);;
      c' ← load x;
      close_connections_loop fuel' (next c') flush_local
  | _, _ => mret ()
  end.

Definition close_connections (flush_local : bool) : M unit :=
  w ← get;
  close_connections_loop (S (size (heap w))) (connections w) flush_local.

Definition event_base_loopbreak : M unit :=
  w ← get; put (set_loop Loop_broken w).

Definition event_base_loopexit : M unit :=
  w ← get;
  match loop w with
  | Loop_running => put (set_loop Loop_exiting w)
  | _ => mret ()
  end.

(** check_parent; [ppid] is the value getppid() returns. *)
Definition check_parent (ppid : Z) : M unit :=
  w ← get;
  if bool_decide (ppid <> parent_pid w) then
    close_connections false;; event_base_loopbreak
  else mret ().

(** shutdown_cb; libevent passes EV_SIGNAL as [what]. *)
Definition shutdown_cb (what : Z) : M unit :=
  let flush_local :=
    if bool_decide (what = SIGTERM) then true
    else if bool_decide (what = SIGUSR1) then false
    else true in
  close_connections flush_local;;
  event_base_loopexit.

(** ** main *)

Definition parent_timeout : Z := 5.

Definition init_world (ppid : Z) (wt : watch) : world :=
  mkWorld ∅ None 1%positive [] [] 1%positive ppid wt Loop_running [].

Inductive main_outcome :=
| Main_exit (status : Z)
| Main_event_loop (w0 : world).

(** main up to event_base_dispatch: [read_len] is what read(0, &cf,
    sizeof cf) returns, [ppid] what getppid() returns, [ssl_init_ok]
    the result of ssl_init and [prctl_ok] whether
    prctl(PR_SET_PDEATHSIG, SIGUSR1) succeeds.  The world handed to the
    event loop has no connection and the chosen parent watcher. *)
Definition main (read_len ppid : Z) (ssl_init_ok prctl_ok : bool)
    : main_outcome :=
  if bool_decide (read_len < 0) then Main_exit EXIT_FAILURE
  else if negb ssl_init_ok then Main_exit EXIT_FAILURE
  else Main_event_loop
         (init_world ppid (if prctl_ok then Watch_pdeathsig
                           else Watch_poll parent_timeout)).

(** evdns_base_free(resolver, 0): outstanding requests are released
    without running their callbacks. *)
Definition evdns_base_free : M unit :=
  w ← get; put (set_dns [] (dns_cancelled w) w).

Fixpoint main_free_loop (fuel : nat) (curr : option ptr) : M unit :=
  match fuel, curr with
  | S fuel', Some x =>
      c ← load x;
      let n := next c in
      (match remote_bev c with
       | Some _ => SSL_shutdown x
       | None => mret ()
       end);;
      free_conn x;;
      main_free_loop fuel' n
  | _, _ => mret ()
  end.

(** main after event_base_dispatch returns. *)
Definition main_shutdown : M Z :=
  evdns_base_free;;
  w ← get;
  main_free_loop (S (size (heap w))) (connections w);;
  mret EXIT_SUCCESS.

(** ** The event loop *)

(** What the reactor can deliver: the accept callback (with the results
    of accept and of bufferevent_openssl_socket_new), an event on a
    bufferevent of a connection (with the result send_with_creds will
    return should the callback call it), input on a bufferevent, the
    completion of a pending resolver request (with any result but
    DNS_ERR_CANCEL, which libevent reserves for cancelled ones), the callback of a cancelled
    one, a signal, and the parent watch timer (with getppid()). *)
Inductive event :=
| Ev_accept (accepted : option sockaddr) (bev_ok : bool)
| Ev_bev (x : ptr) (sd : side) (e : Z) (send_res : Z)
| Ev_read (x : ptr) (sd : side) (data : list byte)
| Ev_dns (r : reqid) (result type count : Z) (addresses : option (list string))
| Ev_dns_cancelled (r : reqid)
| Ev_signal (signum : Z)
| Ev_parent_timer (ppid : Z).

(** The event flags libevent reports to an event callback. *)
Definition bev_event_flags : list Z :=
  [BEV_EVENT_CONNECTED;
   Z.lor BEV_EVENT_TIMEOUT BEV_EVENT_READING;
   Z.lor BEV_EVENT_TIMEOUT BEV_EVENT_WRITING;
   Z.lor BEV_EVENT_EOF BEV_EVENT_READING;
   Z.lor BEV_EVENT_ERROR BEV_EVENT_READING;
   Z.lor BEV_EVENT_ERROR BEV_EVENT_WRITING].

Definition run (m : M unit) (w : world) : option world :=
  match m w with
  | Some (_, w') => Some w'
  | None => None
  end.

Definition loop_active (w : world) : bool :=
  match loop w with Loop_broken => false | _ => true end.

(** libevent's own bookkeeping before it calls the event callback: a
    reported connect or handshake is no longer pending. *)
Definition bev_report (x : ptr) (sd : side) (e : Z) : M unit :=
  update_bev x sd (fun b => mkBev (bev_readcb b) (bev_enabled b) (bev_timeout b)
                              (bev_connecting b && negb (flag e BEV_EVENT_CONNECTED))
                              (bev_input b)).

(** libevent reads available input into the bufferevent. *)
Definition bev_fill (x : ptr) (sd : side) (data : list byte) : M unit :=
  update_bev x sd (fun b => mkBev (bev_readcb b) (bev_enabled b) (bev_timeout b)
                              (bev_connecting b) (bev_input b ++ data)).

(** One callback run by event_base_dispatch, when the reactor can deliver
    [ev] in [w]; [None] when it cannot, or when the callback has
    undefined behaviour. *)
Definition step (w : world) (ev : event) : option world :=
  if negb (loop_active w) then None else
  match ev with
  | Ev_accept a ok => run (new_ssl_conn_cb a ok) w
  | Ev_bev x sd e res =>
      match heap w !! x with
      | Some c =>
          match bev_of sd c with
          | Some b =>
              if bool_decide (e ∈ bev_event_flags)
                 && (negb (flag e BEV_EVENT_CONNECTED) || bev_connecting b)
                 && (negb (flag e BEV_EVENT_TIMEOUT)
                     || bool_decide (is_Some (bev_timeout b)))
              then run (bev_report x sd e;; ssl_event_cb x sd e res) w
              else None
          | None => None
          end
      | None => None
      end
  | Ev_read x sd data =>
      match heap w !! x with
      | Some c =>
          match bev_of sd c with
          | Some b =>
              if flag (bev_enabled b) EV_READ
              then run (bev_fill x sd data;;
                        if bev_readcb b then pipe_cb x sd else mret ()) w
              else None
          | None => None
          end
      | None => None
      end
  | Ev_dns r result type count addrs =>
      match list_find (fun q => q.1 = r) (dns_pending w) with
      | Some (_, (_, arg)) =>
          if bool_decide (result = DNS_ERR_CANCEL) then None else
          run (put (set_dns (filter (fun q => q.1 <> r) (dns_pending w))
                      (dns_cancelled w) w);;
               address_resolved result type count addrs arg) w
      | None => None
      end
  | Ev_dns_cancelled r =>
      match list_find (fun q => q.1 = r) (dns_cancelled w) with
      | Some (_, (_, arg)) =>
          run (put (set_dns (dns_pending w)
                      (filter (fun q => q.1 <> r) (dns_cancelled w)) w);;
               address_resolved DNS_ERR_CANCEL 0 0 None arg) w
      | None => None
      end
  | Ev_signal s =>
      if bool_decide (s = SIGTERM)
         || (bool_decide (s = SIGUSR1)
             && bool_decide (watcher w = Watch_pdeathsig))
      then run (shutdown_cb EV_SIGNAL) w
      else None
  | Ev_parent_timer ppid =>
      match watcher w with
      | Watch_poll _ => run (check_parent ppid) w
      | Watch_pdeathsig => None
      end
  end.

Inductive reachable : world -> Prop :=
| reach_init ppid wt : reachable (init_world ppid wt)
| reach_step w ev w' : reachable w -> step w ev = Some w' -> reachable w'.

Fixpoint run_events (w : world) (evs : list event) : option world :=
  match evs with
  | [] => Some w
  | ev :: evs' =>
      match step w ev with
      | Some w' => run_events w' evs'
      | None => None
      end
  end.

(** ** Reading the log *)

(** The effects on connection [x], in order. *)
Definition trace (x : ptr) (l : list effect) : list effect :=
  filter (fun e => eff_ptr e = x) l.

(** The values assigned to the state field. *)
Definition states (l : list effect) : list conn_state :=
  omap (fun e => match e with E_state _ s => Some s | _ => None end) l.

(** The bytes handed to the local transport: sends and buffered writes. *)
Definition local_out (l : list effect) : list (list byte) :=
  omap (fun e => match e with
                 | E_send _ Local b _ => Some b
                 | E_write _ Local b => Some b
                 | _ => None
                 end) l.

Definition local_sends (l : list effect) : list (list byte) :=
  omap (fun e => match e with E_send _ Local b _ => Some b | _ => None end) l.

(** ** The order of states *)

(** The next state on the success path. *)
Definition succ (s : conn_state) : conn_state :=
  match s with
  | C_SSL_CONNECTING => C_HOSTNAME_LOOKUP
  | C_HOSTNAME_LOOKUP => C_LOCAL_CONNECTING
  | C_LOCAL_CONNECTING => C_ESTABLISHED
  | _ => C_SHUTTINGDOWN
  end.

Definition is_sd (s : conn_state) : bool :=
  match s with C_SHUTTINGDOWN => true | _ => false end.

(** [valid_from ph ss]: every assignment in [ss] is SHUTTING_DOWN or the
    successor of the last state [ph] reached on the success path. *)
Fixpoint valid_from (ph : conn_state) (ss : list conn_state) : bool :=
  match ss with
  | [] => true
  | s :: ss' =>
      (is_sd s || bool_decide (s = succ ph))
      && valid_from (if is_sd s then ph else s) ss'
  end.

Definition valid_states (ss : list conn_state) : bool :=
  match ss with
  | [] => true
  | s :: ss' => bool_decide (s = C_SSL_CONNECTING) && valid_from s ss'
  end.

(** The last state of the success path reached. *)
Definition phase_from (ph : conn_state) (ss : list conn_state) : conn_state :=
  fold_left (fun p s => if is_sd s then p else s) ss ph.

Definition phase_of (ss : list conn_state) : conn_state :=
  phase_from C_SSL_CONNECTING ss.

Definition success_path : list conn_state :=
  [C_SSL_CONNECTING; C_HOSTNAME_LOOKUP; C_LOCAL_CONNECTING; C_ESTABLISHED].

(** A prefix of SSL_CONNECTING, HOSTNAME_LOOKUP, LOCAL_CONNECTING,
    ESTABLISHED, SHUTTING_DOWN, possibly cut short by SHUTTING_DOWN. *)
Definition path_prefix (ss : list conn_state) : Prop :=
  exists k, ss = firstn k success_path
            \/ ((0 < k)%nat /\ ss = firstn k success_path ++ [C_SHUTTINGDOWN]).

(** ** The registry as a list *)

(** [seg h a p L a' p']: following [next] from [a], whose [prev] is [p],
    visits the nodes [L] and reaches [a'], the last node being [p']. *)
Inductive seg (h : gmap ptr conn)
    : option ptr -> option ptr -> list ptr -> option ptr -> option ptr -> Prop :=
| seg_nil a p : seg h a p [] a p
| seg_cons x c p L a' p' :
    h !! x = Some c -> prev c = p ->
    seg h (next c) (Some x) L a' p' ->
    seg h (Some x) p (x :: L) a' p'.

(** [connections] is a doubly linked list of the nodes [L], each once,
    and the live records are exactly its nodes. *)
Definition registry (w : world) (L : list ptr) : Prop :=
  (exists p', seg (heap w) (connections w) None L None p')
  /\ NoDup L
  /\ forall y, is_Some (heap w !! y) <-> y ∈ L.

(** ** Invariants of the reachable worlds *)

Definition pend_of (y : ptr) (l : list (reqid * ptr)) : list (reqid * ptr) :=
  filter (fun q => q.2 = y) l.

Definition no_local_effect (e : effect) : bool :=
  match e with
  | E_bev_new _ Local | E_send _ Local _ _ | E_write _ Local _ => false
  | _ => true
  end.

Definition no_lookup_effect (e : effect) : bool :=
  match e with
  | E_resolve _ _ => false
  | _ => no_local_effect e
  end.

(** The local transport gets nothing before ESTABLISHED, and after it the
    line first, sent once. *)
Definition local_ok (tr : list effect) : Prop :=
  (C_ESTABLISHED ∉ states tr -> local_out tr = [])
  /\ (C_ESTABLISHED ∈ states tr ->
      exists ip host rest,
        local_out tr = hostid_line ip host :: rest
        /\ local_sends tr = [hostid_line ip host]).

Definition pend_req (y : ptr) (c : conn) : list (reqid * ptr) :=
  match resolver_req c with Some r => [(r, y)] | None => [] end.

(** The families evdns_getnameinfo resolves. *)
Definition resolvable (a : sockaddr) : Prop :=
  sa_family a = AF_INET \/ sa_family a = AF_INET6.

(** The fields of a live connection for each stage of the success path. *)
Definition shape (y : ptr) (ph : conn_state) (c : conn) (tr : list effect)
    (pend : list (reqid * ptr)) : Prop :=
  match ph with
  | C_SSL_CONNECTING =>
      (exists b, remote_bev c = Some b /\ bev_readcb b = false
                 /\ bev_connecting b = true
                 /\ bev_timeout b = Some handshake_timeout)
      /\ local_bev c = None /\ resolver_req c = None /\ pend = []
      /\ remote_host c = None /\ remote_ip c = None
      /\ Forall (fun e => no_lookup_effect e = true) tr
  | C_HOSTNAME_LOOKUP =>
      (exists b, remote_bev c = Some b /\ bev_readcb b = false
                 /\ bev_connecting b = false /\ bev_timeout b = None)
      /\ local_bev c = None /\ pend = pend_req y c
      /\ remote_host c = None /\ remote_ip c = None
      /\ Forall (fun e => no_local_effect e = true) tr
      /\ (is_Some (resolver_req c) -> resolvable (remote_addr c))
  | C_LOCAL_CONNECTING =>
      (exists b, remote_bev c = Some b /\ bev_readcb b = false
                 /\ bev_connecting b = false /\ bev_timeout b = None)
      /\ (exists lb, local_bev c = Some lb /\ bev_readcb lb = false
                     /\ bev_connecting lb = true /\ bev_timeout lb = None)
      /\ resolver_req c = None /\ pend = []
      /\ is_Some (remote_host c) /\ is_Some (remote_ip c)
      /\ resolvable (remote_addr c)
  | C_ESTABLISHED =>
      (exists b, remote_bev c = Some b /\ bev_readcb b = true
                 /\ bev_connecting b = false /\ bev_timeout b = None)
      /\ (exists lb, local_bev c = Some lb /\ bev_readcb lb = true
                     /\ bev_connecting lb = false /\ bev_timeout lb = None)
      /\ resolver_req c = None /\ pend = []
      /\ (exists host ip, remote_host c = Some host /\ remote_ip c = Some ip
                          /\ local_sends tr = [hostid_line ip host])
      /\ resolvable (remote_addr c)
  | C_SHUTTINGDOWN => False
  end.

Definition conn_ok (y : ptr) (c : conn) (tr : list effect)
    (pend canc : list (reqid * ptr)) : Prop :=
  last (states tr) = Some (state c)
  /\ valid_states (states tr) = true
  /\ shape y (phase_of (states tr)) c tr pend
  /\ canc = []
  /\ local_ok tr.

Definition dead_ok (tr : list effect) (pend : list (reqid * ptr)) : Prop :=
  pend = [] /\ valid_states (states tr) = true /\ local_ok tr.

(** SHUTTING_DOWN assigned once, last. *)
Definition sd_last (ss : list conn_state) : Prop :=
  exists pre, ss = pre ++ [C_SHUTTINGDOWN] /\ C_SHUTTINGDOWN ∉ pre.

(** The invariant, with the connection [ex] (if any) exempted from the
    conditions on live connections: it is being torn down. *)
Record inv_gen (ex : option ptr) (w : world) : Prop := {
  inv_registry : exists L, registry w L;
  inv_fresh : forall y, (next_ptr w <= y)%positive ->
    heap w !! y = None /\ trace y (log w) = []
    /\ pend_of y (dns_pending w) = [] /\ pend_of y (dns_cancelled w) = [];
  inv_req_nodup : NoDup (map fst (dns_pending w ++ dns_cancelled w));
  inv_req_fresh : forall q, q ∈ dns_pending w ++ dns_cancelled w ->
    (q.1 < next_req w)%positive;
  inv_live : forall y c, heap w !! y = Some c ->
    if bool_decide (ex = Some y) then
      valid_states (states (trace y (log w))) = true
      /\ local_ok (trace y (log w))
      /\ pend_of y (dns_pending w) = pend_req y c
      /\ pend_of y (dns_cancelled w) = []
    else
      conn_ok y c (trace y (log w)) (pend_of y (dns_pending w))
        (pend_of y (dns_cancelled w));
  inv_dead : forall y, heap w !! y = None ->
    dead_ok (trace y (log w)) (pend_of y (dns_pending w));
  inv_running : loop w = Loop_running -> forall y,
    C_SHUTTINGDOWN ∈ states (trace y (log w)) ->
    (heap w !! y = None \/ ex = Some y) /\ sd_last (states (trace y (log w)))
}.

Definition inv (w : world) : Prop := inv_gen None w.

(** ** Auxiliary definitions: the effects and records of the proofs, and
    the event sequences of the examples *)

Definition free_effs (x : ptr) (c : conn) : list effect :=
  (match local_bev c with Some _ => [E_bev_free x Local] | None => [] end)
  ++ (match remote_bev c with Some _ => [E_bev_free x Remote] | None => [] end)
  ++ (match resolver_req c with Some r => [E_cancel x r] | None => [] end).

Definition pend_after (c : conn) (l : list (reqid * ptr)) : list (reqid * ptr) :=
  match resolver_req c with
  | Some r => filter (fun q => q.1 <> r) l
  | None => l
  end.

Definition unlink_heap (h : gmap ptr conn) (cx : conn) : gmap ptr conn :=
  let h1 := match prev cx with
            | Some pp => match h !! pp with
                         | Some pc => <[pp := with_next (next cx) pc]> h
                         | None => h
                         end
            | None => h
            end in
  match next cx with
  | Some np => match h1 !! np with
               | Some nc => <[np := with_prev (prev cx) nc]> h1
               | None => h1
               end
  | None => h1
  end.

Definition unlink_conns (conns : option ptr) (cx : conn) : option ptr :=
  match prev cx with Some _ => conns | None => next cx end.

Definition strip (c : conn) : conn := with_next None (with_prev None c).

(** [w'] is [w] after the record [cx] at [x] is unlinked and freed. *)
Definition deleted (x : ptr) (cx : conn) (w w' : world) : Prop :=
  heap w' !! x = None
  /\ (forall y, y <> x -> strip <$> heap w' !! y = strip <$> heap w !! y)
  /\ next_ptr w' = next_ptr w
  /\ dns_pending w' = pend_after cx (dns_pending w)
  /\ dns_cancelled w' = dns_cancelled w ++ pend_req x cx
  /\ next_req w' = next_req w /\ parent_pid w' = parent_pid w
  /\ watcher w' = watcher w /\ loop w' = loop w
  /\ log w' = log w ++ free_effs x cx.

Definition bev_disable_read (b : bufferevent) : bufferevent :=
  mkBev (bev_readcb b) (Z.land (bev_enabled b) (Z.lnot EV_READ)) (bev_timeout b)
    (bev_connecting b) (bev_input b).

Definition close_rec (fl : bool) (c : conn) : conn :=
  mkConn C_SHUTTINGDOWN (remote_addr c) (remote_host c) (remote_ip c)
    (if fl then bev_disable_read <$> local_bev c else local_bev c)
    (bev_disable_read <$> remote_bev c) (resolver_req c) (next c) (prev c).

Definition close_effs (fl : bool) (y : ptr) (c : conn) : list effect :=
  [E_state y C_SHUTTINGDOWN]
  ++ (match remote_bev c with
      | Some _ => [E_disable y Remote EV_READ; E_flush y Remote]
      | None => [] end)
  ++ (match fl, local_bev c with
      | true, Some _ => [E_disable y Local EV_READ; E_flush y Local]
      | _, _ => [] end).

Definition link_heap (h : gmap ptr conn) (conns : option ptr) (x : ptr) : gmap ptr conn :=
  match conns with
  | Some hd => match h !! hd with
               | Some hc => <[hd := with_prev (Some x) hc]> h
               | None => h
               end
  | None => h
  end.

Definition zero_conn : conn :=
  mkConn C_SSL_CONNECTING (mkSockaddr 0 []) None None None None None None None.

Definition acc_conn (conns : option ptr) (addr : sockaddr) : conn :=
  mkConn C_SSL_CONNECTING addr None None None None None conns None.

Definition acc_world (w : world) (c : conn) (es : list effect) : world :=
  mkWorld (<[next_ptr w := c]> (link_heap (heap w) (connections w) (next_ptr w)))
    (Some (next_ptr w)) (next_ptr w + 1)%positive (dns_pending w) (dns_cancelled w)
    (next_req w) (parent_pid w) (watcher w) (loop w) (log w ++ es).

Definition acc_bev : bufferevent :=
  mkBev false (Z.lor EV_WRITE EV_WRITE) (Some handshake_timeout) true [].

Definition demo_addr : sockaddr := mkSockaddr AF_INET [127; 0; 0; 1].

Definition demo_est : list event :=
  [Ev_accept (Some demo_addr) true;
   Ev_bev 1 Remote BEV_EVENT_CONNECTED 0;
   Ev_dns 1 DNS_ERR_NONE DNS_PTR 1 (Some ["client.example"%string]);
   Ev_bev 1 Local BEV_EVENT_CONNECTED 30].

Definition demo_sigterm_race : list event :=
  [Ev_accept (Some demo_addr) true;
   Ev_bev 1 Remote BEV_EVENT_CONNECTED 0;
   Ev_dns 1 DNS_ERR_NONE DNS_PTR 1 (Some ["client.example"%string]);
   Ev_signal SIGTERM;
   Ev_bev 1 Local BEV_EVENT_CONNECTED 30].

Definition pipe_out (x : ptr) (sd : side) (c : conn) (chunk : list byte) : list effect :=
  match bev_of (other sd) c with
  | Some _ => if bool_decide (0 < length chunk)%nat then [E_write x (other sd) chunk] else []
  | None => []
  end.

Definition demo_accept : list event := [Ev_accept (Some demo_addr) true].

(** The byte strings written on side [sd] of [x], in order. *)
Definition writes_to (x : ptr) (sd : side) (l : list effect) : list (list byte) :=
  omap (fun e => match e with
                 | E_write y s bs => if bool_decide (y = x /\ s = sd) then Some bs else None
                 | _ => None
                 end) l.

(** The input delivered to side [sd] of [x] by a sequence of events. *)
Definition reads_on (x : ptr) (sd : side) (evs : list event) : list (list byte) :=
  omap (fun ev => match ev with
                  | Ev_read y s d => if bool_decide (y = x /\ s = sd) then Some d else None
                  | _ => None
                  end) evs.

(** [c'] has, on each side, no bufferevent or one holding the same input
    as in [c]. *)
Definition input_le (c' c : conn) : Prop :=
  forall s, bev_of s c' = None \/ bev_input <$> bev_of s c' = bev_input <$> bev_of s c.

(** A change of the world that leaves the connections of [S] alone: no
    address is reused, no byte is written to them, and a connection of
    [S] allocated before stays freed, is freed or keeps the input of its
    bufferevents. *)
Definition fr (S : ptr -> Prop) (w w' : world) : Prop :=
  (next_ptr w <= next_ptr w')%positive
  /\ (exists es, log w' = log w ++ es /\ forall z s, S z -> writes_to z s es = [])
  /\ forall z, S z -> (z < next_ptr w)%positive ->
       (heap w !! z = None -> heap w' !! z = None)
       /\ forall c, heap w !! z = Some c ->
            heap w' !! z = None \/ exists c', heap w' !! z = Some c' /\ input_le c' c.

(** Every run of [m] from [w] is such a change. *)
Definition frame_at {A} (S : ptr -> Prop) (m : M A) (w : world) : Prop :=
  forall a w', m w = Some (a, w') -> fr S w w'.

(** [x] has been assigned C_LOCAL_CONNECTING or C_ESTABLISHED. *)
Definition past_lc (x : ptr) (w : world) : Prop :=
  C_LOCAL_CONNECTING ∈ states (trace x (log w)) \/ C_ESTABLISHED ∈ states (trace x (log w)).

(** Relaying on connection 1 interleaved with input on its other side, a
    second connection and its handshake, with a payload larger than
    BUFFER_LEN. *)
Definition demo_relay : list event :=
  [Ev_read 1 Remote (list_ascii_of_string "hello ");
   Ev_read 1 Local (list_ascii_of_string "ack");
   Ev_accept (Some demo_addr) true;
   Ev_read 1 Remote (repeat "a"%char (Z.to_nat 9000));
   Ev_bev 2 Remote BEV_EVENT_CONNECTED 0;
   Ev_read 1 Remote (list_ascii_of_string "world")].


Definition demo_cancel : list event :=
  [Ev_accept (Some demo_addr) true;
   Ev_bev 1 Remote BEV_EVENT_CONNECTED 0;
   Ev_bev 1 Remote (Z.lor BEV_EVENT_EOF BEV_EVENT_READING) 0].

Definition demo_lookup : list event :=
  [Ev_accept (Some demo_addr) true; Ev_bev 1 Remote BEV_EVENT_CONNECTED 0].

Definition demo_unix_addr : sockaddr := mkSockaddr 1 [].

Definition demo_unresolvable : list event :=
  [Ev_accept (Some demo_unix_addr) true; Ev_bev 1 Remote BEV_EVENT_CONNECTED 0].

(** ** Further definitions: demo traces, the error flags of the event
    callbacks, and the effects of freeing a connection at exit *)

(** Accept, handshake, then a resolved lookup: the local connection is
    being opened. *)
Definition demo_lc : list event :=
  [Ev_accept (Some demo_addr) true;
   Ev_bev 1 Remote BEV_EVENT_CONNECTED 0;
   Ev_dns 1 DNS_ERR_NONE DNS_PTR 1 (Some ["client.example"%string])].

(** The flag sets libevent passes on end of file or a read or write error. *)
Definition bev_error_flags : list Z :=
  [Z.lor BEV_EVENT_EOF BEV_EVENT_READING;
   Z.lor BEV_EVENT_ERROR BEV_EVENT_READING;
   Z.lor BEV_EVENT_ERROR BEV_EVENT_WRITING].

(** What main's exit path does to one connection. *)
Definition shutdown_effs (y : ptr) (c : conn) : list effect :=
  (match remote_bev c with Some _ => [E_ssl_shutdown y] | None => [] end) ++ free_effs y c.

(** ** The file utilities of src/src/filecopy.c

    copy_file and copy_to_file over a file system of named byte lists.
    stdio streams are taken unbuffered: fwrite reports how many bytes the
    disk took, and fread a short count only at the end of the file.  glibc
    buffers both streams; the two agree as long as the disk takes every
    write and the file read is not the file written, which is the setting
    of the properties proved below.  Beyond it (a full disk, whose error
    glibc reports at the fclose that copy_file and copy_to_file do not
    check; a copy onto the source, whose first block glibc has already
    buffered) the unbuffered streams are not a model of the code. *)

(** glibc's BUFSIZ (stdio.h). *)
Definition BUFSIZ : nat := Z.to_nat 8192.

(** A stdio stream reading a regular file: the file's name, the position
    and the end-of-file indicator. *)
Record stream := mkStream {
  st_name : string;
  st_pos : nat;
  st_eof : bool;
}.

(** The files, the names fopen(.., "w") may open, and the free space of
    the disk. *)
Record fsys := mkFs {
  files : gmap string (list byte);
  writable : gset string;
  space : nat;
}.

Definition file_data (st : fsys) (name : string) : list byte :=
  default [] (files st !! name).

(** fopen(name, "r"). *)
Definition fopen_r (name : string) (st : fsys) : option stream :=
  match files st !! name with
  | Some _ => Some (mkStream name 0 false)
  | None => None
  end.

(** fopen(name, "w"): the file is created or truncated. *)
Definition fopen_w (name : string) (st : fsys) : option fsys :=
  if bool_decide (name ∈ writable st)
  then Some (mkFs (<[name := []]> (files st)) (writable st)
               (space st + length (file_data st name)))
  else None.

(** fseek(f, 0, SEEK_SET): clears the end-of-file indicator. *)
Definition fseek_start (f : stream) : stream := mkStream (st_name f) 0 false.

(** fread(buf, 1, BUFSIZ, f): at most BUFSIZ bytes from the position; a
    short count sets the end-of-file indicator.  The bytes are read from
    the file as it is now (no stdio read buffer). *)
Definition fread (f : stream) (st : fsys) : list byte * stream :=
  let got := firstn BUFSIZ (skipn (st_pos f) (file_data st (st_name f))) in
  (got, mkStream (st_name f) (st_pos f + length got)
          (st_eof f || Nat.ltb (length got) BUFSIZ)).

(** fwrite(buf, 1, len, to) on a stream writing at the end of the file
    [name]: as many bytes as the disk can take, written at once (no stdio
    write buffer); exact when the disk has room for [buf]. *)
Definition fwrite (name : string) (buf : list byte) (st : fsys) : nat * fsys :=
  let n := Nat.min (length buf) (space st) in
  (n, mkFs (<[name := file_data st name ++ firstn n buf]> (files st)) (writable st)
        (space st - n)).

(** [while ((len = fread(buf, 1, BUFSIZ, f)) > 0)
       if (fwrite(buf, 1, len, to) != len) { ...; return -1; }]:
    [false] when the loop returns on a short write.  [fuel] bounds the
    iterations: each one either reaches the end or consumes input or
    disk space. *)
Fixpoint copy_loop (fuel : nat) (f : stream) (dst : string) (st : fsys)
    : bool * stream * fsys :=
  match fuel with
  | O => (true, f, st)
  | S fuel' =>
      let '(buf, f') := fread f st in
      if Nat.eqb (length buf) 0 then (true, f', st)
      else
        let '(n, st') := fwrite dst buf st in
        if Nat.eqb n (length buf) then copy_loop fuel' f' dst st'
        else (false, f', st')
  end.

Definition copy_fuel (f : stream) (st : fsys) : nat :=
  S (length (file_data st (st_name f)) + space st).

(** copy_file; [seek_ok] is whether fseek succeeds. *)
Definition copy_file (f : stream) (newname : string) (reset seek_ok : bool) (st : fsys)
    : Z * stream * fsys :=
  match fopen_w newname st with
  | Some st1 =>
      if reset && negb seek_ok then (-1, f, st1)
      else
        let f1 := if reset then fseek_start f else f in
        match copy_loop (copy_fuel f1 st1) f1 newname st1 with
        | (true, f2, st2) => (if st_eof f2 then 0 else -1, f2, st2)
        | (false, f2, st2) => (-1, f2, st2)
        end
  | None => (-1, f, st)
  end.

(** copy_to_file, [to] writing at the end of the file [to]. *)
Definition copy_to_file (name to : string) (st : fsys) : Z * fsys :=
  match fopen_r name st with
  | Some from =>
      match copy_loop (copy_fuel from st) from to st with
      | (true, _, st') => (0, st')
      | (false, _, st') => (-1, st')
      end
  | None => (-1, st)
  end.

(** A file "a" holding three bytes, an empty writable file "b", and [sp]
    bytes of free space. *)
Definition demo_bytes : list byte := ["h"; "i"; "010"]%char.
Definition demo_fs (sp : nat) : fsys :=
  mkFs (<["a"%string := demo_bytes]> (<["b"%string := []]> ∅)) {["b"%string]} sp.

(** * Proofs *)

Lemma trace_app x l1 l2 : trace x (l1 ++ l2) = trace x l1 ++ trace x l2.
Proof. apply filter_app. Qed.

Lemma states_app l1 l2 : states (l1 ++ l2) = states l1 ++ states l2.
Proof. apply omap_app. Qed.

Lemma local_out_app l1 l2 : local_out (l1 ++ l2) = local_out l1 ++ local_out l2.
Proof. apply omap_app. Qed.

Lemma local_sends_app l1 l2 : local_sends (l1 ++ l2) = local_sends l1 ++ local_sends l2.
Proof. apply omap_app. Qed.

Lemma trace_own x es : Forall (fun e => eff_ptr e = x) es -> trace x es = es.
Proof. induction 1; [done|]. unfold trace in *. rewrite filter_cons_True; [|done]. by f_equal. Qed.

Lemma trace_other x y es : Forall (fun e => eff_ptr e = x) es -> y <> x -> trace y es = [].
Proof. induction 1; intros; [done|]. unfold trace in *. rewrite filter_cons_False; [|congruence]. auto. Qed.

Lemma phase_from_app ph ss1 ss2 :
  phase_from ph (ss1 ++ ss2) = phase_from (phase_from ph ss1) ss2.
Proof. unfold phase_from. by rewrite fold_left_app. Qed.

Lemma valid_from_app ph ss1 ss2 :
  valid_from ph (ss1 ++ ss2) = valid_from ph ss1 && valid_from (phase_from ph ss1) ss2.
Proof.
  revert ph. induction ss1 as [|s ss1 IH]; intros ph; [done|].
  simpl. rewrite IH. unfold phase_from. simpl. destruct (is_sd s || _); simpl; [|done].
  by destruct (is_sd s).
Qed.

Lemma valid_states_snoc ss s : ss <> [] ->
  valid_states (ss ++ [s]) = valid_states ss && (is_sd s || bool_decide (s = succ (phase_of ss))).
Proof.
  destruct ss as [|s0 ss]; [done|]. intros _. simpl.
  rewrite valid_from_app. simpl. unfold phase_of, phase_from. simpl.
  destruct (bool_decide (s0 = C_SSL_CONNECTING)) eqn:E; simpl; [|done].
  apply bool_decide_eq_true in E. subst. by rewrite andb_true_r.
Qed.

Lemma phase_of_snoc ss s : phase_of (ss ++ [s]) = if is_sd s then phase_of ss else s.
Proof. unfold phase_of. rewrite phase_from_app. done. Qed.

(** Segments *)

Lemma seg_app h a p L1 a1 p1 L2 a2 p2 :
  seg h a p L1 a1 p1 -> seg h a1 p1 L2 a2 p2 -> seg h a p (L1 ++ L2) a2 p2.
Proof. induction 1; intros; simpl; [done|]. econstructor; eauto. Qed.

Lemma seg_cons_inv h a p y L a' p' : seg h a p (y :: L) a' p' ->
  a = Some y /\ exists c, h !! y = Some c /\ prev c = p /\ seg h (next c) (Some y) L a' p'.
Proof. inversion 1; subst. eauto. Qed.

Lemma seg_split h a p L1 L2 a2 p2 :
  seg h a p (L1 ++ L2) a2 p2 -> exists a1 p1, seg h a p L1 a1 p1 /\ seg h a1 p1 L2 a2 p2.
Proof.
  revert a p. induction L1 as [|y L1 IH]; intros a p H; simpl in *.
  - exists a, p. split; [constructor|done].
  - apply seg_cons_inv in H as (-> & c & Hc & Hp & Hs). destruct (IH _ _ Hs) as (a1 & p1 & Ha & Hb).
    exists a1, p1. split; [econstructor; eauto|done].
Qed.

Lemma seg_frame h h' a p L a' p' :
  seg h a p L a' p' -> (forall y, y ∈ L -> h' !! y = h !! y) -> seg h' a p L a' p'.
Proof.
  induction 1 as [|x c p L a' p' Hx Hp Hs IH]; intros Hf; [constructor|].
  econstructor; [rewrite Hf; [done|left]|done|]. apply IH. intros y Hy. apply Hf. by right.
Qed.

Lemma seg_in h a p L a' p' y : seg h a p L a' p' -> y ∈ L -> is_Some (h !! y).
Proof. induction 1; intros Hy; [inversion Hy|]. inversion Hy; subst; eauto. Qed.

Lemma seg_nil_inv h a p a' p' : seg h a p [] a' p' -> a' = a /\ p' = p.
Proof. by inversion 1. Qed.

Lemma seg_snoc_inv h a p L y a' p' : seg h a p (L ++ [y]) a' p' ->
  p' = Some y /\ exists a1 p1 c, seg h a p L a1 p1 /\ a1 = Some y /\ h !! y = Some c
    /\ prev c = p1 /\ next c = a'.
Proof.
  intros H. apply seg_split in H as (a1 & p1 & H1 & H2).
  apply seg_cons_inv in H2 as (-> & c & Hc & Hp & Hs). apply seg_nil_inv in Hs as [-> ->].
  split; [done|]. eauto 10.
Qed.

Lemma seg_none_nil h p L p' : seg h None p L None p' -> L = [].
Proof. by inversion 1. Qed.

Lemma seg_end_none h a p L p' : seg h a p L None p' -> a = None -> L = [].
Proof. intros H ->. by eapply seg_none_nil. Qed.

Ltac munfold := cbv [mbind M_bind mret M_ret load store emit free get put ub set_state update_bev
  bufferevent_setcb bufferevent_enable bufferevent_disable bufferevent_flush bufferevent_free
  bufferevent_set_timeouts bufferevent_read bufferevent_write bufferevent_new SSL_shutdown send_with_creds
  set_heap set_log set_connections set_loop set_dns bev_of with_bev with_state with_next with_prev
  with_resolver_req with_host_ip free_conn evdns_cancel_request].

Ltac mcbn := cbn [heap log connections next_ptr dns_pending dns_cancelled next_req parent_pid watcher loop
   state remote_addr remote_host remote_ip local_bev remote_bev resolver_req next prev
   bev_readcb bev_enabled bev_timeout bev_connecting bev_input].

Lemma nodup_fst_unique {A B} (l : list (A * B)) a b b' :
  NoDup (map fst l) -> (a, b) ∈ l -> (a, b') ∈ l -> b = b'.
Proof.
  revert a b b'. induction l as [|[a0 b0] l IH]; intros a b b' Hn H1 H2; [by apply elem_of_nil in H1|].
  simpl in Hn. apply NoDup_cons in Hn as [Hn0 Hn].
  apply elem_of_cons in H1, H2.
  destruct H1 as [H1|H1], H2 as [H2|H2].
  - congruence.
  - exfalso. apply Hn0. apply list_elem_of_fmap. injection H1 as <- <-. by exists (a, b').
  - exfalso. apply Hn0. apply list_elem_of_fmap. injection H2 as <- <-. by exists (a, b).
  - eauto.
Qed.

Lemma list_find_req (l : list (reqid * ptr)) r x :
  NoDup (map fst l) -> (r, x) ∈ l -> exists i, list_find (fun q => q.1 = r) l = Some (i, (r, x)).
Proof.
  intros Hn Hin. destruct (list_find (fun q => q.1 = r) l) as [[i [r' x']]|] eqn:E.
  - apply list_find_Some in E as (Hi & Hr & _). simpl in Hr. subst r'.
    apply list_elem_of_lookup_2 in Hi. exists i.
    by rewrite (nodup_fst_unique l r x x' Hn Hin Hi).
  - apply list_find_None in E. rewrite Forall_forall in E. by destruct (E _ Hin).
Qed.

Lemma free_conn_spec w x c :
  heap w !! x = Some c ->
  (forall r, resolver_req c = Some r -> (r, x) ∈ dns_pending w /\ NoDup (map fst (dns_pending w))) ->
  free_conn x w = Some (tt, mkWorld (delete x (heap w)) (connections w) (next_ptr w)
    (pend_after c (dns_pending w)) (dns_cancelled w ++ pend_req x c) (next_req w)
    (parent_pid w) (watcher w) (loop w) (log w ++ free_effs x c)).
Proof.
  intros Hx Hr. unfold pend_after, pend_req, free_effs.
  munfold. mcbn. rewrite Hx.
  destruct (local_bev c) as [lb|] eqn:El; destruct (remote_bev c) as [rb|] eqn:Er;
    destruct (resolver_req c) as [r|] eqn:Eq; mcbn; simplify_map_eq;
    try (destruct (Hr r eq_refl) as [Hin Hn]; destruct (list_find_req _ _ _ Hn Hin) as [i Hi];
         rewrite Hi; mcbn; simplify_map_eq);
    rewrite ?delete_insert_eq, ?app_nil_r, <- ?app_assoc; reflexivity.
Qed.

Lemma registry_size w L : registry w L -> size (heap w) = length L.
Proof.
  intros (_ & Hn & Hd). rewrite <- size_dom.
  assert (dom (heap w) = list_to_set L) as ->.
  { apply set_eq. intros y. rewrite elem_of_dom, elem_of_list_to_set. apply Hd. }
  by rewrite size_list_to_set.
Qed.

Lemma delete_walk h a p L a' p' :
  seg h a p L a' p' -> forall w f x, heap w = h -> x ∉ L ->
  delete_conn_loop (length L + f) a x w = delete_conn_loop f a' x w.
Proof.
  induction 1 as [|y c p L a' p' Hy Hp Hs IH]; intros w f x Hw Hx; [done|].
  apply not_elem_of_cons in Hx as [Hyx Hx].
  simpl. unfold mbind, M_bind, load. rewrite Hw, Hy.
  rewrite decide_False; [|done]. by apply IH.
Qed.

Lemma delete_at w f x cx :
  heap w !! x = Some cx ->
  (forall pp, prev cx = Some pp -> is_Some (heap w !! pp)) ->
  (forall np, next cx = Some np -> is_Some (heap w !! np)) ->
  delete_conn_loop (S f) (Some x) x w =
  free_conn x (mkWorld (unlink_heap (heap w) cx) (unlink_conns (connections w) cx)
    (next_ptr w) (dns_pending w) (dns_cancelled w) (next_req w) (parent_pid w)
    (watcher w) (loop w) (log w)).
Proof.
  intros Hx Hpp Hnp. cbn [delete_conn_loop]. unfold unlink_heap, unlink_conns.
  munfold. mcbn. rewrite Hx. rewrite decide_True; [|done].
  destruct (prev cx) as [pp|] eqn:Ep.
  - destruct (Hpp pp eq_refl) as [pc Hpc]. rewrite Hpc. mcbn. rewrite Hpc.
    destruct (next cx) as [np|] eqn:En.
    + destruct (<[pp:=_]> (heap w) !! np) as [nc|] eqn:Enc.
      * mcbn. rewrite Enc. mcbn. rewrite Enc. reflexivity.
      * exfalso. destruct (Hnp np eq_refl) as [nc Hnc].
        destruct (decide (pp = np)); simplify_map_eq.
    + mcbn. reflexivity.
  - destruct (next cx) as [np|] eqn:En.
    + destruct (Hnp np eq_refl) as [nc Hnc]. mcbn. rewrite Hnc. mcbn. rewrite Hnc. reflexivity.
    + reflexivity.
Qed.

Lemma strip_with_next n c : strip (with_next n c) = strip c.
Proof. by destruct c. Qed.

Lemma strip_with_prev p c : strip (with_prev p c) = strip c.
Proof. by destruct c. Qed.

Lemma unlink_heap_strip h cx y : strip <$> unlink_heap h cx !! y = strip <$> h !! y.
Proof.
  unfold unlink_heap.
  assert (forall (h0 : gmap ptr conn) z f, (forall c, strip (f c) = strip c) ->
    strip <$> (match h0 !! z with Some c => <[z := f c]> h0 | None => h0 end) !! y
    = strip <$> h0 !! y) as Hg.
  { intros h0 z f Hf. destruct (h0 !! z) as [c|] eqn:E; [|done].
    destruct (decide (z = y)) as [->|]; simplify_map_eq; [by rewrite Hf|done]. }
  destruct (prev cx) as [pp|], (next cx) as [np|];
    rewrite ?Hg; try apply Hg; auto using strip_with_next, strip_with_prev.
Qed.

Lemma delete_conn_spec w L1 x L2 cx :
  registry w (L1 ++ x :: L2) -> heap w !! x = Some cx ->
  (forall r, resolver_req cx = Some r ->
     (r, x) ∈ dns_pending w /\ NoDup (map fst (dns_pending w))) ->
  exists w', delete_conn x w = Some (tt, w') /\ registry w' (L1 ++ L2) /\ deleted x cx w w'.
Proof.
  intros Hreg Hx Hr. pose proof (registry_size _ _ Hreg) as Hsz.
  destruct Hreg as ((p' & Hseg) & Hnd & Hdom).
  pose proof Hnd as Hnd0.
  apply NoDup_app in Hnd as (Hnd1 & Hdisj & Hnd2).
  apply NoDup_cons in Hnd2 as [HxL2 Hnd2].
  assert (HxL1 : x ∉ L1) by (intros H; apply (Hdisj x H); left).
  apply seg_split in Hseg as (a1 & p1 & Hs1 & Hs2).
  apply seg_cons_inv in Hs2 as (-> & cx' & Hx' & Hp1 & Hs2).
  rewrite Hx in Hx'. injection Hx' as <-.
  assert (Hcomp : forall w1, w1 = mkWorld (unlink_heap (heap w) cx)
      (unlink_conns (connections w) cx) (next_ptr w) (dns_pending w)
      (dns_cancelled w) (next_req w) (parent_pid w) (watcher w) (loop w) (log w) ->
      (forall pp, prev cx = Some pp -> is_Some (heap w !! pp)) ->
      (forall np, next cx = Some np -> is_Some (heap w !! np)) ->
      delete_conn x w = free_conn x w1).
  { intros w1 -> Hpp Hnp. cbv [delete_conn mbind M_bind get].
    rewrite Hsz, length_app. simpl length.
    replace (S (length L1 + S (length L2))) with (length L1 + S (S (length L2)))%nat by lia.
    rewrite (delete_walk _ _ _ _ _ _ Hs1 w _ x eq_refl HxL1).
    by apply delete_at. }
  assert (Hfin : (forall pp, prev cx = Some pp -> is_Some (heap w !! pp) /\ pp <> x) ->
      (forall np, next cx = Some np -> is_Some (heap w !! np) /\ np <> x) ->
      (exists p'', seg (delete x (unlink_heap (heap w) cx))
                     (unlink_conns (connections w) cx) None (L1 ++ L2) None p'') ->
      exists w', delete_conn x w = Some (tt, w') /\ registry w' (L1 ++ L2)
                 /\ deleted x cx w w').
  { intros Hpp Hnp Hs.
    assert (Hx1 : unlink_heap (heap w) cx !! x = Some cx).
    { unfold unlink_heap.
      destruct (prev cx) as [pp|] eqn:Ep; [destruct (Hpp pp eq_refl) as [[pc Hpc] Hne]; rewrite Hpc|];
        (destruct (next cx) as [np|] eqn:En; [destruct (Hnp np eq_refl) as [_ Hne']|]);
        repeat case_match; simplify_map_eq; done. }
    eexists. split.
    { rewrite (Hcomp _ eq_refl).
      - apply free_conn_spec; [exact Hx1|exact Hr].
      - intros pp Hp. by apply Hpp.
      - intros np Hn. by apply Hnp. }
    split; [split; [|split]|].
    - exact Hs.
    - apply NoDup_app. split; [done|]. split; [|done].
      intros y Hy1 Hy2. apply (Hdisj y Hy1). by right.
    - intros y. cbn [heap]. destruct (decide (y = x)) as [->|Hyx].
      + rewrite lookup_delete_eq. split; [by intros [? ?]|].
        intros Hy. apply elem_of_app in Hy as [Hy|Hy]; contradiction.
      + rewrite lookup_delete_ne by congruence.
        rewrite <- (fmap_is_Some strip), unlink_heap_strip, fmap_is_Some, Hdom.
        rewrite !elem_of_app, elem_of_cons. intuition.
    - split; [apply lookup_delete_eq|]. split.
      + intros y Hy. cbn [heap]. rewrite lookup_delete_ne by congruence.
        apply unlink_heap_strip.
      + repeat split. }
  apply Hfin; clear Hfin Hcomp.
  - intros pp Hp. rewrite Hp in Hp1. subst p1.
    destruct (decide (L1 = [])) as [->|HL1].
    + by apply seg_nil_inv in Hs1 as [_ ?].
    + destruct (exists_last HL1) as (L1' & z & ->).
      apply seg_snoc_inv in Hs1 as (Hz & a1' & p1' & cp & _ & _ & Hcp & _).
      injection Hz as ->. split; [by eexists|].
      intros ->. apply HxL1, elem_of_app. right. by left.
  - intros np Hn. rewrite Hn in Hs2. 
    destruct L2 as [|z L2']; [by apply seg_nil_inv in Hs2 as [? _]|].
    apply seg_cons_inv in Hs2 as ([= ->] & cn & Hcn & _). split; [by eexists|].
    intros ->. apply HxL2. by left.
  - unfold unlink_heap, unlink_conns.
    destruct (decide (L1 = [])) as [->|HL1].
    + apply seg_nil_inv in Hs1 as [Hc ->]. rewrite Hp1. simpl.
      destruct L2 as [|np L2'].
      * apply seg_nil_inv in Hs2 as [Hn _]. rewrite <- Hn. exists None. constructor.
      * apply seg_cons_inv in Hs2 as (Hn & cn & Hcn & Hpn & Hs2). rewrite Hn, Hcn.
        exists p'. econstructor.
        -- rewrite lookup_delete_ne; [by rewrite lookup_insert_eq|].
           intros ->. apply HxL2. by left.
        -- reflexivity.
        -- apply seg_frame with (h := heap w); [done|].
           intros y Hy. apply NoDup_cons in Hnd2 as [Hnp _].
           rewrite lookup_delete_ne, lookup_insert_ne; [done| |].
           ++ intros ->. by apply Hnp.
           ++ intros ->. apply HxL2. by right.
    + destruct (exists_last HL1) as (L1' & pp & ->).
      apply seg_snoc_inv in Hs1 as (-> & a1' & p1' & cp & Hs1 & -> & Hcp & Hpc & Hnc).
      rewrite Hp1, Hcp.
      apply NoDup_app in Hnd1 as (_ & Hdisj1 & _).
      assert (HppL1' : pp ∉ L1') by (intros H; apply (Hdisj1 pp H); by left).
      assert (Hppx : pp <> x) by (intros ->; apply HxL1, elem_of_app; right; by left).
      assert (HL1'x : forall y, y ∈ L1' -> y <> x /\ y ∉ L2).
      { intros y Hy. pose proof (Hdisj y (proj2 (elem_of_app _ _ _) (or_introl Hy))) as Hy'.
        split; [intros ->; apply Hy'; by left|intros Hy2; apply Hy'; by right]. }
      assert (HppL2 : pp ∉ L2).
      { intros H. apply (Hdisj pp); [apply elem_of_app; right; by left|by right]. }
      destruct L2 as [|np L2'].
      * apply seg_nil_inv in Hs2 as [Hn _]. rewrite <- Hn. exists (Some pp).
        rewrite app_nil_r. eapply seg_app.
        -- apply seg_frame with (h := heap w); [exact Hs1|].
           intros y Hy. destruct (HL1'x y Hy) as [Hyx _].
           rewrite lookup_delete_ne, lookup_insert_ne; [done| |done].
           intros ->. by apply HppL1'.
        -- apply (seg_cons _ pp (with_next None cp)); [|done|constructor].
           rewrite lookup_delete_ne, lookup_insert_eq; done.
      * apply seg_cons_inv in Hs2 as (Hn & cn & Hcn & Hpn & Hs2). rewrite Hn.
        apply NoDup_cons in Hnd2 as [HnpL2' _].
        assert (Hnpx : np <> x) by (intros ->; apply HxL2; by left).
        assert (Hnppp : np <> pp) by (intros ->; apply HppL2; by left).
        rewrite lookup_insert_ne by done. rewrite Hcn.
        exists p'. rewrite <- app_assoc. eapply seg_app.
        -- apply seg_frame with (h := heap w); [exact Hs1|].
           intros y Hy. destruct (HL1'x y Hy) as [Hyx HyL2].
           rewrite lookup_delete_ne, !lookup_insert_ne; [done| | |done].
           ++ intros ->. by apply HppL1'.
           ++ intros ->. apply HyL2. by left.
        -- apply (seg_cons _ pp (with_next (Some np) cp)); [|done|].
           { rewrite lookup_delete_ne, lookup_insert_ne, lookup_insert_eq; done. }
           apply (seg_cons _ np (with_prev (Some pp) cn)).
           { rewrite lookup_delete_ne, lookup_insert_eq; done. }
           { done. }
           apply seg_frame with (h := heap w); [exact Hs2|].
           intros y Hy. rewrite lookup_delete_ne, !lookup_insert_ne; [done| | |].
           ++ intros ->. apply HppL2. by right.
           ++ intros ->. by apply HnpL2'.
           ++ intros ->. apply HxL2. by right.
Qed.

Lemma delete_conn_absent w L x :
  registry w L -> x ∉ L -> delete_conn x w = Some (tt, w).
Proof.
  intros Hreg Hx. pose proof (registry_size _ _ Hreg) as Hsz.
  destruct Hreg as ((p' & Hseg) & _ & _).
  cbv [delete_conn mbind M_bind get]. rewrite Hsz.
  replace (S (length L)) with (length L + 1)%nat by lia.
  by rewrite (delete_walk _ _ _ _ _ _ Hseg w 1 x eq_refl Hx).
Qed.

Lemma close_body fl y c w n :
  heap w !! y = Some c ->
  close_connections_loop (S n) (Some y) fl w =
  close_connections_loop n (next c) fl
    (mkWorld (<[y := close_rec fl c]> (heap w)) (connections w) (next_ptr w)
       (dns_pending w) (dns_cancelled w) (next_req w) (parent_pid w) (watcher w)
       (loop w) (log w ++ close_effs fl y c)).
Proof.
  intros Hy. cbn [close_connections_loop]. unfold close_rec, close_effs, bev_disable_read.
  munfold. mcbn. rewrite Hy. mcbn.
  destruct (remote_bev c) as [rb|] eqn:Er; destruct fl; destruct (local_bev c) as [lb|] eqn:El;
    mcbn; simplify_map_eq; rewrite ?insert_insert_eq, <- ?app_assoc; reflexivity.
Qed.

Lemma close_effs_own fl y c : Forall (fun e => eff_ptr e = y) (close_effs fl y c).
Proof.
  unfold close_effs. destruct (remote_bev c), fl, (local_bev c); repeat constructor.
Qed.

Lemma world_eta w : w = mkWorld (heap w) (connections w) (next_ptr w) (dns_pending w)
  (dns_cancelled w) (next_req w) (parent_pid w) (watcher w) (loop w) (log w).
Proof. by destruct w. Qed.

Lemma close_loop_spec fl L : forall a p p' w n,
  seg (heap w) a p L None p' -> NoDup L -> (length L < n)%nat ->
  exists es h', close_connections_loop n a fl w =
    Some (tt, mkWorld h' (connections w) (next_ptr w) (dns_pending w)
                (dns_cancelled w) (next_req w) (parent_pid w) (watcher w)
                (loop w) (log w ++ es))
  /\ (forall y, h' !! y = if bool_decide (y ∈ L) then close_rec fl <$> heap w !! y
                         else heap w !! y)
  /\ (forall y, trace y es = if bool_decide (y ∈ L)
        then match heap w !! y with Some c => close_effs fl y c | None => [] end
        else []).
Proof.
  induction L as [|y L IH]; intros a p p' w n Hs Hnd Hn.
  - apply seg_nil_inv in Hs as [<- _]. exists [], (heap w). split; [|split].
    + rewrite app_nil_r, <- world_eta. by destruct n.
    + intros z. by rewrite bool_decide_false by (apply not_elem_of_nil).
    + intros z. by rewrite bool_decide_false by (apply not_elem_of_nil).
  - apply seg_cons_inv in Hs as (-> & c & Hc & _ & Hs).
    apply NoDup_cons in Hnd as [HyL Hnd].
    destruct n as [|n]; [simpl in Hn; lia|].
    rewrite (close_body fl y c w n Hc).
    match goal with |- context [close_connections_loop n (next c) fl ?w1] =>
      edestruct (IH (next c) (Some y) p' w1 n) as (es & h' & Hrun & Hh & Ht) end;
      [|exact Hnd|simpl in Hn; exact (proj2 (Nat.succ_lt_mono _ _) Hn)|].
    { apply seg_frame with (h := heap w); [exact Hs|].
      intros z Hz. cbn [heap]. rewrite lookup_insert_ne; [done|]. intros ->. contradiction. }
    exists (close_effs fl y c ++ es), h'. split; [|split].
    + rewrite Hrun. cbn [connections next_ptr dns_pending dns_cancelled next_req parent_pid
        watcher loop log]. by rewrite app_assoc.
    + intros z. rewrite Hh. cbn [heap].
      destruct (decide (z = y)) as [->|Hzy].
      * rewrite bool_decide_false by done. rewrite bool_decide_true by (by left).
        by rewrite lookup_insert_eq, Hc.
      * rewrite lookup_insert_ne by congruence.
        assert (Hiff : z ∈ y :: L <-> z ∈ L) by (rewrite elem_of_cons; intuition).
        by rewrite (bool_decide_ext _ _ Hiff).
    + intros z. rewrite trace_app, Ht. cbn [heap].
      destruct (decide (z = y)) as [->|Hzy].
      * rewrite trace_own by apply close_effs_own.
        rewrite (bool_decide_false (y ∈ L)) by done. rewrite bool_decide_true by (by left).
        by rewrite Hc, app_nil_r.
      * rewrite (trace_other y z) by (apply close_effs_own || done).
        rewrite lookup_insert_ne by congruence. simpl.
        assert (Hiff : z ∈ y :: L <-> z ∈ L) by (rewrite elem_of_cons; intuition).
        by rewrite (bool_decide_ext _ _ Hiff).
Qed.

Lemma seg_relink h a p L a' p' x c c' :
  seg h a p L a' p' -> h !! x = Some c -> next c' = next c -> prev c' = prev c ->
  seg (<[x := c']> h) a p L a' p'.
Proof.
  induction 1 as [|y cy p L a' p' Hy Hp Hs IH]; intros Hx Hn Hpr; [constructor|].
  destruct (decide (y = x)) as [->|Hyx].
  - rewrite Hx in Hy. injection Hy as <-.
    apply (seg_cons _ x c'); [by rewrite lookup_insert_eq|congruence|]. rewrite Hn. auto.
  - apply (seg_cons _ y cy); [by rewrite lookup_insert_ne|done|auto].
Qed.

Lemma pend_of_app y l1 l2 : pend_of y (l1 ++ l2) = pend_of y l1 ++ pend_of y l2.
Proof. apply filter_app. Qed.

Lemma trace_app_other x y l es :
  Forall (fun e => eff_ptr e = x) es -> y <> x -> trace y (l ++ es) = trace y l.
Proof. intros. rewrite trace_app, (trace_other x y es); [apply app_nil_r|done|done]. Qed.

Lemma trace_app_own x l es :
  Forall (fun e => eff_ptr e = x) es -> trace x (l ++ es) = trace x l ++ es.
Proof. intros H. by rewrite trace_app, (trace_own x es H). Qed.

Lemma inv_live_fresh w y c : inv w -> heap w !! y = Some c -> (y < next_ptr w)%positive.
Proof.
  intros Hinv Hy. destruct (decide (y < next_ptr w)%positive) as [|Hge]; [done|]. assert (Hge' : (next_ptr w <= y)%positive) by lia.
  destruct (inv_fresh _ _ Hinv y Hge') as [Hn _]. congruence.
Qed.

(** Updating the record of the live connection [x] in place, with effects on
    [x] only. *)
Lemma inv_update ex w x c c' es pend' canc' nreq' lp' :
  inv w -> heap w !! x = Some c -> ex = None \/ ex = Some x ->
  next c' = next c -> prev c' = prev c ->
  Forall (fun e => eff_ptr e = x) es ->
  (forall y, y <> x -> pend_of y pend' = pend_of y (dns_pending w)
                       /\ pend_of y canc' = pend_of y (dns_cancelled w)) ->
  NoDup (map fst (pend' ++ canc')) ->
  (forall q, q ∈ pend' ++ canc' -> (q.1 < nreq')%positive) ->
  (if bool_decide (ex = Some x) then
      valid_states (states (trace x (log w) ++ es)) = true
      /\ local_ok (trace x (log w) ++ es)
      /\ pend_of x pend' = pend_req x c'
      /\ pend_of x canc' = []
   else conn_ok x c' (trace x (log w) ++ es) (pend_of x pend') (pend_of x canc')) ->
  (lp' = Loop_running -> loop w = Loop_running) ->
  (lp' = Loop_running -> C_SHUTTINGDOWN ∈ states (trace x (log w) ++ es) ->
     ex = Some x /\ sd_last (states (trace x (log w) ++ es))) ->
  inv_gen ex (mkWorld (<[x := c']> (heap w)) (connections w) (next_ptr w) pend' canc' nreq'
                (parent_pid w) (watcher w) lp' (log w ++ es)).
Proof.
  intros Hinv Hx Hex Hn Hp Hes Hdns Hnd Hfr Hxok Hlp Hsd.
  pose proof (inv_live_fresh _ _ _ Hinv Hx) as Hxf.
  split; cbn [heap connections next_ptr dns_pending dns_cancelled next_req loop log].
  - destruct (inv_registry _ _ Hinv) as (L & (p' & Hs) & Hnd' & Hdom).
    exists L. split; [|split]; [|done|].
    + exists p'. cbn [heap connections]. by eapply seg_relink.
    + intros y. cbn [heap]. rewrite <- Hdom. destruct (decide (y = x)) as [->|Hyx].
      * rewrite lookup_insert_eq, Hx. split; intros; by eexists.
      * by rewrite lookup_insert_ne.
  - intros y Hy. assert (y <> x) by (intros ->; lia).
    destruct (inv_fresh _ _ Hinv y Hy) as (H1 & H2 & H3 & H4).
    rewrite lookup_insert_ne by done. rewrite trace_app_other with (x := x) by done.
    destruct (Hdns y ltac:(done)) as [-> ->]. done.
  - done.
  - done.
  - intros y cy Hy. destruct (decide (y = x)) as [->|Hyx].
    + rewrite lookup_insert_eq in Hy. injection Hy as <-.
      rewrite trace_app_own by done. exact Hxok.
    + rewrite lookup_insert_ne in Hy by done.
      pose proof (inv_live _ _ Hinv y cy Hy) as Hok. simpl in Hok.
      rewrite bool_decide_false by (destruct Hex as [->| ->]; congruence).
      rewrite trace_app_other with (x := x) by done.
      destruct (Hdns y Hyx) as [-> ->]. exact Hok.
  - intros y Hy. destruct (decide (y = x)) as [->|Hyx]; [by rewrite lookup_insert_eq in Hy|].
    rewrite lookup_insert_ne in Hy by done.
    rewrite trace_app_other with (x := x) by done.
    destruct (Hdns y Hyx) as [-> _]. by apply (inv_dead _ _ Hinv).
  - intros Hr y Hy. destruct (decide (y = x)) as [->|Hyx].
    + rewrite trace_app_own in * by done. destruct (Hsd Hr Hy) as [-> ?]. auto.
    + rewrite trace_app_other with (x := x) in * by done.
      destruct (inv_running _ _ Hinv (Hlp Hr) y Hy) as [[Hd|Hd] Hl]; [|done].
      rewrite lookup_insert_ne by done. auto.
Qed.

Lemma in_map_fst_filter {A B} (P : A * B -> Prop) `{forall q, Decision (P q)} l a :
  In a (map fst (filter P l)) -> In a (map fst l).
Proof.
  intros Hin. apply in_map_iff in Hin as (q & <- & Hq).
  apply in_map. apply list_elem_of_In in Hq. apply list_elem_of_In.
  by apply list_elem_of_filter in Hq as [_ Hq].
Qed.

Lemma nodup_map_fst_filter {A B} (P : A * B -> Prop) `{forall q, Decision (P q)} l :
  NoDup (map fst l) -> NoDup (map fst (filter P l)).
Proof.
  induction l as [|q l IH]; intros Hnd; [constructor|].
  simpl in Hnd. apply NoDup_cons in Hnd as [Hq Hnd].
  rewrite filter_cons. destruct (decide (P q)); [|auto].
  simpl. constructor; [|auto]. intros Hin. apply Hq. apply list_elem_of_In.
  apply list_elem_of_In in Hin. by eapply in_map_fst_filter.
Qed.

Lemma req_unique (P : list (reqid * ptr)) r x q :
  NoDup (map fst P) -> (r, x) ∈ P -> q ∈ P -> q.1 = r -> q = (r, x).
Proof.
  intros Hnd Hrx Hq Hr. destruct q as [r' x']. simpl in Hr. subst r'.
  f_equal. by eapply (nodup_fst_unique P r).
Qed.

Lemma nodup_req_move (P C : list (reqid * ptr)) r x :
  NoDup (map fst (P ++ C)) -> (r, x) ∈ P ->
  NoDup (map fst (filter (fun q => q.1 <> r) P ++ C ++ [(r, x)])).
Proof.
  intros Hnd Hrx. rewrite map_app in Hnd. rewrite !map_app.
  apply NoDup_app in Hnd as (HP & Hd & HC).
  assert (HrC : r ∉ map fst C).
  { apply Hd. apply list_elem_of_In, in_map_iff. exists (r, x). split; [done|].
    by apply list_elem_of_In. }
  apply NoDup_app. split; [by apply nodup_map_fst_filter|]. split.
  - intros a Ha. apply list_elem_of_In, in_map_iff in Ha as (q & <- & Hq).
    apply list_elem_of_In, list_elem_of_filter in Hq as [Hqr Hq].
    simpl. intros Hin. apply elem_of_app in Hin as [Hin|Hin].
    + apply (Hd q.1); [|done]. apply list_elem_of_In, in_map. by apply list_elem_of_In.
    + apply list_elem_of_singleton in Hin. contradiction.
  - simpl. apply NoDup_app. split; [done|]. split.
    + intros a Ha Hin. apply list_elem_of_singleton in Hin. subst. contradiction.
    + apply NoDup_singleton.
Qed.

Lemma pend_of_filter_other (P : list (reqid * ptr)) r x y :
  NoDup (map fst P) -> (r, x) ∈ P -> y <> x ->
  pend_of y (filter (fun q => q.1 <> r) P) = pend_of y P.
Proof.
  intros Hnd Hrx Hy.
  assert (Hall : forall q, q ∈ P -> q.1 = r -> q.2 = x).
  { intros q Hq Hr. by rewrite (req_unique P r x q). }
  clear Hnd Hrx. unfold pend_of. induction P as [|q P IH]; [done|].
  rewrite filter_cons. destruct (decide (q.1 <> r)) as [Hqr|Hqr].
  - rewrite !filter_cons. destruct (decide (q.2 = y)); [f_equal|]; apply IH;
      intros; apply Hall; [by right|done|by right|done].
  - rewrite (filter_cons_False (fun q => q.2 = y)).
    + apply IH. intros. apply Hall; [by right|done].
    + rewrite (Hall q); [done|by left|]. destruct (decide (q.1 = r)); [done|contradiction].
Qed.

Lemma free_effs_own x c : Forall (fun e => eff_ptr e = x) (free_effs x c).
Proof.
  unfold free_effs. destruct (local_bev c), (remote_bev c), (resolver_req c); repeat constructor.
Qed.

Lemma free_effs_quiet x c :
  states (free_effs x c) = [] /\ local_out (free_effs x c) = [] /\ local_sends (free_effs x c) = [].
Proof. unfold free_effs. by destruct (local_bev c), (remote_bev c), (resolver_req c). Qed.

Lemma conn_ok_strip y c c' tr p q :
  strip c = strip c' -> conn_ok y c tr p q -> conn_ok y c' tr p q.
Proof.
  destruct c, c'. unfold strip, with_next, with_prev. simpl. intros Heq Hok. injection Heq.
  intros; subst. exact Hok.
Qed.

Lemma strip_lookup_some (h h' : gmap ptr conn) y c :
  strip <$> h' !! y = strip <$> h !! y -> h' !! y = Some c ->
  exists c0, h !! y = Some c0 /\ strip c = strip c0.
Proof.
  intros Hs Hy. rewrite Hy in Hs. destruct (h !! y) as [c0|] eqn:E; [|done].
  exists c0. split; [done|]. simpl in Hs. congruence.
Qed.

Lemma strip_lookup_none (h h' : gmap ptr conn) y :
  strip <$> h' !! y = strip <$> h !! y -> h' !! y = None <-> h !! y = None.
Proof.
  intros Hs. destruct (h' !! y), (h !! y); simpl in Hs; split; congruence.
Qed.

Lemma inv_nodup_pending w ex : inv_gen ex w -> NoDup (map fst (dns_pending w)).
Proof.
  intros Hinv. pose proof (inv_req_nodup _ _ Hinv) as H. rewrite map_app in H.
  by apply NoDup_app in H as (? & _ & _).
Qed.

(** Tearing down the connection [x] exempted from the invariant restores it. *)
Lemma delete_inv w x c :
  inv_gen (Some x) w -> heap w !! x = Some c ->
  exists w', delete_conn x w = Some (tt, w') /\ inv w' /\ deleted x c w w'.
Proof.
  intros Hinv Hx.
  destruct (inv_registry _ _ Hinv) as (L & Hreg).
  assert (HxL : x ∈ L) by (apply (proj2 (proj2 Hreg)); by eexists).
  apply list_elem_of_split in HxL as (L1 & L2 & ->).
  pose proof (inv_live _ _ Hinv x c Hx) as Hxok.
  rewrite bool_decide_true in Hxok by done. destruct Hxok as (Hv & Hl & Hpx & Hcx).
  pose proof (inv_nodup_pending _ _ Hinv) as HndP.
  assert (Hr : forall r, resolver_req c = Some r ->
     (r, x) ∈ dns_pending w /\ NoDup (map fst (dns_pending w))).
  { intros r Hr. split; [|done]. unfold pend_req in Hpx. rewrite Hr in Hpx.
    assert (Hin : (r, x) ∈ pend_of x (dns_pending w)) by (rewrite Hpx; by left).
    by apply list_elem_of_filter in Hin as [_ ?]. }
  destruct (delete_conn_spec _ _ _ _ _ Hreg Hx Hr) as (w' & Hrun & Hreg' & Hdel).
  exists w'. split; [done|]. split; [|done].
  destruct Hdel as (Hx' & Hstrip & Hnp & Hpend & Hcanc & Hnr & Hpp & Hwt & Hlp & Hlog).
  assert (Hxf : (x < next_ptr w)%positive).
  { destruct (decide (x < next_ptr w)%positive) as [|Hge]; [done|].
    destruct (inv_fresh _ _ Hinv x ltac:(lia)) as [Hn _]. congruence. }
  destruct (free_effs_quiet x c) as (Hfs & Hfo & Hfl).
  assert (Htr : forall y, y <> x -> trace y (log w') = trace y (log w)).
  { intros y Hy. rewrite Hlog. apply (trace_app_other x); [apply free_effs_own|done]. }
  assert (Htx : trace x (log w') = trace x (log w) ++ free_effs x c).
  { rewrite Hlog. apply trace_app_own, free_effs_own. }
  assert (HpendO : forall y, y <> x -> pend_of y (dns_pending w') = pend_of y (dns_pending w)
                              /\ pend_of y (dns_cancelled w') = pend_of y (dns_cancelled w)).
  { intros y Hy. rewrite Hpend, Hcanc, pend_of_app. unfold pend_after, pend_req.
    destruct (resolver_req c) as [r|] eqn:Er.
    - destruct (Hr r eq_refl) as [Hin _]. rewrite pend_of_filter_other with (x := x) by done.
      assert (pend_of y [(r, x)] = []) as -> by
        (unfold pend_of; rewrite filter_cons_False; [done|simpl; congruence]).
      by rewrite app_nil_r.
    - by rewrite app_nil_r. }
  assert (HsubP : forall q, q ∈ dns_pending w' -> q ∈ dns_pending w).
  { intros q Hq. rewrite Hpend in Hq. unfold pend_after in Hq.
    destruct (resolver_req c); [by apply list_elem_of_filter in Hq as [_ ?]|done]. }
  assert (HsubC : forall q, q ∈ dns_cancelled w' -> q ∈ dns_pending w ++ dns_cancelled w).
  { intros q Hq. rewrite Hcanc in Hq. apply elem_of_app in Hq as [Hq|Hq].
    - apply elem_of_app. by right.
    - unfold pend_req in Hq. destruct (resolver_req c) as [r|] eqn:Er; [|by apply elem_of_nil in Hq].
      apply list_elem_of_singleton in Hq as ->. apply elem_of_app. left. by apply Hr. }
  split.
  - by exists (L1 ++ L2).
  - intros y Hy. rewrite Hnp in Hy. assert (Hyx : y <> x) by (intros ->; lia).
    destruct (inv_fresh _ _ Hinv y Hy) as (H1 & H2 & H3 & H4).
    destruct (HpendO y Hyx) as [-> ->]. rewrite Htr by done.
    split; [|done]. by apply (strip_lookup_none _ _ y (Hstrip y Hyx)).
  - rewrite Hpend, Hcanc. unfold pend_after, pend_req.
    destruct (resolver_req c) as [r|] eqn:Er.
    + destruct (Hr r eq_refl) as [Hin _]. apply nodup_req_move; [|done].
      apply (inv_req_nodup _ _ Hinv).
    + rewrite app_nil_r. apply (inv_req_nodup _ _ Hinv).
  - intros q Hq. rewrite Hnr. apply (inv_req_fresh _ _ Hinv).
    apply elem_of_app in Hq as [Hq|Hq]; [apply elem_of_app; left; by apply HsubP|by apply HsubC].
  - intros y cy Hy. rewrite bool_decide_false by done.
    assert (Hyx : y <> x) by congruence.
    destruct (strip_lookup_some _ _ _ _ (Hstrip y Hyx) Hy) as (cy0 & Hy0 & Hs).
    pose proof (inv_live _ _ Hinv y cy0 Hy0) as Hok.
    rewrite bool_decide_false in Hok by congruence.
    rewrite Htr by done. destruct (HpendO y Hyx) as [-> ->].
    apply (conn_ok_strip _ cy0); [done|exact Hok].
  - intros y Hy. destruct (decide (y = x)) as [->|Hyx].
    + rewrite Htx. split; [|split].
      * rewrite Hpend. unfold pend_after. unfold pend_req in Hpx.
        destruct (resolver_req c) as [r|] eqn:Er; [|done].
        unfold pend_of in *. rewrite list_filter_filter.
        rewrite (list_filter_iff _ (fun q => q.1 <> r /\ q.2 = x)) by tauto.
        rewrite <- list_filter_filter, Hpx. rewrite filter_cons_False; [done|simpl; tauto].
      * by rewrite states_app, Hfs, app_nil_r.
      * unfold local_ok. by rewrite states_app, local_out_app, local_sends_app, Hfs, Hfo, Hfl, !app_nil_r.
    + rewrite Htr by done. destruct (HpendO y Hyx) as [-> _].
      apply (inv_dead _ _ Hinv). by apply (strip_lookup_none _ _ y (Hstrip y Hyx)).
  - intros Hrun' y Hy. rewrite Hlp in Hrun'.
    assert (Hst : states (trace y (log w')) = states (trace y (log w))).
    { destruct (decide (y = x)) as [->|Hyx]; [by rewrite Htx, states_app, Hfs, app_nil_r|by rewrite Htr]. }
    rewrite Hst in *. destruct (inv_running _ _ Hinv Hrun' y Hy) as [Hd Hsl]. split; [|done].
    left. destruct (decide (y = x)) as [->|Hyx]; [done|].
    destruct Hd as [Hd|Hd]; [|congruence]. by apply (strip_lookup_none _ _ y (Hstrip y Hyx)).
Qed.

Lemma close_effs_quiet fl y c :
  states (close_effs fl y c) = [C_SHUTTINGDOWN] /\ local_out (close_effs fl y c) = []
  /\ local_sends (close_effs fl y c) = []
  /\ Forall (fun e => no_lookup_effect e = true) (close_effs fl y c).
Proof.
  unfold close_effs. destruct (remote_bev c), fl, (local_bev c); simpl; repeat split; repeat constructor.
Qed.

Lemma no_lookup_no_local e : no_lookup_effect e = true -> no_local_effect e = true.
Proof. by destruct e. Qed.

Lemma shape_close y ph c tr p fl :
  shape y ph c tr p -> shape y ph (close_rec fl c) (tr ++ close_effs fl y c) p.
Proof.
  destruct (close_effs_quiet fl y c) as (_ & _ & Hls & Hnl).
  assert (Hnl' : Forall (fun e => no_local_effect e = true) (close_effs fl y c)).
  { eapply Forall_impl; [exact Hnl|]. intros e. apply no_lookup_no_local. }
  unfold close_rec, pend_req. destruct ph; simpl; intros Hs.
  - destruct Hs as ((b & -> & ? & ? & ?) & -> & ? & ? & ? & ? & Hf).
    split; [eexists; split; [done|]; simpl; auto|]. destruct fl; simpl;
      repeat split; auto; apply Forall_app; auto.
  - destruct Hs as ((b & -> & ? & ? & ?) & -> & ? & ? & ? & Hf & ?).
    split; [eexists; split; [done|]; simpl; auto|]. destruct fl; simpl;
      repeat split; auto; apply Forall_app; auto.
  - destruct Hs as ((b & -> & ? & ? & ?) & (lb & -> & ? & ? & ?) & ? & ? & ? & ?).
    split; [eexists; split; [done|]; simpl; auto|].
    split; [destruct fl; eexists; split; [done| |done| ]; simpl; auto|]. auto.
  - destruct Hs as ((b & -> & ? & ? & ?) & (lb & -> & ? & ? & ?) & ? & ? & (host & ip & ? & ? & Hsn) & ?).
    split; [eexists; split; [done|]; simpl; auto|].
    split; [destruct fl; eexists; split; [done| |done| ]; simpl; auto|].
    repeat split; auto. exists host, ip. repeat split; auto.
    by rewrite local_sends_app, Hls, app_nil_r.
  - done.
Qed.

Lemma conn_ok_close y c tr p q fl :
  conn_ok y c tr p q -> conn_ok y (close_rec fl c) (tr ++ close_effs fl y c) p q.
Proof.
  intros (Hl & Hv & Hs & Hq & Hlo).
  destruct (close_effs_quiet fl y c) as (Hst & Hlout & Hls & _).
  assert (Hne : states tr <> []) by (intros E; rewrite E in Hl; discriminate).
  unfold conn_ok. rewrite states_app, Hst. split; [|split; [|split; [|split]]].
  - apply last_snoc.
  - rewrite valid_states_snoc by done. by rewrite Hv.
  - rewrite phase_of_snoc. simpl. by apply shape_close.
  - done.
  - destruct Hlo as [Hlo1 Hlo2]. unfold local_ok.
    rewrite states_app, Hst, local_out_app, local_sends_app, Hlout, Hls, !app_nil_r.
    assert (Hiff : C_ESTABLISHED ∈ states tr ++ [C_SHUTTINGDOWN] <-> C_ESTABLISHED ∈ states tr).
    { rewrite elem_of_app, list_elem_of_singleton. intuition discriminate. }
    rewrite Hiff. auto.
Qed.

Lemma seg_map h a p L a' p' (f : conn -> conn) :
  (forall c, next (f c) = next c /\ prev (f c) = prev c) ->
  seg h a p L a' p' -> seg (f <$> h) a p L a' p'.
Proof.
  intros Hf. induction 1 as [|x c p L a' p' Hx Hp Hs IH]; [constructor|].
  apply (seg_cons _ x (f c)).
  - by rewrite lookup_fmap, Hx.
  - by rewrite (proj2 (Hf c)).
  - by rewrite (proj1 (Hf c)).
Qed.

Lemma close_connections_spec w fl :
  inv w ->
  exists es, close_connections fl w =
    Some (tt, mkWorld (close_rec fl <$> heap w) (connections w) (next_ptr w) (dns_pending w)
                (dns_cancelled w) (next_req w) (parent_pid w) (watcher w) (loop w) (log w ++ es))
  /\ forall y, trace y es = match heap w !! y with Some c => close_effs fl y c | None => [] end.
Proof.
  intros Hinv. destruct (inv_registry _ _ Hinv) as (L & Hreg).
  pose proof (registry_size _ _ Hreg) as Hsz.
  destruct Hreg as ((p' & Hs) & Hnd & Hdom).
  destruct (close_loop_spec fl L _ _ _ w (S (size (heap w))) Hs Hnd ltac:(lia))
    as (es & h' & Hrun & Hh & Ht).
  assert (Hh' : h' = close_rec fl <$> heap w).
  { apply map_eq. intros y. rewrite Hh, lookup_fmap.
    case_bool_decide as Hy; [done|]. destruct (heap w !! y) eqn:E; [|done].
    exfalso. apply Hy, Hdom. by eexists. }
  exists es. split.
  - cbv [close_connections mbind M_bind get]. rewrite Hrun. by rewrite Hh'.
  - intros y. rewrite Ht. case_bool_decide as Hy; [done|].
    destruct (heap w !! y) eqn:E; [|done]. exfalso. apply Hy, Hdom. by eexists.
Qed.

Lemma close_inv w fl es lp :
  inv w -> lp <> Loop_running ->
  (forall y, trace y es = match heap w !! y with Some c => close_effs fl y c | None => [] end) ->
  inv (mkWorld (close_rec fl <$> heap w) (connections w) (next_ptr w) (dns_pending w)
         (dns_cancelled w) (next_req w) (parent_pid w) (watcher w) lp (log w ++ es)).
Proof.
  intros Hinv Hlp Ht. split; cbn [heap connections next_ptr dns_pending dns_cancelled next_req loop log].
  - destruct (inv_registry _ _ Hinv) as (L & (p' & Hs) & Hnd & Hdom).
    exists L. split; [|split]; [|done|].
    + exists p'. cbn [heap connections]. apply seg_map; [by intros []|done].
    + intros y. cbn [heap]. rewrite lookup_fmap, fmap_is_Some. apply Hdom.
  - intros y Hy. destruct (inv_fresh _ _ Hinv y Hy) as (H1 & H2 & H3 & H4).
    rewrite lookup_fmap, H1, trace_app, Ht, H1, H2. done.
  - apply (inv_req_nodup _ _ Hinv).
  - apply (inv_req_fresh _ _ Hinv).
  - intros y c' Hy. rewrite lookup_fmap in Hy.
    destruct (heap w !! y) as [c|] eqn:E; [|done]. injection Hy as <-.
    pose proof (inv_live _ _ Hinv y c E) as Hok. simpl in Hok |- *.
    rewrite trace_app, Ht, E. by apply conn_ok_close.
  - intros y Hy. rewrite lookup_fmap in Hy.
    destruct (heap w !! y) as [c|] eqn:E; [done|].
    rewrite trace_app, Ht, E, app_nil_r. by apply (inv_dead _ _ Hinv).
  - intros Hr. contradiction.
Qed.

(** A fresh record [c] at [next_ptr w], linked at the head of the list. *)
Lemma inv_alloc ex w c es lp :
  inv w -> ex = None \/ ex = Some (next_ptr w) ->
  next c = connections w -> prev c = None ->
  Forall (fun e => eff_ptr e = next_ptr w) es ->
  C_SHUTTINGDOWN ∉ states es ->
  (lp = Loop_running -> loop w = Loop_running) ->
  (if bool_decide (ex = Some (next_ptr w)) then
      valid_states (states es) = true /\ local_ok es /\ pend_req (next_ptr w) c = []
   else conn_ok (next_ptr w) c es [] []) ->
  inv_gen ex (mkWorld (<[next_ptr w := c]> (link_heap (heap w) (connections w) (next_ptr w)))
                (Some (next_ptr w)) (next_ptr w + 1)%positive (dns_pending w) (dns_cancelled w)
                (next_req w) (parent_pid w) (watcher w) lp (log w ++ es)).
Proof.
  intros Hinv Hex Hn Hp Hes Hsd Hlp Hxok. set (x := next_ptr w) in *.
  destruct (inv_fresh _ _ Hinv x ltac:(unfold x; lia)) as (Hx0 & Htx0 & Hpx0 & Hcx0).
  destruct (inv_registry _ _ Hinv) as (L & (p' & Hs) & Hnd & Hdom).
  assert (HxL : x ∉ L) by (intros H; apply Hdom in H; rewrite Hx0 in H; by destruct H).
  assert (Hlk : forall y, y <> x -> strip <$> link_heap (heap w) (connections w) x !! y
                                  = strip <$> heap w !! y).
  { intros y Hy. unfold link_heap. destruct (connections w) as [hd|]; [|done].
    destruct (heap w !! hd) as [hc|] eqn:E; [|done].
    destruct (decide (hd = y)) as [->|]; simplify_map_eq; [|done]. by rewrite strip_with_prev. }
  assert (Hlkx : link_heap (heap w) (connections w) x !! x = None).
  { unfold link_heap. destruct (connections w) as [hd|]; [|done].
    destruct (heap w !! hd) as [hc|] eqn:E; [|done].
    rewrite lookup_insert_ne; [done|]. intros ->. congruence. }
  assert (Htr : forall y, y <> x -> trace y (log w ++ es) = trace y (log w)).
  { intros y Hy. by apply (trace_app_other x). }
  split; cbn [heap connections next_ptr dns_pending dns_cancelled next_req loop log].
  - exists (x :: L). split; [|split].
    + cbn [heap connections]. unfold link_heap.
      destruct (connections w) as [hd|] eqn:Ec.
      * exists p'. apply (seg_cons _ x c); [by rewrite lookup_insert_eq|done|]. rewrite Hn.
        destruct L as [|hd' L']; [apply seg_nil_inv in Hs as [? _]; discriminate|].
        apply seg_cons_inv in Hs as ([= <-] & hc & Hhc & Hhp & Hs). rewrite Hhc.
        apply (seg_cons _ hd (with_prev (Some x) hc)).
        -- rewrite lookup_insert_ne, lookup_insert_eq; [done|]. intros ->. congruence.
        -- done.
        -- apply seg_frame with (h := heap w); [exact Hs|]. intros y Hy.
           apply NoDup_cons in Hnd as [Hhd _].
           rewrite !lookup_insert_ne; [done| |]; intros ->; [done|]. by apply HxL; right.
      * apply seg_end_none in Hs; [subst|done]. exists (Some x).
        apply (seg_cons _ x c); [by rewrite lookup_insert_eq|done|]. rewrite Hn. constructor.
    + constructor; [done|]. done.
    + intros y. cbn [heap]. destruct (decide (y = x)) as [->|Hyx].
      * rewrite lookup_insert_eq. split; [by left|by eexists].
      * rewrite lookup_insert_ne by congruence. rewrite elem_of_cons.
        rewrite <- (fmap_is_Some strip), Hlk, fmap_is_Some, Hdom by done. intuition.
  - intros y Hy. assert (Hyx : y <> x) by (intros ->; lia).
    destruct (inv_fresh _ _ Hinv y ltac:(lia)) as (H1 & H2 & H3 & H4).
    rewrite lookup_insert_ne by congruence. rewrite Htr by done.
    split; [|done]. apply (fmap_None strip). rewrite Hlk by done. by rewrite H1.
  - apply (inv_req_nodup _ _ Hinv).
  - apply (inv_req_fresh _ _ Hinv).
  - intros y cy Hy. destruct (decide (y = x)) as [->|Hyx].
    + rewrite lookup_insert_eq in Hy. injection Hy as <-.
      rewrite trace_app, Htx0, Hpx0, Hcx0. simpl. rewrite (trace_own _ _ Hes).
      case_bool_decide as Hb.
      * destruct Hxok as (? & ? & ?). auto.
      * done.
    + rewrite lookup_insert_ne in Hy by congruence.
      destruct (strip_lookup_some _ _ _ _ (Hlk y Hyx) Hy) as (cy0 & Hy0 & Hs0).
      pose proof (inv_live _ _ Hinv y cy0 Hy0) as Hok. simpl in Hok.
      rewrite bool_decide_false by (destruct Hex as [->| ->]; congruence).
      rewrite Htr by done. apply (conn_ok_strip _ cy0); [done|exact Hok].
  - intros y Hy. destruct (decide (y = x)) as [->|Hyx]; [by rewrite lookup_insert_eq in Hy|].
    rewrite lookup_insert_ne in Hy by congruence. rewrite Htr by done.
    apply (inv_dead _ _ Hinv). by apply (strip_lookup_none _ _ y (Hlk y Hyx)).
  - intros Hr y Hy. destruct (decide (y = x)) as [->|Hyx].
    + rewrite trace_app, Htx0, (trace_own _ _ Hes) in Hy. simpl in Hy. contradiction.
    + rewrite Htr in * by done. destruct (inv_running _ _ Hinv (Hlp Hr) y Hy) as [[Hd|Hd] Hl]; [|done].
      split; [|done]. left. rewrite lookup_insert_ne by congruence.
      by apply (strip_lookup_none _ _ y (Hlk y Hyx)).
Qed.

Lemma conns_live w hd : inv w -> connections w = Some hd ->
  exists hc, heap w !! hd = Some hc /\ hd <> next_ptr w.
Proof.
  intros Hinv Hc. destruct (inv_registry _ _ Hinv) as (L & (p' & Hs) & _ & Hdom).
  rewrite Hc in Hs. destruct L as [|hd' L]; [apply seg_nil_inv in Hs as [? _]; discriminate|].
  apply seg_cons_inv in Hs as ([= <-] & hc & Hhc & _). exists hc. split; [done|].
  intros Heq. destruct (inv_fresh _ _ Hinv hd ltac:(lia)) as [Hn _]. congruence.
Qed.

Lemma bind_some {A B} (m : M A) (k : A -> M B) w a w' :
  m w = Some (a, w') -> (m ≫= k) w = k a w'.
Proof. intros H. unfold mbind, M_bind. by rewrite H. Qed.

Lemma bind_none {A B} (m : M A) (k : A -> M B) w :
  m w = None -> (m ≫= k) w = None.
Proof. intros H. unfold mbind, M_bind. by rewrite H. Qed.

Lemma link_conn_spec w :
  inv w ->
  link_conn (next_ptr w)
    (mkWorld (<[next_ptr w := zero_conn]> (heap w)) (connections w) (next_ptr w + 1)%positive
       (dns_pending w) (dns_cancelled w) (next_req w) (parent_pid w) (watcher w) (loop w) (log w))
  = Some (tt, mkWorld (<[next_ptr w := with_next (connections w) zero_conn]>
                        (link_heap (heap w) (connections w) (next_ptr w)))
                (Some (next_ptr w)) (next_ptr w + 1)%positive (dns_pending w) (dns_cancelled w)
                (next_req w) (parent_pid w) (watcher w) (loop w) (log w)).
Proof.
  intros Hinv. unfold link_conn, link_heap.
  destruct (connections w) as [hd|] eqn:Ec.
  - destruct (conns_live w hd Hinv Ec) as (hc & Hhc & Hne).
    munfold. repeat (mcbn; first [rewrite lookup_insert_eq | rewrite lookup_insert_ne by congruence
                                | rewrite Hhc]).
    do 3 f_equal. apply map_eq. intros i.
    mcbn. destruct (decide (i = next_ptr w)) as [->|]; [by rewrite !lookup_insert_eq|].
    destruct (decide (i = hd)) as [->|]; simplify_map_eq; done.
  - munfold. repeat (mcbn; rewrite lookup_insert_eq). mcbn. by rewrite insert_insert_eq.
Qed.

Lemma set_state_spec w x c s :
  heap w !! x = Some c ->
  set_state x s w = Some (tt, mkWorld (<[x := with_state s c]> (heap w)) (connections w)
    (next_ptr w) (dns_pending w) (dns_cancelled w) (next_req w) (parent_pid w) (watcher w)
    (loop w) (log w ++ [E_state x s])).
Proof. intros H. munfold. repeat (mcbn; first [rewrite lookup_insert_eq | rewrite H]). reflexivity. Qed.

(** The start of new_ssl_conn_cb: allocation, linking and the state. *)
Lemma new_conn_prefix w a ok :
  inv w ->
  new_ssl_conn_cb a ok w =
  (match a with
   | None => delete_conn (next_ptr w)
   | Some addr =>
       c ← load (next_ptr w);
       store (next_ptr w) (mkConn (state c) addr (remote_host c) (remote_ip c)
                 (local_bev c) (remote_bev c) (resolver_req c) (next c) (prev c));;
       if ok then
         bufferevent_new (next_ptr w) Remote;;
         bufferevent_setcb (next_ptr w) Remote false;;
         bufferevent_set_timeouts (next_ptr w) Remote (Some handshake_timeout);;
         bufferevent_enable (next_ptr w) Remote EV_WRITE
       else delete_conn (next_ptr w)
   end)
   (acc_world w (acc_conn (connections w) (mkSockaddr 0 []))
      [E_state (next_ptr w) C_SSL_CONNECTING]).
Proof.
  intros Hinv. unfold new_ssl_conn_cb.
  rewrite (bind_some _ _ _ _ _ (eq_refl : alloc_conn w = Some (next_ptr w, _))).
  rewrite (bind_some _ _ _ _ _ (link_conn_spec w Hinv)).
  erewrite bind_some; [|apply set_state_spec; cbn [heap]; apply lookup_insert_eq].
  cbn [heap connections next_ptr dns_pending dns_cancelled next_req parent_pid watcher loop log].
  unfold acc_world. rewrite insert_insert_eq. reflexivity.
Qed.

Lemma acc_store w addr es (k : M unit) :
  (c ← load (next_ptr w);
   store (next_ptr w) (mkConn (state c) addr (remote_host c) (remote_ip c)
             (local_bev c) (remote_bev c) (resolver_req c) (next c) (prev c));; k)
  (acc_world w (acc_conn (connections w) (mkSockaddr 0 [])) es)
  = k (acc_world w (acc_conn (connections w) addr) es).
Proof.
  unfold acc_world. munfold. repeat (mcbn; rewrite lookup_insert_eq). mcbn.
  by rewrite insert_insert_eq.
Qed.

Lemma acc_success w addr :
  inv w ->
  new_ssl_conn_cb (Some addr) true w =
  Some (tt, acc_world w (mkConn C_SSL_CONNECTING addr None None None (Some acc_bev) None
                           (connections w) None)
              [E_state (next_ptr w) C_SSL_CONNECTING; E_bev_new (next_ptr w) Remote]).
Proof.
  intros Hinv. rewrite new_conn_prefix by done. rewrite acc_store.
  unfold acc_world. munfold. repeat (mcbn; rewrite lookup_insert_eq). mcbn.
  rewrite !insert_insert_eq, <- app_assoc. reflexivity.
Qed.

Lemma inv_acc_ex w c es :
  inv w -> next c = connections w -> prev c = None ->
  Forall (fun e => eff_ptr e = next_ptr w) es -> C_SHUTTINGDOWN ∉ states es ->
  valid_states (states es) = true -> local_ok es -> pend_req (next_ptr w) c = [] ->
  exists w', delete_conn (next_ptr w) (acc_world w c es) = Some (tt, w') /\ inv w'.
Proof.
  intros Hinv Hn Hp Hes Hsd Hv Hl Hpr.
  assert (Hi : inv_gen (Some (next_ptr w)) (acc_world w c es)).
  { apply inv_alloc; [done|by right|done|done|done|done|done|]. rewrite bool_decide_true by done. auto. }
  destruct (delete_inv _ _ c Hi) as (w' & Hd & Hw' & _).
  { unfold acc_world. cbn [heap]. apply lookup_insert_eq. }
  by exists w'.
Qed.

Lemma accept_inv w a ok w' :
  inv w -> run (new_ssl_conn_cb a ok) w = Some w' -> inv w'.
Proof.
  intros Hinv Hrun. unfold run in Hrun.
  assert (Hst : local_ok [E_state (next_ptr w) C_SSL_CONNECTING]).
  { split; [done|]. intros H. simpl in H. set_solver. }
  destruct a as [addr|].
  - destruct ok.
    + rewrite acc_success in Hrun by done. injection Hrun as <-.
      apply inv_alloc; [done|by left|done|done|repeat constructor|simpl; set_solver|done|].
      * rewrite bool_decide_false by done.
        split; [done|]. split; [done|]. split.
        -- simpl. split; [|split; [done|split; [done|split; [done|split; [done|split; [done|]]]]]].
           ++ exists acc_bev. done.
           ++ repeat constructor.
        -- split; [done|]. split; [done|]. intros H. simpl in H. set_solver.
    + rewrite new_conn_prefix, acc_store in Hrun by done.
      destruct (inv_acc_ex w (acc_conn (connections w) addr)
                  [E_state (next_ptr w) C_SSL_CONNECTING]) as (w1 & Hd & Hw1);
        [done|done|done|repeat constructor|simpl; set_solver|done|done|done|].
      rewrite Hd in Hrun. congruence.
  - rewrite new_conn_prefix in Hrun by done.
    destruct (inv_acc_ex w (acc_conn (connections w) (mkSockaddr 0 []))
                [E_state (next_ptr w) C_SSL_CONNECTING]) as (w1 & Hd & Hw1);
      [done|done|done|repeat constructor|simpl; set_solver|done|done|done|].
    rewrite Hd in Hrun. congruence.
Qed.

Lemma valid_from_est_stay ss : valid_from C_ESTABLISHED ss = true ->
  phase_from C_ESTABLISHED ss = C_ESTABLISHED.
Proof.
  induction ss as [|s ss IH]; [done|]. simpl. intros H.
  apply andb_prop in H as [H1 H2]. destruct s; simpl in *; try discriminate; auto.
Qed.

Lemma valid_from_est ph ss : valid_from ph ss = true -> C_ESTABLISHED ∈ ss ->
  phase_from ph ss = C_ESTABLISHED.
Proof.
  revert ph. induction ss as [|s ss IH]; intros ph H Hin; [set_solver|].
  simpl in H. apply andb_prop in H as [H1 H2]. unfold phase_from. simpl. fold (phase_from (if is_sd s then ph else s) ss).
  apply elem_of_cons in Hin as [<-|Hin].
  - simpl. by apply valid_from_est_stay.
  - by apply IH.
Qed.

Lemma valid_states_est ss : valid_states ss = true -> C_ESTABLISHED ∈ ss ->
  phase_of ss = C_ESTABLISHED.
Proof.
  destruct ss as [|s ss]; [set_solver|]. simpl. intros H Hin.
  apply andb_prop in H as [H1 H2]. apply bool_decide_eq_true in H1. subst.
  unfold phase_of, phase_from. simpl. fold (phase_from C_SSL_CONNECTING ss).
  apply elem_of_cons in Hin as [Hin|Hin]; [discriminate|]. by apply valid_from_est.
Qed.

Lemma local_sends_nil l : local_out l = [] -> local_sends l = [].
Proof.
  induction l as [|e l IH]; [done|]. unfold local_out, local_sends. simpl.
  destruct e as [| | | | |y sd b r|y sd b| | |]; try exact IH; destruct sd; try exact IH; discriminate.
Qed.

Lemma inv_conn_ok w x c : inv w -> heap w !! x = Some c ->
  conn_ok x c (trace x (log w)) (pend_of x (dns_pending w)) (pend_of x (dns_cancelled w)).
Proof. intros Hinv Hx. pose proof (inv_live _ _ Hinv x c Hx) as H. done. Qed.

Lemma inv_running_live w x c : inv w -> heap w !! x = Some c -> loop w = Loop_running ->
  C_SHUTTINGDOWN ∉ states (trace x (log w)).
Proof.
  intros Hinv Hx Hr Hin. destruct (inv_running _ _ Hinv Hr x Hin) as [[H|H] _]; congruence.
Qed.

(** An update in place of a live connection, with no new request and no
    SHUTTING_DOWN. *)
Lemma inv_upd_simple w x c c' es :
  inv w -> heap w !! x = Some c -> next c' = next c -> prev c' = prev c ->
  Forall (fun e => eff_ptr e = x) es -> C_SHUTTINGDOWN ∉ states es ->
  conn_ok x c' (trace x (log w) ++ es) (pend_of x (dns_pending w)) (pend_of x (dns_cancelled w)) ->
  inv (mkWorld (<[x := c']> (heap w)) (connections w) (next_ptr w) (dns_pending w)
         (dns_cancelled w) (next_req w) (parent_pid w) (watcher w) (loop w) (log w ++ es)).
Proof.
  intros Hinv Hx Hn Hp Hes Hsd Hok.
  apply (inv_update None w x c); auto.
  - apply (inv_req_nodup _ _ Hinv).
  - apply (inv_req_fresh _ _ Hinv).
  - intros Hr Hin. rewrite states_app in Hin. apply elem_of_app in Hin as [Hin|Hin]; [|done].
    exfalso. by apply (inv_running_live w x c).
Qed.

(** An update in place of a live connection, then delete_conn. *)
Lemma inv_upd_delete w x c c' es :
  inv w -> heap w !! x = Some c -> next c' = next c -> prev c' = prev c ->
  Forall (fun e => eff_ptr e = x) es ->
  valid_states (states (trace x (log w) ++ es)) = true ->
  local_ok (trace x (log w) ++ es) ->
  pend_of x (dns_pending w) = pend_req x c' ->
  C_SHUTTINGDOWN ∉ states es \/ sd_last (states es) ->
  exists w', delete_conn x (mkWorld (<[x := c']> (heap w)) (connections w) (next_ptr w)
         (dns_pending w) (dns_cancelled w) (next_req w) (parent_pid w) (watcher w) (loop w)
         (log w ++ es)) = Some (tt, w') /\ inv w'.
Proof.
  intros Hinv Hx Hn Hp Hes Hv Hl Hpr Hsd.
  pose proof (inv_conn_ok w x c Hinv Hx) as (_ & _ & _ & Hcanc & _).
  assert (Hi : inv_gen (Some x) (mkWorld (<[x := c']> (heap w)) (connections w) (next_ptr w)
         (dns_pending w) (dns_cancelled w) (next_req w) (parent_pid w) (watcher w) (loop w)
         (log w ++ es))).
  { apply (inv_update (Some x) w x c); auto.
    - apply (inv_req_nodup _ _ Hinv).
    - apply (inv_req_fresh _ _ Hinv).
    - rewrite bool_decide_true by done. auto.
    - intros Hr Hin. split; [done|]. pose proof (inv_running_live w x c Hinv Hx Hr) as Hno.
      rewrite states_app in Hin |- *. apply elem_of_app in Hin as [Hin|Hin]; [done|].
      destruct Hsd as [Hsd|(pre & Hpre & Hnp)]; [done|].
      exists (states (trace x (log w)) ++ pre). rewrite Hpre, app_assoc. split; [done|].
      rewrite elem_of_app. tauto. }
  destruct (delete_inv _ _ c' Hi) as (w' & Hd & Hw' & _).
  { cbn [heap]. apply lookup_insert_eq. }
  by exists w'.
Qed.

Lemma last_phase ss s : last ss = Some s -> is_sd s = false -> phase_of ss = s.
Proof.
  intros Hl Hs. destruct ss as [|s' pre _] using rev_ind; [done|].
  rewrite last_snoc in Hl. injection Hl as ->. rewrite phase_of_snoc, Hs. done.
Qed.

Lemma last_nonempty {A} (l : list A) a : last l = Some a -> l <> [].
Proof. by intros H ->. Qed.

Lemma valid_app_sd ss : valid_states ss = true -> ss <> [] ->
  valid_states (ss ++ [C_SHUTTINGDOWN]) = true.
Proof. intros H Hne. by rewrite valid_states_snoc, H. Qed.

Lemma local_ok_quiet tr es : local_ok tr -> local_out es = [] ->
  C_ESTABLISHED ∉ states es -> local_ok (tr ++ es).
Proof.
  intros [H1 H2] Ho Hs. pose proof (local_sends_nil es Ho) as Hso.
  unfold local_ok. rewrite states_app, local_out_app, local_sends_app, Ho, Hso, !app_nil_r.
  split.
  - intros H. apply H1. rewrite elem_of_app in H. tauto.
  - intros H. apply H2. apply elem_of_app in H as [H|H]; [done|contradiction].
Qed.

Lemma sd_last_single : sd_last [C_SHUTTINGDOWN].
Proof. exists []. split; [done|]. set_solver. Qed.

Ltac mrun_with tac :=
  repeat (mcbn; first [rewrite lookup_insert_eq | progress tac
                      | rewrite decide_True by done | rewrite decide_False by done]);
  mcbn; rewrite ?insert_insert_eq, <- ?app_assoc; cbn [app].

Ltac fin_delete w x c :=
  match goal with
  | |- context [delete_conn x (mkWorld (<[x:=?c']> (heap w)) _ _ _ _ _ _ _ _ (log w ++ ?es))] =>
      let w1 := fresh "w1" in let Hd := fresh "Hd" in let Hw1 := fresh "Hw1" in
      destruct (inv_upd_delete w x c c' es) as (w1 & Hd & Hw1);
      [| | reflexivity | reflexivity | repeat constructor | | | | | rewrite Hd; intros [= <-]; exact Hw1]
  end.

Ltac fin_simple w x c :=
  match goal with
  | |- Some (mkWorld (<[x:=?c']> (heap w)) _ _ _ _ _ _ _ _ (log w ++ ?es)) = Some _ -> _ =>
      intros [= <-]; apply (inv_upd_simple w x c c' es);
      [| | reflexivity | reflexivity | repeat constructor | |]
  | |- Some (mkWorld (<[x:=?c']> (heap w)) _ _ _ _ _ _ _ _ (log w)) = Some _ -> _ =>
      rewrite <- (app_nil_r (log w)); intros [= <-]; apply (inv_upd_simple w x c c' []);
      [| | reflexivity | reflexivity | constructor | |]
  end.

Lemma bev_timeout_ssl w x c b e res w' :
  inv w -> heap w !! x = Some c -> remote_bev c = Some b ->
  phase_of (states (trace x (log w))) = C_SSL_CONNECTING ->
  flag e BEV_EVENT_CONNECTED = false -> flag e BEV_EVENT_TIMEOUT = true ->
  run (bev_report x Remote e;; ssl_event_cb x Remote e res) w = Some w' -> inv w'.
Proof.
  intros Hinv Hx Hrb Hph Hc1 Ht1 Hrun.
  pose proof (inv_conn_ok w x c Hinv Hx) as (Hlast & Hv & Hsh & Hcanc & Hl).
  pose proof (last_nonempty _ _ Hlast) as Hne.
  rewrite Hph in Hsh. destruct Hsh as (Hb & Hlb & Hrr & Hpd & Hh & Hi & Hfl).
  assert (Hst : state c = C_SSL_CONNECTING \/ state c = C_SHUTTINGDOWN).
  { destruct (is_sd (state c)) eqn:Esd.
    - right. by destruct (state c).
    - left. rewrite <- Hph. symmetry. by apply last_phase. }
  revert Hrun. unfold run, bev_report, ssl_event_cb. munfold.
  destruct Hst as [Hst|Hst].
  - mrun_with ltac:(rewrite ?Hx, ?Hrb, ?Hc1, ?Ht1, ?Hlb, ?Hst).
    fin_delete w x c.
    + done.
    + done.
    + rewrite states_app. simpl. by apply valid_app_sd.
    + apply local_ok_quiet; [done|done|]. simpl. set_solver.
    + unfold pend_req. simpl. by rewrite Hrr.
    + right. apply sd_last_single.
  - mrun_with ltac:(rewrite ?Hx, ?Hrb, ?Hc1, ?Ht1, ?Hlb, ?Hst).
    fin_simple w x c.
    + done.
    + done.
    + set_solver.
    + rewrite app_nil_r. split; [by rewrite Hlast, Hst|]. split; [done|]. split; [|done].
      rewrite Hph. destruct Hb as (b0 & Hb0 & ? & ? & ?). rewrite Hrb in Hb0. injection Hb0 as <-.
      simpl. rewrite andb_true_r. split; [by eexists|]. auto 10.
Qed.

Lemma shape_pend y ph c tr pend : shape y ph c tr pend -> pend = pend_req y c.
Proof.
  unfold pend_req. destruct ph; simpl; intros H; try contradiction.
  - destruct H as (_ & _ & Hr & Hp & _). by rewrite Hr, Hp.
  - destruct H as (_ & _ & Hp & _). done.
  - destruct H as (_ & _ & Hr & Hp & _). by rewrite Hr, Hp.
  - destruct H as (_ & _ & Hr & Hp & _). by rewrite Hr, Hp.
Qed.

Lemma bev_error w x c sd b e res w' :
  inv w -> heap w !! x = Some c -> bev_of sd c = Some b ->
  flag e BEV_EVENT_CONNECTED = false -> flag e BEV_EVENT_TIMEOUT = false ->
  flag e error_conditions = true ->
  run (bev_report x sd e;; ssl_event_cb x sd e res) w = Some w' -> inv w'.
Proof.
  intros Hinv Hx Hb Hc1 Ht1 He1 Hrun.
  pose proof (inv_conn_ok w x c Hinv Hx) as (Hlast & Hv & Hsh & Hcanc & Hl).
  pose proof (last_nonempty _ _ Hlast) as Hne.
  pose proof (shape_pend _ _ _ _ _ Hsh) as Hpd.
  revert Hrun. unfold run, bev_report, ssl_event_cb, is_local_bev. munfold.
  destruct sd; simpl in Hb.
  - destruct (remote_bev c) as [rb|] eqn:Hrb.
    + mrun_with ltac:(rewrite ?Hx, ?Hb, ?Hrb, ?Hc1, ?Ht1, ?He1).
      fin_delete w x c; [done|done| | | |].
      * rewrite states_app. simpl. by apply valid_app_sd.
      * apply local_ok_quiet; [done|done|]. simpl. set_solver.
      * done.
      * right. apply sd_last_single.
    + mrun_with ltac:(rewrite ?Hx, ?Hb, ?Hrb, ?Hc1, ?Ht1, ?He1).
      fin_delete w x c; [done|done| | | |].
      * rewrite states_app. simpl. by apply valid_app_sd.
      * apply local_ok_quiet; [done|done|]. simpl. set_solver.
      * done.
      * right. apply sd_last_single.
  - destruct (local_bev c) as [lb|] eqn:Hlb.
    + mrun_with ltac:(rewrite ?Hx, ?Hb, ?Hlb, ?Hc1, ?Ht1, ?He1).
      fin_delete w x c; [done|done| | | |].
      * rewrite states_app. simpl. by apply valid_app_sd.
      * apply local_ok_quiet; [done|done|]. simpl. set_solver.
      * done.
      * right. apply sd_last_single.
    + mrun_with ltac:(rewrite ?Hx, ?Hb, ?Hlb, ?Hc1, ?Ht1, ?He1).
      fin_delete w x c; [done|done| | | |].
      * rewrite states_app. simpl. by apply valid_app_sd.
      * apply local_ok_quiet; [done|done|]. simpl. set_solver.
      * done.
      * right. apply sd_last_single.
Qed.

Lemma nodup_add_req (P C : list (reqid * ptr)) r x :
  NoDup (map fst (P ++ C)) -> (forall q, q ∈ P ++ C -> (q.1 < r)%positive) ->
  NoDup (map fst ((P ++ [(r, x)]) ++ C)).
Proof.
  intros Hnd Hf. rewrite <- app_assoc, !map_app. simpl.
  rewrite map_app in Hnd. apply NoDup_app in Hnd as (HP & Hdis & HC).
  apply NoDup_app. split; [done|]. split.
  - intros a Ha Hin. apply elem_of_cons in Hin as [Heq|Hin]; [subst a|].
    + apply list_elem_of_fmap in Ha as (q & Hq1 & Hq).
      assert (Hl : (q.1 < r)%positive) by (apply Hf; set_solver). simpl in Hl. subst. lia.
    + by apply (Hdis a).
  - apply NoDup_cons. split; [|done]. intros Hin.
    apply list_elem_of_fmap in Hin as (q & Hq & Hin).
    assert (Hl : (q.1 < r)%positive) by (apply Hf; set_solver). simpl in Hq. lia.
Qed.

(** An update in place of a live connection that issues a resolver request. *)
Lemma inv_upd_req w x c c' es :
  inv w -> heap w !! x = Some c -> next c' = next c -> prev c' = prev c ->
  Forall (fun e => eff_ptr e = x) es -> C_SHUTTINGDOWN ∉ states es ->
  conn_ok x c' (trace x (log w) ++ es)
    (pend_of x (dns_pending w) ++ [(next_req w, x)]) (pend_of x (dns_cancelled w)) ->
  inv (mkWorld (<[x := c']> (heap w)) (connections w) (next_ptr w)
         (dns_pending w ++ [(next_req w, x)]) (dns_cancelled w) (next_req w + 1)%positive
         (parent_pid w) (watcher w) (loop w) (log w ++ es)).
Proof.
  intros Hinv Hx Hn Hp Hes Hsd Hok.
  apply (inv_update None w x c); auto.
  - intros y Hy. rewrite pend_of_app.
    replace (pend_of y [(next_req w, x)]) with (@nil (reqid * ptr)); [by rewrite app_nil_r|].
    unfold pend_of. by rewrite filter_cons_False.
  - apply nodup_add_req; [apply (inv_req_nodup _ _ Hinv)|apply (inv_req_fresh _ _ Hinv)].
  - intros q Hq. rewrite <- app_assoc in Hq. apply elem_of_app in Hq as [Hq|Hq].
    + assert (Hl : (q.1 < next_req w)%positive) by (apply (inv_req_fresh _ _ Hinv); set_solver). lia.
    + apply elem_of_cons in Hq as [->|Hq]; [simpl; lia|].
      assert (Hl : (q.1 < next_req w)%positive) by (apply (inv_req_fresh _ _ Hinv); set_solver). lia.
  - rewrite bool_decide_false by done. rewrite pend_of_app.
    replace (pend_of x [(next_req w, x)]) with [(next_req w, x)]; [exact Hok|].
    unfold pend_of. by rewrite filter_cons_True.
  - intros Hr Hin. rewrite states_app in Hin. apply elem_of_app in Hin as [Hin|Hin]; [|done].
    exfalso. by apply (inv_running_live w x c).
Qed.

Lemma bev_remote_connected w x c b e res w' :
  inv w -> heap w !! x = Some c -> remote_bev c = Some b ->
  phase_of (states (trace x (log w))) = C_SSL_CONNECTING ->
  flag e BEV_EVENT_CONNECTED = true ->
  run (bev_report x Remote e;; ssl_event_cb x Remote e res) w = Some w' -> inv w'.
Proof.
  intros Hinv Hx Hrb Hph Hc1 Hrun.
  pose proof (inv_conn_ok w x c Hinv Hx) as (Hlast & Hv & Hsh & Hcanc & Hl).
  pose proof (last_nonempty _ _ Hlast) as Hne.
  rewrite Hph in Hsh. destruct Hsh as (Hb & Hlb & Hrr & Hpd & Hh & Hi & Hfl).
  revert Hrun. unfold run, bev_report, ssl_event_cb, is_local_bev, ssl_connected, evdns_getnameinfo.
  munfold.
  mrun_with ltac:(rewrite ?Hx, ?Hrb, ?Hc1, ?Hlb).
  assert (Hsh : forall r es, Forall (fun e => eff_ptr e = x) es ->
     states es = [C_HOSTNAME_LOOKUP] -> Forall (fun e => no_local_effect e = true) es ->
     local_out es = [] -> (is_Some r -> resolvable (remote_addr c)) ->
     conn_ok x (mkConn C_HOSTNAME_LOOKUP (remote_addr c) (remote_host c) (remote_ip c) None
                  (Some (mkBev (bev_readcb b) (bev_enabled b) None (bev_connecting b && negb true)
                           (bev_input b))) r (next c) (prev c))
       (trace x (log w) ++ es) (pend_req x (mkConn C_SSL_CONNECTING (remote_addr c) None None None None r None None))
       (pend_of x (dns_cancelled w))).
  { intros r es Hown Hs Hnl Hlo Hres. destruct Hb as (b0 & Hb0 & Hrd & Hcn & Htm).
    rewrite Hrb in Hb0. injection Hb0 as <-.
    split; [|split; [|split; [|split]]].
    - by rewrite states_app, Hs, last_app.
    - rewrite states_app, Hs, valid_states_snoc, Hv by done. simpl. by rewrite Hph.
    - rewrite states_app, Hs, phase_of_snoc. simpl.
      split; [eexists; split; [done|]; simpl; rewrite Hrd, Hcn; done|].
      split; [done|]. split; [by destruct r|]. split; [done|]. split; [done|].
      split; [|exact Hres].
      apply Forall_app. split; [|done]. eapply Forall_impl; [exact Hfl|]. intros e0. apply no_lookup_no_local.
    - done.
    - apply local_ok_quiet; [done|done|]. rewrite Hs. set_solver. }
  case_bool_decide; [|case_bool_decide];
    cbv [evdns_base_resolve_reverse_ipv6 evdns_base_resolve_reverse]; munfold;
    mrun_with ltac:(rewrite ?Hx, ?Hrb, ?Hc1, ?Hlb).
  - intros [= <-]. apply (inv_upd_req w x c); [done|done|done|done|repeat constructor|simpl; set_solver|].
    rewrite Hpd. apply (Hsh (Some (next_req w))); [repeat constructor|done|repeat constructor|done|].
    intros _. unfold resolvable. tauto.
  - intros [= <-]. apply (inv_upd_req w x c); [done|done|done|done|repeat constructor|simpl; set_solver|].
    rewrite Hpd. apply (Hsh (Some (next_req w))); [repeat constructor|done|repeat constructor|done|].
    intros _. unfold resolvable. tauto.
  - fin_simple w x c; [done|done|simpl; set_solver|].
    rewrite Hpd. apply (Hsh None); [repeat constructor|done|repeat constructor|done|].
    by intros [].
Qed.

Lemma local_est_line tr x ip host res :
  local_out tr = [] ->
  let es := [E_state x C_ESTABLISHED; E_send x Local (hostid_line ip host) res] in
  local_ok (tr ++ es) /\ local_sends (tr ++ es) = [hostid_line ip host].
Proof.
  intros Ho es. pose proof (local_sends_nil _ Ho) as Hs.
  assert (Hs' : local_sends (tr ++ es) = [hostid_line ip host]).
  { rewrite local_sends_app, Hs. reflexivity. }
  split; [|done]. split.
  - intros H. exfalso. apply H. rewrite states_app. apply elem_of_app. right. simpl. set_solver.
  - intros _. exists ip, host, []. split; [|done]. rewrite local_out_app, Ho. reflexivity.
Qed.

Lemma bev_local_connected w x c lb e res w' :
  inv w -> heap w !! x = Some c -> local_bev c = Some lb ->
  phase_of (states (trace x (log w))) = C_LOCAL_CONNECTING ->
  flag e BEV_EVENT_CONNECTED = true ->
  run (bev_report x Local e;; ssl_event_cb x Local e res) w = Some w' -> inv w'.
Proof.
  intros Hinv Hx Hlb Hph Hc1 Hrun.
  pose proof (inv_conn_ok w x c Hinv Hx) as (Hlast & Hv & Hsh & Hcanc & Hl).
  pose proof (last_nonempty _ _ Hlast) as Hne.
  pose proof (shape_pend _ _ _ _ _ Hsh) as Hpd.
  rewrite Hph in Hsh.
  destruct Hsh as ((b & Hrb & Hrd & Hcn & Htm) & (lb0 & Hlb0 & Hlrd & Hlcn & Hltm) & Hrr & _ & [host Hh] & [ip Hi] & Hres).
  rewrite Hlb in Hlb0. injection Hlb0 as <-.
  assert (Hnest : C_ESTABLISHED ∉ states (trace x (log w))).
  { intros Hin. pose proof (valid_states_est _ Hv Hin). congruence. }
  assert (Ho : local_out (trace x (log w)) = []) by (apply Hl, Hnest).
  destruct (local_est_line (trace x (log w)) x ip host res Ho) as (Hlok & Hls).
  assert (Hes : states [E_state x C_ESTABLISHED; E_send x Local (hostid_line ip host) res]
                = [C_ESTABLISHED]) by reflexivity.
  revert Hrun. unfold run, bev_report, ssl_event_cb, is_local_bev, local_connected.
  munfold.
  mrun_with ltac:(rewrite ?Hx, ?Hrb, ?Hc1, ?Hlb, ?Hh, ?Hi).
  case_bool_decide.
  - fin_delete w x c; [done|done| | | |].
    + rewrite states_app, Hes, valid_states_snoc, Hv by done. simpl. by rewrite Hph.
    + exact Hlok.
    + unfold pend_req in *. by rewrite Hpd, Hrr.
    + left. simpl. set_solver.
  - fin_simple w x c; [done|done|simpl; set_solver|].
    split; [|split; [|split; [|split]]].
    + by rewrite states_app, Hes, last_app.
    + rewrite states_app, Hes, valid_states_snoc, Hv by done. simpl. by rewrite Hph.
    + rewrite states_app, Hes, phase_of_snoc. simpl.
      split; [eexists; split; [done|]; simpl; rewrite Hcn; done|].
      split; [eexists; split; [done|]; simpl; rewrite andb_false_r, Hltm; done|].
      split; [done|]. split; [unfold pend_req in Hpd; by rewrite Hpd, Hrr|].
      split; [|exact Hres]. exists host, ip. split; [done|]. split; [done|]. exact Hls.
    + done.
    + exact Hlok.
Qed.

Lemma bev_connected_case w x sd e res c b w' :
  inv w -> heap w !! x = Some c -> bev_of sd c = Some b ->
  flag e BEV_EVENT_CONNECTED = true -> bev_connecting b = true ->
  run (bev_report x sd e;; ssl_event_cb x sd e res) w = Some w' -> inv w'.
Proof.
  intros Hinv Hx Hb Hc1 Hcn Hrun.
  pose proof (inv_conn_ok w x c Hinv Hx) as (_ & _ & Hsh & _).
  destruct (phase_of (states (trace x (log w)))) eqn:Eph; simpl in Hsh;
    [| | | |contradiction]; destruct sd; simpl in Hb.
  - destruct Hsh as (_ & Hlb & _). congruence.
  - by apply (bev_remote_connected w x c b e res w').
  - destruct Hsh as (_ & Hlb & _). congruence.
  - destruct Hsh as ((b0 & Hb0 & _ & Hc0 & _) & _). congruence.
  - by apply (bev_local_connected w x c b e res w').
  - destruct Hsh as ((b0 & Hb0 & _ & Hc0 & _) & _). congruence.
  - destruct Hsh as (_ & (b0 & Hb0 & _ & Hc0 & _) & _). congruence.
  - destruct Hsh as ((b0 & Hb0 & _ & Hc0 & _) & _). congruence.
Qed.

Lemma bev_timeout_case w x sd e res c b w' :
  inv w -> heap w !! x = Some c -> bev_of sd c = Some b ->
  flag e BEV_EVENT_CONNECTED = false -> flag e BEV_EVENT_TIMEOUT = true ->
  is_Some (bev_timeout b) ->
  run (bev_report x sd e;; ssl_event_cb x sd e res) w = Some w' -> inv w'.
Proof.
  intros Hinv Hx Hb Hc1 Ht1 Htm Hrun.
  pose proof (inv_conn_ok w x c Hinv Hx) as (_ & _ & Hsh & _).
  destruct (phase_of (states (trace x (log w)))) eqn:Eph; simpl in Hsh;
    [| | | |contradiction]; destruct sd; simpl in Hb.
  1, 3: destruct Hsh as (_ & Hlb & _); congruence.
  1: by apply (bev_timeout_ssl w x c b e res w').
  all: first [destruct Hsh as ((b0 & Hb0 & _ & _ & Ht0) & _);
                rewrite Hb in Hb0; injection Hb0 as ->; rewrite Ht0 in Htm; by destruct Htm
             | destruct Hsh as (_ & (b0 & Hb0 & _ & _ & Ht0) & _);
                rewrite Hb in Hb0; injection Hb0 as ->; rewrite Ht0 in Htm; by destruct Htm].
Qed.

Lemma bev_inv w x sd e res c b w' :
  inv w -> heap w !! x = Some c -> bev_of sd c = Some b -> e ∈ bev_event_flags ->
  negb (flag e BEV_EVENT_CONNECTED) || bev_connecting b = true ->
  negb (flag e BEV_EVENT_TIMEOUT) || bool_decide (is_Some (bev_timeout b)) = true ->
  run (bev_report x sd e;; ssl_event_cb x sd e res) w = Some w' -> inv w'.
Proof.
  intros Hinv Hx Hb He Hcn Htm Hrun.
  unfold bev_event_flags in He.
  repeat (apply elem_of_cons in He as [He|He]; [subst e|]); [| | | | | |set_solver].
  - apply (bev_connected_case w x sd BEV_EVENT_CONNECTED res c b w'); [done|done|done|reflexivity| |done].
    simpl in Hcn. exact Hcn.
  - apply bool_decide_eq_true in Htm.
    by apply (bev_timeout_case w x sd (Z.lor BEV_EVENT_TIMEOUT BEV_EVENT_READING) res c b w').
  - apply bool_decide_eq_true in Htm.
    by apply (bev_timeout_case w x sd (Z.lor BEV_EVENT_TIMEOUT BEV_EVENT_WRITING) res c b w').
  - by apply (bev_error w x c sd b (Z.lor BEV_EVENT_EOF BEV_EVENT_READING) res w').
  - by apply (bev_error w x c sd b (Z.lor BEV_EVENT_ERROR BEV_EVENT_READING) res w').
  - by apply (bev_error w x c sd b (Z.lor BEV_EVENT_ERROR BEV_EVENT_WRITING) res w').
Qed.

Lemma conn_ok_quiet x c c' tr es pend canc :
  conn_ok x c tr pend canc -> state c' = state c ->
  shape x (phase_of (states tr)) c' (tr ++ es) pend ->
  states es = [] -> local_sends es = [] ->
  (C_ESTABLISHED ∉ states tr -> local_out es = []) ->
  conn_ok x c' (tr ++ es) pend canc.
Proof.
  intros (Hlast & Hv & Hsh & Hc & Hl1 & Hl2) Hst Hsh' Hs Hss Ho.
  unfold conn_ok. rewrite states_app, Hs, app_nil_r. split; [by rewrite Hst|]. split; [done|].
  split; [done|]. split; [done|]. split.
  - intros H. rewrite states_app, Hs, app_nil_r in H. rewrite local_out_app, (Hl1 H), (Ho H). done.
  - intros H. rewrite states_app, Hs, app_nil_r in H. destruct (Hl2 H) as (ip & host & rest & Ho1 & Hs1).
    exists ip, host, (rest ++ local_out es). rewrite local_out_app, local_sends_app, Ho1, Hs1, Hss.
    done.
Qed.

Lemma shape_input y ph c tr pend sd b inp :
  bev_of sd c = Some b -> shape y ph c tr pend ->
  shape y ph (with_bev sd (Some (mkBev (bev_readcb b) (bev_enabled b) (bev_timeout b)
                                 (bev_connecting b) inp)) c) tr pend.
Proof.
  intros Hb Hsh. destruct c as [st ad h i lbv rbv rr n p]. unfold pend_req in *.
  destruct ph, sd; simpl in *; try contradiction; subst; naive_solver.
Qed.

Lemma phase_from_in ph ss : phase_from ph ss = ph \/ phase_from ph ss ∈ ss.
Proof.
  revert ph. induction ss as [|s ss IH]; intros ph; [by left|].
  unfold phase_from. simpl. fold (phase_from (if is_sd s then ph else s) ss).
  destruct (IH (if is_sd s then ph else s)) as [H|H].
  - rewrite H. destruct (is_sd s); [by left|right; by left].
  - right. by right.
Qed.

Lemma phase_est_in ss : phase_of ss = C_ESTABLISHED -> C_ESTABLISHED ∈ ss.
Proof. intros H. destruct (phase_from_in C_SSL_CONNECTING ss) as [H'|H']; unfold phase_of in H; congruence. Qed.

Lemma read_inv w x sd data c b w' :
  inv w -> heap w !! x = Some c -> bev_of sd c = Some b ->
  run (bev_fill x sd data;; if bev_readcb b then pipe_cb x sd else mret ()) w = Some w' ->
  inv w'.
Proof.
  intros Hinv Hx Hb Hrun.
  pose proof (inv_conn_ok w x c Hinv Hx) as Hok.
  pose proof Hok as (Hlast & Hv & Hsh & Hcanc & Hl).
  revert Hrun. unfold run, bev_fill, pipe_cb, is_local_bev. munfold.
  destruct (bev_readcb b) eqn:Hrd.
  - destruct (phase_of (states (trace x (log w)))) eqn:Eph; simpl in Hsh; [| | | |contradiction].
    1-3: exfalso; destruct sd; simpl in Hb;
      first [destruct Hsh as ((b0 & Hb0 & Hr0 & _) & _); congruence
            | destruct Hsh as (_ & Hlb & _); congruence
            | destruct Hsh as (_ & (b0 & Hb0 & Hr0 & _) & _); congruence].
    destruct Hsh as ((rb & Hrb & Hrr & Hrc & Hrt) & (lb & Hlb & Hlr & Hlc & Hlt) & Hres & Hpd & (host & ip & Hh & Hi & Hls) & Hfam).
    pose proof (phase_est_in _ Eph) as Hest.
    destruct sd; simpl in Hb.
    + rewrite Hlb in Hb. injection Hb as <-.
      mrun_with ltac:(rewrite ?Hx, ?Hlb, ?Hrb).
      case_bool_decide; mrun_with ltac:(rewrite ?Hx, ?Hlb, ?Hrb);
        fin_simple w x c; try done; try (simpl; set_solver);
        (apply (conn_ok_quiet x c); [done|done| |done|done|intros Hn; contradiction]);
        rewrite Eph; simpl; rewrite ?app_nil_r;
        (split; [eexists; split; [done|]; done|]);
        (split; [eexists; split; [done|]; simpl; done|]);
        (split; [done|]); (split; [done|]); (split; [|exact Hfam]); exists host, ip;
        rewrite ?local_sends_app, Hls; done.
    + rewrite Hrb in Hb. injection Hb as <-.
      mrun_with ltac:(rewrite ?Hx, ?Hlb, ?Hrb).
      case_bool_decide; mrun_with ltac:(rewrite ?Hx, ?Hlb, ?Hrb);
        fin_simple w x c; try done; try (simpl; set_solver);
        (apply (conn_ok_quiet x c); [done|done| |done|done|intros Hn; contradiction]);
        rewrite Eph; simpl; rewrite ?app_nil_r;
        (split; [eexists; split; [done|]; simpl; done|]);
        (split; [eexists; split; [done|]; done|]);
        (split; [done|]); (split; [done|]); (split; [|exact Hfam]); exists host, ip;
        rewrite ?local_sends_app, Hls; done.
  - destruct sd; simpl in Hb; mrun_with ltac:(rewrite ?Hx, ?Hb);
      fin_simple w x c; try done; try (simpl; set_solver);
      (apply (conn_ok_quiet x c); [done|done| |done|done|done]);
      rewrite app_nil_r.
    + apply (shape_input _ _ _ _ _ Local b (bev_input b ++ data)); done.
    + apply (shape_input _ _ _ _ _ Remote b (bev_input b ++ data)); done.
Qed.

Lemma pend_of_in y q l : q ∈ l -> q.2 = y -> q ∈ pend_of y l.
Proof. intros. by apply list_elem_of_filter. Qed.

Lemma pending_live w r arg : inv w -> (r, arg) ∈ dns_pending w ->
  exists c, heap w !! arg = Some c /\ resolver_req c = Some r
  /\ phase_of (states (trace arg (log w))) = C_HOSTNAME_LOOKUP.
Proof.
  intros Hinv Hin. pose proof (pend_of_in arg _ _ Hin eq_refl) as Hp.
  destruct (heap w !! arg) as [c|] eqn:Hc.
  - pose proof (inv_conn_ok w arg c Hinv Hc) as (_ & _ & Hsh & _).
    exists c. split; [done|].
    destruct (phase_of (states (trace arg (log w)))) eqn:Eph; simpl in Hsh; [| | | |contradiction].
    + destruct Hsh as (_ & _ & _ & Hpd & _). rewrite Hpd in Hp. set_solver.
    + destruct Hsh as (_ & _ & Hpd & _). rewrite Hpd in Hp. unfold pend_req in Hp.
      destruct (resolver_req c) as [rr|]; [|set_solver].
      apply list_elem_of_singleton in Hp. injection Hp as ->. done.
    + destruct Hsh as (_ & _ & _ & Hpd & _). rewrite Hpd in Hp. set_solver.
    + destruct Hsh as (_ & _ & _ & Hpd & _). rewrite Hpd in Hp. set_solver.
  - destruct (inv_dead _ _ Hinv arg Hc) as (Hpd & _). rewrite Hpd in Hp. set_solver.
Qed.

Lemma cancelled_dead w r arg : inv w -> (r, arg) ∈ dns_cancelled w -> heap w !! arg = None.
Proof.
  intros Hinv Hin. pose proof (pend_of_in arg _ _ Hin eq_refl) as Hp.
  destruct (heap w !! arg) as [c|] eqn:Hc; [|done].
  pose proof (inv_conn_ok w arg c Hinv Hc) as (_ & _ & _ & Hcanc & _).
  rewrite Hcanc in Hp. set_solver.
Qed.

Lemma list_find_in (l : list (reqid * ptr)) r i q :
  list_find (fun q => q.1 = r) l = Some (i, q) -> q ∈ l /\ q.1 = r.
Proof.
  intros H. apply list_find_Some in H as (Hi & Hr & _). split; [|done].
  by apply list_elem_of_lookup_2 in Hi.
Qed.

Lemma dns_cancelled_none w r i r' arg :
  inv w -> list_find (fun q => q.1 = r) (dns_cancelled w) = Some (i, (r', arg)) ->
  run (put (set_dns (dns_pending w) (filter (fun q => q.1 <> r) (dns_cancelled w)) w);;
       address_resolved DNS_ERR_CANCEL 0 0 None arg) w = None.
Proof.
  intros Hinv Hf. apply list_find_in in Hf as [Hin _].
  pose proof (cancelled_dead w r' arg Hinv Hin) as Hd.
  unfold run, address_resolved. munfold. mcbn. by rewrite Hd.
Qed.

Lemma nodup_fst_sublist (l1 l2 : list (reqid * ptr)) :
  l1 `sublist_of` l2 -> NoDup (map fst l2) -> NoDup (map fst l1).
Proof.
  induction 1 as [|x l1 l2 H IH|x l1 l2 H IH]; simpl; intros Hnd; [constructor| |].
  - apply NoDup_cons in Hnd as [Hn Hnd]. apply NoDup_cons. split; [|auto].
    intros Hin. apply Hn. apply list_elem_of_In, in_map_iff in Hin as (q & Hq & Hin).
    apply list_elem_of_In, in_map_iff. exists q. split; [done|]. apply list_elem_of_In.
    eapply elem_of_sublist; [|exact H]. by apply list_elem_of_In.
  - apply NoDup_cons in Hnd as [_ Hnd]. auto.
Qed.

Lemma dns_inv w r i r' arg result type count addrs w' :
  inv w -> list_find (fun q => q.1 = r) (dns_pending w) = Some (i, (r', arg)) ->
  result <> DNS_ERR_CANCEL ->
  run (put (set_dns (filter (fun q => q.1 <> r) (dns_pending w)) (dns_cancelled w) w);;
       address_resolved result type count addrs arg) w = Some w' -> inv w'.
Proof.
  intros Hinv Hf Hres Hrun. apply list_find_in in Hf as [Hin Hr]. simpl in Hr. subst r'.
  destruct (pending_live w r arg Hinv Hin) as (c & Hx & Hrr & Hph).
  pose proof (inv_conn_ok w arg c Hinv Hx) as (Hlast & Hv & Hsh & Hcanc & Hl).
  pose proof (last_nonempty _ _ Hlast) as Hne.
  rewrite Hph in Hsh. destruct Hsh as ((b & Hrb & Hrd & Hcn & Htm) & Hlb & Hpd & Hh & Hi & Hfl & Hfam).
  assert (Hfam' : resolvable (remote_addr c)) by (apply Hfam; by rewrite Hrr).
  pose proof (inv_nodup_pending _ _ Hinv) as HndP.
  assert (Hpd' : pend_of arg (filter (fun q => q.1 <> r) (dns_pending w)) = []).
  { apply elem_of_nil_inv. intros q Hq. apply list_elem_of_filter in Hq as [Hq2 Hq].
    apply list_elem_of_filter in Hq as [Hq1 Hq].
    assert (Hq' : q ∈ pend_of arg (dns_pending w)) by (by apply list_elem_of_filter).
    rewrite Hpd in Hq'. unfold pend_req in Hq'. rewrite Hrr in Hq'.
    apply list_elem_of_singleton in Hq'. subst q. simpl in Hq1. done. }
  assert (Hconn : forall c' es,
    next c' = next c -> prev c' = prev c -> Forall (fun e => eff_ptr e = arg) es ->
    states es = [C_LOCAL_CONNECTING] -> local_out es = [] ->
    shape arg C_LOCAL_CONNECTING c' (trace arg (log w) ++ es) [] -> state c' = C_LOCAL_CONNECTING ->
    inv (mkWorld (<[arg := c']> (heap w)) (connections w) (next_ptr w)
           (filter (fun q => q.1 <> r) (dns_pending w)) (dns_cancelled w) (next_req w)
           (parent_pid w) (watcher w) (loop w) (log w ++ es))).
  { intros c' es Hn Hp Hes Hs Ho Hsh Hst. apply (inv_update None w arg c); auto.
    - intros y Hy. split; [|done]. by apply (pend_of_filter_other _ r arg).
    - eapply nodup_fst_sublist; [|apply (inv_req_nodup _ _ Hinv)].
      apply sublist_app; [apply sublist_filter|done].
    - intros q Hq. apply (inv_req_fresh _ _ Hinv).
      apply elem_of_app in Hq as [Hq|Hq]; [|set_solver].
      apply list_elem_of_filter in Hq as [_ Hq]. set_solver.
    - rewrite bool_decide_false by done. rewrite Hpd'.
      split; [by rewrite states_app, Hs, last_app, Hst|].
      split; [rewrite states_app, Hs, valid_states_snoc, Hv by done; simpl; by rewrite Hph|].
      split; [by rewrite states_app, Hs, phase_of_snoc|].
      split; [done|]. apply local_ok_quiet; [done|done|]. rewrite Hs. set_solver.
    - intros Hrun' Hin'. rewrite states_app, Hs in Hin'. apply elem_of_app in Hin' as [Hin'|Hin'];
        [|set_solver]. exfalso. by apply (inv_running_live w arg c). }
  revert Hrun. unfold run, address_resolved. munfold.
  mrun_with ltac:(rewrite ?Hx, ?Hrb, ?Hlb).
  rewrite bool_decide_false by done.
  mrun_with ltac:(rewrite ?Hx, ?Hrb, ?Hlb).
  destruct (bool_decide (result ≠ DNS_ERR_NONE) || bool_decide (addrs = None)
            || bool_decide (type ≠ DNS_PTR) || bool_decide (count = 0)).
  2: destruct addrs as [[|hostname rest]|]; [intros [=]| |intros [=]].
  all: mrun_with ltac:(rewrite ?Hx, ?Hrb, ?Hlb); intros [= <-];
    (apply Hconn; [done|done|repeat constructor|done|done| |done]);
    simpl; (split; [eexists; split; [done|]; done|]);
    (split; [eexists; split; [done|]; done|]); (split; [done|]); (split; [done|]);
    (split; [done|]); (split; [done|]); exact Hfam'.
Qed.

Lemma signal_inv w w' :
  inv w -> run (shutdown_cb EV_SIGNAL) w = Some w' -> inv w'.
Proof.
  intros Hinv Hrun. destruct (close_connections_spec w true Hinv) as (es & Hc & Htr).
  revert Hrun. unfold run, shutdown_cb.
  rewrite (bool_decide_false (EV_SIGNAL = SIGTERM)) by done.
  rewrite (bool_decide_false (EV_SIGNAL = SIGUSR1)) by done.
  rewrite (bind_some _ _ _ _ _ Hc). unfold event_base_loopexit. munfold. mcbn.
  destruct (loop w); intros [= <-]; apply close_inv; try done.
Qed.

Lemma parent_timer_inv w ppid w' :
  inv w -> run (check_parent ppid) w = Some w' -> inv w'.
Proof.
  intros Hinv Hrun. destruct (close_connections_spec w false Hinv) as (es & Hc & Htr).
  revert Hrun. unfold run, check_parent.
  rewrite (bind_some _ _ _ _ _ (eq_refl : get w = Some (w, w))). cbv beta. case_bool_decide.
  - rewrite (bind_some _ _ _ _ _ Hc). unfold event_base_loopbreak. munfold. mcbn.
    intros [= <-]. by apply close_inv.
  - unfold mret, M_ret. by intros [= <-].
Qed.

Lemma step_inv w ev w' : inv w -> step w ev = Some w' -> inv w'.
Proof.
  intros Hinv Hs. unfold step in Hs. destruct (negb (loop_active w)); [done|].
  destruct ev as [a ok|x sd e res|x sd data|r result type count addrs|r|s|ppid].
  - by apply (accept_inv w a ok).
  - destruct (heap w !! x) as [c|] eqn:Hx; [|done].
    destruct (bev_of sd c) as [b|] eqn:Hb; [|done].
    destruct (bool_decide (e ∈ bev_event_flags)
              && (negb (flag e BEV_EVENT_CONNECTED) || bev_connecting b)
              && (negb (flag e BEV_EVENT_TIMEOUT) || bool_decide (is_Some (bev_timeout b)))) eqn:Hg;
      [|done].
    apply andb_prop in Hg as [Hg H3]. apply andb_prop in Hg as [H1 H2].
    apply bool_decide_eq_true in H1. by apply (bev_inv w x sd e res c b).
  - destruct (heap w !! x) as [c|] eqn:Hx; [|done].
    destruct (bev_of sd c) as [b|] eqn:Hb; [|done].
    destruct (flag (bev_enabled b) EV_READ); [|done]. by apply (read_inv w x sd data c b).
  - destruct (list_find (fun q => q.1 = r) (dns_pending w)) as [[i [r' arg]]|] eqn:Hf; [|done].
    case_bool_decide; [done|]. by apply (dns_inv w r i r' arg result type count addrs).
  - destruct (list_find (fun q => q.1 = r) (dns_cancelled w)) as [[i [r' arg]]|] eqn:Hf; [|done].
    by rewrite (dns_cancelled_none w r i r' arg Hinv Hf) in Hs.
  - destruct (_ || _); [|done]. by apply (signal_inv w).
  - destruct (watcher w); [done|]. by apply (parent_timer_inv w ppid).
Qed.

Lemma inv_init ppid wt : inv (init_world ppid wt).
Proof.
  unfold init_world. split; cbn [heap connections next_ptr dns_pending dns_cancelled next_req loop log].
  - exists []. split; [exists None; constructor|]. split; [constructor|].
    intros y. cbn [heap]. rewrite lookup_empty. split; [by intros []|set_solver].
  - intros y _. done.
  - constructor.
  - set_solver.
  - intros y c Hy. by rewrite lookup_empty in Hy.
  - intros y _. split; [done|]. split; [done|]. split; [done|]. intros H. set_solver.
  - intros _ y H. simpl in H. set_solver.
Qed.

Lemma reachable_inv w : reachable w -> inv w.
Proof.
  induction 1 as [ppid wt|w ev w' Hr IH Hs]; [apply inv_init|]. by apply (step_inv w ev).
Qed.

Lemma run_events_reachable w evs w' :
  reachable w -> run_events w evs = Some w' -> reachable w'.
Proof.
  revert w. induction evs as [|ev evs IH]; simpl; intros w Hr H; [congruence|].
  destruct (step w ev) as [w1|] eqn:E; [|done]. eapply IH; [|exact H]. by econstructor.
Qed.

Lemma inv_valid w x : inv w ->
  valid_states (states (trace x (log w))) = true /\ local_ok (trace x (log w)).
Proof.
  intros Hinv. destruct (heap w !! x) as [c|] eqn:Hx.
  - destruct (inv_conn_ok w x c Hinv Hx) as (_ & Hv & _ & _ & Hl). done.
  - destruct (inv_dead _ _ Hinv x Hx) as (_ & Hv & Hl). done.
Qed.

Lemma list_ascii_append s1 s2 :
  list_ascii_of_string (s1 ++ s2) = list_ascii_of_string s1 ++ list_ascii_of_string s2.
Proof. induction s1 as [|a s1 IH]; simpl; [done|]. by rewrite IH. Qed.

Lemma length_list_ascii s : length (list_ascii_of_string s) = String.length s.
Proof. induction s as [|a s IH]; simpl; auto. Qed.

Lemma hostid_line_full ip host :
  hostid_line ip host = list_ascii_of_string (ip ++ "^" ++ host ++ CRLF).
Proof.
  unfold hostid_line, hostid_format. apply firstn_all2.
  rewrite !list_ascii_append, !length_app, !length_list_ascii. simpl. lia.
Qed.

Lemma valid_from_step ph s ss : valid_from ph (s :: ss) = true -> is_sd s = false ->
  s = succ ph /\ valid_from s ss = true.
Proof.
  simpl. intros H Hs. rewrite Hs in H. apply andb_prop in H as [H1 H2].
  by apply bool_decide_eq_true in H1.
Qed.

Lemma not_sd s : s <> C_SHUTTINGDOWN -> is_sd s = false.
Proof. by destruct s. Qed.

Lemma valid_nosd_prefix ss : valid_states ss = true -> C_SHUTTINGDOWN ∉ ss ->
  exists k, ss = firstn k success_path /\ (ss <> [] -> (0 < k)%nat).
Proof.
  destruct ss as [|s0 ss]; [intros; exists 0%nat; done|].
  simpl. intros H Hn. apply andb_prop in H as [H0 H].
  apply bool_decide_eq_true in H0. subst s0.
  assert (Hsd : forall s, s ∈ ss -> is_sd s = false).
  { intros s Hs. apply not_sd. intros ->. apply Hn. by right. }
  destruct ss as [|s1 ss]; [exists 1%nat; split; [done|lia]|].
  apply valid_from_step in H as [-> H]; [|apply Hsd; left].
  destruct ss as [|s2 ss]; [exists 2%nat; split; [done|lia]|].
  apply valid_from_step in H as [-> H]; [|apply Hsd; right; left].
  destruct ss as [|s3 ss]; [exists 3%nat; split; [done|lia]|].
  apply valid_from_step in H as [-> H]; [|apply Hsd; right; right; left].
  destruct ss as [|s4 ss]; [exists 4%nat; split; [done|lia]|].
  apply valid_from_step in H as [Hs4 _]; [|apply Hsd; right; right; right; left].
  simpl in Hs4. subst s4. exfalso. apply Hn. set_solver.
Qed.

Lemma valid_sd_last_prefix ss : valid_states ss = true -> sd_last ss -> path_prefix ss.
Proof.
  intros Hv (pre & -> & Hpre).
  assert (Hne : pre <> []) by (intros ->; discriminate).
  rewrite valid_states_snoc in Hv by done. apply andb_prop in Hv as [Hv _].
  destruct (valid_nosd_prefix pre Hv Hpre) as (k & Hk & Hk0).
  exists k. right. split; [by apply Hk0|]. by rewrite Hk.
Qed.

Lemma valid_from_lc_stay ss : valid_from C_LOCAL_CONNECTING ss = true ->
  phase_from C_LOCAL_CONNECTING ss = C_LOCAL_CONNECTING
  \/ phase_from C_LOCAL_CONNECTING ss = C_ESTABLISHED.
Proof.
  induction ss as [|s ss IH]; [by left|]. simpl. intros H.
  apply andb_prop in H as [H1 H2]. unfold phase_from. simpl.
  fold (phase_from (if is_sd s then C_LOCAL_CONNECTING else s) ss).
  destruct s; simpl in *; try discriminate; auto.
  right. by apply valid_from_est_stay.
Qed.

Lemma valid_from_lc ph ss : valid_from ph ss = true -> C_LOCAL_CONNECTING ∈ ss ->
  phase_from ph ss = C_LOCAL_CONNECTING \/ phase_from ph ss = C_ESTABLISHED.
Proof.
  revert ph. induction ss as [|s ss IH]; intros ph H Hin; [set_solver|].
  simpl in H. apply andb_prop in H as [H1 H2]. unfold phase_from. simpl.
  fold (phase_from (if is_sd s then ph else s) ss).
  apply elem_of_cons in Hin as [<-|Hin].
  - simpl. by apply valid_from_lc_stay.
  - by apply IH.
Qed.

Lemma valid_states_lc ss : valid_states ss = true -> C_LOCAL_CONNECTING ∈ ss ->
  phase_of ss = C_LOCAL_CONNECTING \/ phase_of ss = C_ESTABLISHED.
Proof.
  destruct ss as [|s ss]; [set_solver|]. simpl. intros H Hin.
  apply andb_prop in H as [H1 H2]. apply bool_decide_eq_true in H1. subst.
  unfold phase_of, phase_from. simpl. fold (phase_from C_SSL_CONNECTING ss).
  apply elem_of_cons in Hin as [Hin|Hin]; [discriminate|]. by apply valid_from_lc.
Qed.

(** C1: main tests only [read_len < 0]: a read of the configuration record that returns any non-negative byte count, a short read included, goes on to start the event loop (with TLS set up) instead of exiting with failure. *)
Theorem main_short_read len ppid prctl_ok :
  0 <= len ->
  main len ppid true prctl_ok
  = Main_event_loop (init_world ppid (if prctl_ok then Watch_pdeathsig
                                      else Watch_poll parent_timeout)).
Proof. intros H. unfold main. rewrite bool_decide_false by lia. reflexivity. Qed.

Lemma main_short_read_witness :
  0 <= 0 /\ main 0 100 true true = Main_event_loop (init_world 100 Watch_pdeathsig).
Proof. split; [lia|]. apply (main_short_read 0 100 true). lia. Defined.

(** C2: in every reachable world, a connection that never reached ESTABLISHED has had nothing written to its local transport; one that did has exactly one line sent by send_with_creds, the first output on the local transport, <ip>^<host> CR LF with the ip and host stored in the live record. *)
Theorem hostid_line_first w x :
  reachable w ->
  (C_ESTABLISHED ∉ states (trace x (log w)) -> local_out (trace x (log w)) = [])
  /\ (C_ESTABLISHED ∈ states (trace x (log w)) ->
      exists ip host rest,
        local_out (trace x (log w)) = list_ascii_of_string (ip ++ "^" ++ host ++ CRLF) :: rest
        /\ local_sends (trace x (log w)) = [list_ascii_of_string (ip ++ "^" ++ host ++ CRLF)]
        /\ forall c, heap w !! x = Some c -> remote_ip c = Some ip /\ remote_host c = Some host).
Proof.
  intros Hr. pose proof (reachable_inv w Hr) as Hinv.
  destruct (inv_valid w x Hinv) as (Hv & Hl1 & Hl2). split; [done|].
  intros Hin. destruct (Hl2 Hin) as (ip' & host' & rest & Ho & Hs).
  destruct (heap w !! x) as [c|] eqn:Hx.
  - pose proof (inv_conn_ok w x c Hinv Hx) as (_ & _ & Hsh & _).
    rewrite (valid_states_est _ Hv Hin) in Hsh.
    destruct Hsh as (_ & _ & _ & _ & (host & ip & Hh & Hi & Hls) & _).
    rewrite Hls in Hs. injection Hs as Hs.
    exists ip, host, rest. rewrite <- !hostid_line_full. rewrite Ho, <- Hs.
    split; [done|]. split; [exact Hls|]. intros c' Hc'. injection Hc' as <-. done.
  - exists ip', host', rest. rewrite <- !hostid_line_full. split; [done|]. split; [done|].
    intros c' Hc'. congruence.
Qed.

Lemma hostid_line_first_witness :
  exists w, run_events (init_world 100 Watch_pdeathsig) demo_est = Some w
  /\ C_ESTABLISHED ∈ states (trace 1 (log w))
  /\ exists ip host rest,
       local_out (trace 1 (log w)) = list_ascii_of_string (ip ++ "^" ++ host ++ CRLF) :: rest
       /\ local_sends (trace 1 (log w)) = [list_ascii_of_string (ip ++ "^" ++ host ++ CRLF)]
       /\ forall c, heap w !! 1%positive = Some c -> remote_ip c = Some ip /\ remote_host c = Some host.
Proof.
  eexists. split; [vm_compute; reflexivity|].
  split; [apply list_elem_of_In; vm_compute; tauto|].
  apply (hostid_line_first _ 1).
  - apply (run_events_reachable (init_world 100 Watch_pdeathsig) demo_est); [apply reach_init|vm_compute; reflexivity].
  - apply list_elem_of_In. vm_compute. tauto.
Defined.

(** C3: in every reachable world, the states assigned to a connection follow the success path, each later value being SHUTTING_DOWN or the successor of the last non-SHUTTING_DOWN value; while the loop is running the sequence is a prefix of the success path, possibly ended by one SHUTTING_DOWN. *)
Theorem state_order w x :
  reachable w ->
  valid_states (states (trace x (log w))) = true
  /\ (loop w = Loop_running -> path_prefix (states (trace x (log w)))).
Proof.
  intros Hr. pose proof (reachable_inv w Hr) as Hinv.
  destruct (inv_valid w x Hinv) as (Hv & _). split; [done|]. intros Hrun.
  destruct (decide (C_SHUTTINGDOWN ∈ states (trace x (log w)))) as [Hin|Hn].
  - destruct (inv_running _ _ Hinv Hrun x Hin) as [_ Hsl]. by apply valid_sd_last_prefix.
  - destruct (valid_nosd_prefix _ Hv Hn) as (k & Hk & _). exists k. by left.
Qed.

Lemma state_order_witness :
  exists w, run_events (init_world 100 Watch_pdeathsig) demo_est = Some w
  /\ valid_states (states (trace 1 (log w))) = true
  /\ (loop w = Loop_running -> path_prefix (states (trace 1 (log w)))).
Proof.
  eexists. split; [vm_compute; reflexivity|].
  apply (state_order _ 1).
  apply (run_events_reachable (init_world 100 Watch_pdeathsig) demo_est); [apply reach_init|vm_compute; reflexivity].
Defined.

Lemma state_order_counterexample :
  exists w, run_events (init_world 100 Watch_pdeathsig) demo_sigterm_race = Some w
  /\ reachable w
  /\ states (trace 1 (log w))
     = [C_SSL_CONNECTING; C_HOSTNAME_LOOKUP; C_LOCAL_CONNECTING; C_SHUTTINGDOWN; C_ESTABLISHED]
  /\ ~ path_prefix (states (trace 1 (log w))).
Proof.
  eexists. split; [vm_compute; reflexivity|].
  split; [apply (run_events_reachable (init_world 100 Watch_pdeathsig) demo_sigterm_race); [apply reach_init|vm_compute; reflexivity]|].
  split; [vm_compute; reflexivity|].
  vm_compute. intros (k & [H|[_ H]]); destruct k as [|[|[|[|[|k]]]]]; discriminate.
Qed.

Lemma bev_of_with_same sd o c : bev_of sd (with_bev sd o c) = o.
Proof. by destruct sd. Qed.

Lemma bev_of_with_other sd o c : bev_of (other sd) (with_bev sd o c) = bev_of (other sd) c.
Proof. by destruct sd. Qed.

Lemma pipe_cb_spec w x sd c b :
  heap w !! x = Some c -> bev_of sd c = Some b ->
  pipe_cb x sd w = Some (tt, mkWorld
    (<[x := with_bev sd (Some (mkBev (bev_readcb b) (bev_enabled b) (bev_timeout b)
                                 (bev_connecting b) (skipn BUFFER_LEN (bev_input b)))) c]> (heap w))
    (connections w) (next_ptr w) (dns_pending w) (dns_cancelled w) (next_req w)
    (parent_pid w) (watcher w) (loop w)
    (log w ++ pipe_out x sd c (firstn BUFFER_LEN (bev_input b)))).
Proof.
  intros Hx Hb. unfold pipe_cb, bufferevent_read, bufferevent_write, is_local_bev, pipe_out.
  destruct c as [st ad h i lb rb rr n p]. destruct sd; simpl in Hb; subst.
  - munfold. mrun_with ltac:(rewrite ?Hx). destruct rb as [rb|]; simpl.
    + case_bool_decide; mrun_with ltac:(rewrite ?Hx); [reflexivity|].
      by rewrite app_nil_r.
    + by rewrite app_nil_r.
  - destruct lb as [lb|].
    + munfold. mrun_with ltac:(rewrite ?Hx). simpl.
      case_bool_decide; mrun_with ltac:(rewrite ?Hx); [reflexivity|].
      by rewrite app_nil_r.
    + munfold. mrun_with ltac:(rewrite ?Hx). simpl. by rewrite app_nil_r.
Qed.

Lemma read_step w x sd c b data :
  loop_active w = true -> heap w !! x = Some c -> bev_of sd c = Some b ->
  bev_readcb b = true -> flag (bev_enabled b) EV_READ = true ->
  step w (Ev_read x sd data) = Some (mkWorld
    (<[x := with_bev sd (Some (mkBev (bev_readcb b) (bev_enabled b) (bev_timeout b)
              (bev_connecting b) (skipn BUFFER_LEN (bev_input b ++ data)))) c]> (heap w))
    (connections w) (next_ptr w) (dns_pending w) (dns_cancelled w) (next_req w)
    (parent_pid w) (watcher w) (loop w)
    (log w ++ pipe_out x sd c (firstn BUFFER_LEN (bev_input b ++ data)))).
Proof.
  intros Ha Hx Hb Hr He. destruct b as [rcb en tm cn inp]. simpl in Hr, He |- *. subst rcb.
  unfold step. rewrite Ha. simpl. rewrite Hx, Hb. cbn [bev_enabled bev_readcb]. rewrite He.
  unfold run. rewrite (bind_some _ _ w tt
    (mkWorld (<[x := with_bev sd (Some (mkBev true en tm cn (inp ++ data))) c]> (heap w))
    (connections w) (next_ptr w) (dns_pending w) (dns_cancelled w) (next_req w)
    (parent_pid w) (watcher w) (loop w) (log w))).
  - rewrite (pipe_cb_spec _ x sd (with_bev sd (Some (mkBev true en tm cn (inp ++ data))) c)
              (mkBev true en tm cn (inp ++ data))).
    + cbn [heap connections next_ptr dns_pending dns_cancelled next_req parent_pid watcher loop log].
      rewrite insert_insert_eq. unfold pipe_out. rewrite bev_of_with_other.
      destruct c, sd; reflexivity.
    + cbn [heap]. by rewrite lookup_insert_eq.
    + by rewrite bev_of_with_same.
  - unfold bev_fill, update_bev. munfold. mcbn. rewrite Hx. cbn beta iota.
    destruct sd; simpl in Hb; rewrite Hb; simpl; rewrite Hx; destruct c; reflexivity.
Qed.

Lemma writes_to_app z s l1 l2 : writes_to z s (l1 ++ l2) = writes_to z s l1 ++ writes_to z s l2.
Proof. apply omap_app. Qed.

Lemma input_le_refl c : input_le c c.
Proof. intros s. by right. Qed.

Lemma input_le_trans c'' c' c : input_le c'' c' -> input_le c' c -> input_le c'' c.
Proof.
  intros H1 H2 s. destruct (H1 s) as [H|H]; [by left|].
  destruct (H2 s) as [H'|H'].
  - left. rewrite H' in H. simpl in H. by apply fmap_None in H.
  - right. congruence.
Qed.

Lemma input_le_bevs c' c : local_bev c' = local_bev c -> remote_bev c' = remote_bev c -> input_le c' c.
Proof. intros Hl Hr s. right. destruct s; simpl; congruence. Qed.

Lemma input_le_with_bev sd o c :
  (o = None \/ exists b b', bev_of sd c = Some b /\ o = Some b' /\ bev_input b' = bev_input b) ->
  input_le (with_bev sd o c) c.
Proof.
  intros Ho s. destruct (decide (s = sd)) as [->|Hne].
  - rewrite bev_of_with_same. destruct Ho as [->|(b & b' & Hb & -> & Hi)]; [by left|].
    right. rewrite Hb. simpl. by rewrite Hi.
  - right. destruct s, sd; try congruence; reflexivity.
Qed.

Lemma fr_refl S w : fr S w w.
Proof.
  split; [lia|]. split.
  - exists []. rewrite app_nil_r. done.
  - intros z _ _. split; [done|]. intros c Hc. right. exists c. split; [done|apply input_le_refl].
Qed.

Lemma fr_trans S w1 w2 w3 : fr S w1 w2 -> fr S w2 w3 -> fr S w1 w3.
Proof.
  intros (Hn1 & (es1 & Hl1 & Hw1) & Hh1) (Hn2 & (es2 & Hl2 & Hw2) & Hh2).
  split; [lia|]. split.
  - exists (es1 ++ es2). split; [by rewrite Hl2, Hl1, app_assoc|].
    intros z s Hz. by rewrite writes_to_app, Hw1, Hw2.
  - intros z Hz Hlt. destruct (Hh1 z Hz Hlt) as [Hd1 Hv1].
    assert (Hlt2 : (z < next_ptr w2)%positive) by lia.
    destruct (Hh2 z Hz Hlt2) as [Hd2 Hv2]. split; [auto|].
    intros c Hc. destruct (Hv1 c Hc) as [H|(c' & Hc' & Hle)]; [left; auto|].
    destruct (Hv2 c' Hc') as [H|(c'' & Hc'' & Hle')]; [by left|].
    right. exists c''. split; [done|]. by apply input_le_trans with c'.
Qed.

Lemma fa_run S m w w' : frame_at S m w -> run m w = Some w' -> fr S w w'.
Proof.
  intros H Hr. unfold run in Hr. destruct (m w) as [[a w1]|] eqn:E; [|done].
  injection Hr as <-. by apply (H a).
Qed.

Lemma fa_bind {A B} S (m : M A) (k : A -> M B) w :
  frame_at S m w -> (forall a w1, m w = Some (a, w1) -> frame_at S (k a) w1) ->
  frame_at S (m ≫= k) w.
Proof.
  intros Hm Hk b w' H. unfold mbind, M_bind in H.
  destruct (m w) as [[a w1]|] eqn:E; [|done].
  apply fr_trans with w1; [by apply (Hm a)|by apply (Hk a w1 eq_refl b)].
Qed.

Lemma fa_ret {A} S (a : A) w : frame_at S (mret a) w.
Proof. intros b w' H. injection H as _ <-. apply fr_refl. Qed.

Lemma fa_ub {A} S w : frame_at (A:=A) S ub w.
Proof. intros b w' H. done. Qed.

Lemma fa_get_bind {A} S (k : world -> M A) w : frame_at S (k w) w -> frame_at S (get ≫= k) w.
Proof. intros H. apply fa_bind; [intros ? ? [= _ <-]; apply fr_refl|]. by intros ? ? [= <- <-]. Qed.

Lemma fa_load_bind {A} S p (k : conn -> M A) w :
  (forall c, heap w !! p = Some c -> frame_at S (k c) w) -> frame_at S (load p ≫= k) w.
Proof.
  intros H. apply fa_bind.
  - intros ? ? E. unfold load in E. destruct (heap w !! p); [|done]. injection E as _ <-. apply fr_refl.
  - intros c w1 E. unfold load in E. destruct (heap w !! p) eqn:Hp; [|done].
    injection E as <- <-. by apply H.
Qed.

Lemma fa_put S w v :
  (next_ptr w <= next_ptr v)%positive -> log v = log w ->
  (forall z, (z < next_ptr w)%positive -> heap v !! z = heap w !! z) ->
  frame_at S (put v) w.
Proof.
  intros Hn Hl Hh a w' [= _ <-]. split; [done|]. split.
  - exists []. by rewrite app_nil_r.
  - intros z _ Hz. rewrite (Hh z Hz). split; [done|]. intros c Hc. right. exists c.
    split; [done|apply input_le_refl].
Qed.

Lemma fa_store S p c' w :
  (forall c, heap w !! p = Some c -> S p -> input_le c' c) -> frame_at S (store p c') w.
Proof.
  intros H a w' E. unfold store in E. destruct (heap w !! p) as [c|] eqn:Hp; [|done].
  injection E as _ <-. split; [simpl; lia|]. split.
  - exists []. unfold set_heap. simpl. by rewrite app_nil_r.
  - intros z Hz _. unfold set_heap. simpl. destruct (decide (z = p)) as [->|Hne].
    + rewrite Hp, lookup_insert_eq. split; [done|]. intros c0 [= Hc0]. subst c0. right. exists c'. auto.
    + rewrite lookup_insert_ne by done. split; [done|]. intros c0 Hc0. right. exists c0.
      split; [done|apply input_le_refl].
Qed.

Lemma fa_emit S e w :
  (forall z s, S z -> writes_to z s [e] = []) -> frame_at S (emit e) w.
Proof.
  intros H a w' [= _ <-]. split; [simpl; lia|]. split.
  - exists [e]. split; [done|]. exact H.
  - intros z _ _. simpl. split; [done|]. intros c Hc. right. exists c. split; [done|apply input_le_refl].
Qed.

Lemma fa_free S p w : frame_at S (free p) w.
Proof.
  intros a w' E. unfold free in E. destruct (heap w !! p) as [c0|] eqn:Hp; [|done].
  injection E as _ <-. split; [simpl; lia|]. split.
  - exists []. unfold set_heap. simpl. by rewrite app_nil_r.
  - intros z _ _. unfold set_heap. simpl. destruct (decide (z = p)) as [->|Hne].
    + rewrite lookup_delete_eq. split; [done|]. by left.
    + rewrite lookup_delete_ne by done. split; [done|]. intros c Hc. right. exists c.
      split; [done|apply input_le_refl].
Qed.

Lemma fa_emit_quiet S e w :
  (forall y s bs, e <> E_write y s bs) -> frame_at S (emit e) w.
Proof. intros H. apply fa_emit. intros z s _. destruct e; try reflexivity. by destruct (H x sd bytes). Qed.

Lemma fa_emit_write S y s bs w : ~ S y -> frame_at S (emit (E_write y s bs)) w.
Proof.
  intros Hy. apply fa_emit. intros z s' Hz. simpl. unfold writes_to. simpl.
  case_bool_decide as Hc; [|done]. destruct Hc as [-> _]. done.
Qed.

Create HintDb fa discriminated.

Lemma fa_update_bev S p sd f w :
  (S p -> forall b, bev_input (f b) = bev_input b) -> frame_at S (update_bev p sd f) w.
Proof.
  intros Hf. unfold update_bev. apply fa_load_bind. intros c Hc.
  destruct (bev_of sd c) as [b|] eqn:Hb; [|apply fa_ub].
  apply fa_store. intros c0 Hc0 HS. rewrite Hc in Hc0. injection Hc0 as <-.
  apply input_le_with_bev. right. exists b, (f b). auto.
Qed.

Ltac fa_quiet := apply fa_emit_quiet; intros ? ? ?; discriminate.

Lemma fa_load S p w : frame_at S (load p) w.
Proof. intros a w' E. unfold load in E. destruct (heap w !! p); [|done]. injection E as _ <-. apply fr_refl. Qed.

Lemma fa_setcb S p sd b w : frame_at S (bufferevent_setcb p sd b) w.
Proof. apply fa_update_bev. done. Qed.
Lemma fa_enable S p sd e w : frame_at S (bufferevent_enable p sd e) w.
Proof. apply fa_update_bev. done. Qed.
Lemma fa_disable S p sd e w : frame_at S (bufferevent_disable p sd e) w.
Proof. apply fa_bind; [by apply fa_update_bev|intros; fa_quiet]. Qed.
Lemma fa_set_timeouts S p sd t w : frame_at S (bufferevent_set_timeouts p sd t) w.
Proof. apply fa_update_bev. done. Qed.
Lemma fa_flush S p sd w : frame_at S (bufferevent_flush p sd) w.
Proof. apply fa_bind; [by apply fa_update_bev|intros; fa_quiet]. Qed.
Lemma fa_bev_free S p sd w : frame_at S (bufferevent_free p sd) w.
Proof. apply fa_bind; [by apply fa_update_bev|intros; fa_quiet]. Qed.
Lemma fa_bev_report S p sd e w : frame_at S (bev_report p sd e) w.
Proof. apply fa_update_bev. done. Qed.
Lemma fa_SSL_shutdown S p w : frame_at S (SSL_shutdown p) w.
Proof. unfold SSL_shutdown. fa_quiet. Qed.
Lemma fa_send S p sd d r w : frame_at S (send_with_creds p sd d r) w.
Proof. apply fa_bind; [fa_quiet|intros; apply fa_ret]. Qed.
Lemma fa_set_state S p s w : frame_at S (set_state p s) w.
Proof.
  unfold set_state. apply fa_load_bind. intros c Hc. apply fa_bind; [|intros; fa_quiet].
  apply fa_store. intros c0 Hc0 _. rewrite Hc in Hc0. injection Hc0 as <-. by apply input_le_bevs.
Qed.
Lemma fa_bev_new S p sd w : ~ S p -> frame_at S (bufferevent_new p sd) w.
Proof.
  intros Hp. unfold bufferevent_new. apply fa_load_bind. intros c Hc.
  apply fa_bind; [|intros; fa_quiet]. apply fa_store. intros ? ? HS. done.
Qed.
Lemma fa_bev_read S p sd n w : ~ S p -> frame_at S (bufferevent_read p sd n) w.
Proof.
  intros Hp. unfold bufferevent_read. apply fa_load_bind. intros c Hc.
  destruct (bev_of sd c); [|apply fa_ub]. apply fa_bind; [|intros; apply fa_ret].
  apply fa_store. intros ? ? HS. done.
Qed.
Lemma fa_bev_write S p sd d w : ~ S p -> frame_at S (bufferevent_write p sd d) w.
Proof. intros Hp. apply fa_bind; [by apply fa_update_bev|intros; by apply fa_emit_write]. Qed.
Lemma fa_bev_fill S p sd d w : ~ S p -> frame_at S (bev_fill p sd d) w.
Proof. intros Hp. apply fa_update_bev. done. Qed.
Lemma fa_resolve S p w : frame_at S (evdns_base_resolve_reverse p) w.
Proof.
  unfold evdns_base_resolve_reverse. apply fa_get_bind.
  apply fa_bind; [apply fa_put; simpl; auto; lia|]. intros ? ? _.
  apply fa_bind; [fa_quiet|intros; apply fa_ret].
Qed.
Lemma fa_getnameinfo S p a w : frame_at S (evdns_getnameinfo p a) w.
Proof.
  unfold evdns_getnameinfo, evdns_base_resolve_reverse_ipv6.
  case_bool_decide; [apply fa_resolve|]. case_bool_decide; [apply fa_resolve|apply fa_ret].
Qed.
Lemma fa_cancel S r w : frame_at S (evdns_cancel_request r) w.
Proof.
  unfold evdns_cancel_request. apply fa_get_bind.
  destruct (list_find _ _) as [[_ [_ arg]]|]; [|apply fa_ub].
  apply fa_bind; [apply fa_put; simpl; auto; lia|intros; fa_quiet].
Qed.
Lemma fa_alloc S w : frame_at S alloc_conn w.
Proof.
  unfold alloc_conn. apply fa_get_bind. apply fa_bind; [|intros; apply fa_ret].
  apply fa_put; simpl; [lia|done|]. intros z Hz. rewrite lookup_insert_ne; [done|lia].
Qed.

#[export] Hint Resolve fa_ret fa_ub fa_load fa_free fa_setcb fa_enable fa_disable fa_set_timeouts
  fa_flush fa_bev_free fa_bev_report fa_SSL_shutdown fa_send fa_set_state fa_bev_new fa_bev_read
  fa_bev_write fa_bev_fill fa_resolve fa_getnameinfo fa_cancel fa_alloc : fa.

Ltac fa_store_tac :=
  match goal with
  | H : heap ?w !! ?p = Some _ |- frame_at _ (store ?p _) ?w =>
      apply fa_store; let c0 := fresh "c0" in let Hc0 := fresh "Hc0" in
      intros c0 Hc0 _; rewrite H in Hc0; injection Hc0 as Hc0; subst c0;
      first [apply input_le_bevs; reflexivity | apply input_le_with_bev; left; reflexivity]
  end.

Ltac fa_go :=
  repeat first
    [ solve [eauto with fa]
    | match goal with
      | |- frame_at _ (mbind _ (load _)) _ => apply fa_load_bind; intros ? ?
      | |- frame_at _ (mbind _ get) _ => apply fa_get_bind
      | |- frame_at _ (mbind _ _) _ => apply fa_bind; [fa_go | intros ? ? ?]
      | |- frame_at _ (store _ _) _ => fa_store_tac
      | |- frame_at _ (put _) _ => apply fa_put; [simpl; lia | reflexivity | intros; reflexivity]
      | |- context [let _ := _ in _] => cbv zeta
      end
    | case_match ].

Lemma fa_free_conn S p w : frame_at S (free_conn p) w.
Proof. unfold free_conn. fa_go. Qed.
#[export] Hint Resolve fa_free_conn : fa.

Lemma fa_store_same S p c' w :
  (forall c, heap w !! p = Some c -> local_bev c' = local_bev c /\ remote_bev c' = remote_bev c) ->
  frame_at S (store p c') w.
Proof. intros H. apply fa_store. intros c Hc _. destruct (H c Hc). by apply input_le_bevs. Qed.

Lemma fa_delete_loop S fuel : forall curr x w, frame_at S (delete_conn_loop fuel curr x) w.
Proof. induction fuel; intros curr x w; cbn [delete_conn_loop]; fa_go. Qed.
#[export] Hint Resolve fa_delete_loop : fa.

Lemma fa_delete_conn S x w : frame_at S (delete_conn x) w.
Proof. unfold delete_conn. fa_go. Qed.
#[export] Hint Resolve fa_delete_conn : fa.

Lemma fa_local_connected S x r w : frame_at S (local_connected x r) w.
Proof. unfold local_connected. fa_go. Qed.

Lemma fa_ssl_connected S x w : frame_at S (ssl_connected x) w.
Proof. unfold ssl_connected. fa_go. Qed.
#[export] Hint Resolve fa_local_connected fa_ssl_connected : fa.

Lemma fa_ssl_event_cb S x sd e r w : frame_at S (ssl_event_cb x sd e r) w.
Proof. unfold ssl_event_cb. fa_go. Qed.

Lemma fa_address_resolved S result type count addrs x w :
  ~ S x -> frame_at S (address_resolved result type count addrs x) w.
Proof. intros Hx. unfold address_resolved. fa_go. Qed.

Lemma fa_pipe_cb S x sd w : ~ S x -> frame_at S (pipe_cb x sd) w.
Proof. intros Hx. unfold pipe_cb. fa_go. Qed.

Lemma fa_link S x w : frame_at S (link_conn x) w.
Proof. unfold link_conn. fa_go. Qed.
#[export] Hint Resolve fa_link : fa.

Lemma fa_new_ssl S a ok w : ~ S (next_ptr w) -> frame_at S (new_ssl_conn_cb a ok) w.
Proof.
  intros Hn. unfold new_ssl_conn_cb. apply fa_bind; [apply fa_alloc|]. intros x w1 Ha.
  unfold alloc_conn, mbind, M_bind, get, put, mret, M_ret in Ha. injection Ha as <- <-.
  fa_go.
Qed.

Lemma fa_close_loop S fuel : forall curr fl w, frame_at S (close_connections_loop fuel curr fl) w.
Proof. induction fuel; intros curr fl w; cbn [close_connections_loop]; fa_go. Qed.
#[export] Hint Resolve fa_close_loop : fa.

Lemma fa_close_connections S fl w : frame_at S (close_connections fl) w.
Proof. unfold close_connections. fa_go. Qed.

Lemma fa_loopexit S w : frame_at S event_base_loopexit w.
Proof. unfold event_base_loopexit. fa_go. Qed.

Lemma fa_loopbreak S w : frame_at S event_base_loopbreak w.
Proof. unfold event_base_loopbreak. fa_go. Qed.
#[export] Hint Resolve fa_close_connections fa_loopexit fa_loopbreak : fa.

Lemma fa_shutdown_cb S what w : frame_at S (shutdown_cb what) w.
Proof. unfold shutdown_cb. fa_go. Qed.

Lemma fa_check_parent S ppid w : frame_at S (check_parent ppid) w.
Proof. unfold check_parent. fa_go. Qed.

Lemma past_lc_app x w w' es : log w' = log w ++ es -> past_lc x w -> past_lc x w'.
Proof.
  intros Hl [H|H]; unfold past_lc; rewrite Hl, trace_app, states_app; [left|right];
    apply elem_of_app; by left.
Qed.

Lemma past_lc_phase w x : inv w -> past_lc x w ->
  phase_of (states (trace x (log w))) = C_LOCAL_CONNECTING
  \/ phase_of (states (trace x (log w))) = C_ESTABLISHED.
Proof.
  intros Hinv Hp. destruct (inv_valid w x Hinv) as [Hv _].
  destruct Hp as [H|H]; [by apply valid_states_lc|right; by apply valid_states_est].
Qed.

Lemma past_lc_bevs w x c : inv w -> heap w !! x = Some c -> past_lc x w ->
  (exists lb, local_bev c = Some lb) /\ (exists rb, remote_bev c = Some rb).
Proof.
  intros Hinv Hx Hp. pose proof (inv_conn_ok w x c Hinv Hx) as (_ & _ & Hsh & _).
  destruct (past_lc_phase w x Hinv Hp) as [E|E]; rewrite E in Hsh; simpl in Hsh.
  - destruct Hsh as ((rb & Hrb & _) & (lb & Hlb & _) & _). eauto.
  - destruct Hsh as ((rb & Hrb & _) & (lb & Hlb & _) & _). eauto.
Qed.

Lemma past_lc_bev_of w x c s : inv w -> heap w !! x = Some c -> past_lc x w ->
  exists b, bev_of s c = Some b.
Proof. intros Hinv Hx Hp. destruct (past_lc_bevs w x c Hinv Hx Hp) as [[lb ?] [rb ?]]. destruct s; simpl; eauto. Qed.

Lemma step_frame w ev w' x :
  inv w -> step w ev = Some w' -> (x < next_ptr w)%positive ->
  (forall c, heap w !! x = Some c -> past_lc x w) ->
  (forall s d, ev = Ev_read x s d -> heap w !! x = None) ->
  fr (eq x) w w'.
Proof.
  intros Hinv Hs Hlt Hlc Hrd. unfold step in Hs. destruct (negb (loop_active w)); [done|].
  destruct ev as [a ok|y sd e res|y sd data|r result type count addrs|r|s|ppid].
  - assert (Hn : x <> next_ptr w) by lia. apply (fa_run _ _ _ _ (fa_new_ssl (eq x) a ok w Hn) Hs).
  - destruct (heap w !! y) as [c|]; [|done]. destruct (bev_of sd c) as [b|]; [|done].
    destruct (_ && _ && _); [|done].
    refine (fa_run _ _ _ _ _ Hs). apply fa_bind; [apply fa_bev_report|intros; apply fa_ssl_event_cb].
  - destruct (decide (y = x)) as [->|Hne].
    + by rewrite (Hrd sd data eq_refl) in Hs.
    + destruct (heap w !! y) as [c|]; [|done]. destruct (bev_of sd c) as [b|]; [|done].
      destruct (flag _ _); [|done].
      refine (fa_run _ _ _ _ _ Hs). apply fa_bind; [by apply fa_bev_fill|].
      intros. destruct (bev_readcb b); [by apply fa_pipe_cb|apply fa_ret].
  - destruct (list_find (fun q => q.1 = r) (dns_pending w)) as [[i [r' arg]]|] eqn:Hf; [|done].
    destruct (bool_decide _); [done|].
    apply list_find_in in Hf as [Hin _].
    destruct (pending_live w r' arg Hinv Hin) as (c & Hc & _ & Hph).
    assert (Hne : arg <> x).
    { intros ->. destruct (past_lc_phase w x Hinv (Hlc c Hc)) as [E|E]; congruence. }
    refine (fa_run _ _ _ _ _ Hs). apply fa_bind.
    + apply fa_put; [done|done|intros; done].
    + intros. apply fa_address_resolved. congruence.
  - destruct (list_find (fun q => q.1 = r) (dns_cancelled w)) as [[i [r' arg]]|] eqn:Hf; [|done].
    by rewrite (dns_cancelled_none w r i r' arg Hinv Hf) in Hs.
  - destruct (_ || _); [|done]. apply (fa_run _ _ _ _ (fa_shutdown_cb _ _ w) Hs).
  - destruct (watcher w); [done|]. apply (fa_run _ _ _ _ (fa_check_parent _ _ w) Hs).
Qed.

Lemma bev_fill_spec w x sd c b data :
  heap w !! x = Some c -> bev_of sd c = Some b ->
  bev_fill x sd data w = Some (tt, mkWorld
    (<[x := with_bev sd (Some (mkBev (bev_readcb b) (bev_enabled b) (bev_timeout b)
              (bev_connecting b) (bev_input b ++ data))) c]> (heap w))
    (connections w) (next_ptr w) (dns_pending w) (dns_cancelled w) (next_req w)
    (parent_pid w) (watcher w) (loop w) (log w)).
Proof.
  intros Hx Hb. unfold bev_fill, update_bev. munfold. mcbn. rewrite Hx. cbn beta iota.
  destruct sd; simpl in Hb; rewrite Hb; simpl; rewrite Hx; destruct c; reflexivity.
Qed.

Lemma read_world w x sd data c b w' :
  heap w !! x = Some c -> bev_of sd c = Some b -> step w (Ev_read x sd data) = Some w' ->
  w' = mkWorld
    (<[x := with_bev sd (Some (mkBev (bev_readcb b) (bev_enabled b) (bev_timeout b)
              (bev_connecting b)
              (if bev_readcb b then skipn BUFFER_LEN (bev_input b ++ data)
               else bev_input b ++ data))) c]> (heap w))
    (connections w) (next_ptr w) (dns_pending w) (dns_cancelled w) (next_req w)
    (parent_pid w) (watcher w) (loop w)
    (log w ++ if bev_readcb b then pipe_out x sd c (firstn BUFFER_LEN (bev_input b ++ data))
              else []).
Proof.
  intros Hx Hb Hs. destruct (loop_active w) eqn:Ha; [|unfold step in Hs; by rewrite Ha in Hs].
  destruct (flag (bev_enabled b) EV_READ) eqn:He;
    [|unfold step in Hs; rewrite Ha in Hs; simpl in Hs; rewrite Hx, Hb, He in Hs; done].
  destruct (bev_readcb b) eqn:Hr.
  - rewrite (read_step w x sd c b data Ha Hx Hb Hr He) in Hs. injection Hs as <-. by rewrite Hr.
  - unfold step in Hs. rewrite Ha in Hs. simpl in Hs. rewrite Hx, Hb, He, Hr in Hs.
    unfold run in Hs. rewrite (bind_some _ _ w tt _ (bev_fill_spec w x sd c b data Hx Hb)) in Hs.
    injection Hs as <-. by rewrite app_nil_r, Hr.
Qed.

Lemma dead_run x evs : forall w w', inv w -> (x < next_ptr w)%positive -> heap w !! x = None ->
  run_events w evs = Some w' -> heap w' !! x = None.
Proof.
  induction evs as [|ev evs IH]; simpl; intros w w' Hinv Hlt Hx Hr; [congruence|].
  destruct (step w ev) as [w1|] eqn:Hs; [|done].
  destruct (step_frame w ev w1 x Hinv Hs Hlt) as (Hn & _ & Hh).
  - intros c Hc. congruence.
  - intros. done.
  - apply (IH w1 w'); [by apply (step_inv w ev)|lia|by apply (Hh x eq_refl Hlt)|done].
Qed.

Lemma reads_on_other x sd ev evs :
  (forall s d, ev <> Ev_read x s d) -> reads_on x sd (ev :: evs) = reads_on x sd evs.
Proof.
  intros H. unfold reads_on. simpl. destruct ev; try reflexivity.
  case_bool_decide as Hc; [|reflexivity]. destruct Hc as [-> ->]. by destruct (H sd data).
Qed.

Lemma bev_of_with_ne s sd o c : s <> sd -> bev_of sd (with_bev s o c) = bev_of sd c.
Proof. intros H. destruct s, sd; try congruence; reflexivity. Qed.

Lemma other_ne sd : other sd <> sd.
Proof. by destruct sd. Qed.

Lemma live_run x sd evs : forall w w' c b, inv w -> heap w !! x = Some c -> past_lc x w ->
  bev_of sd c = Some b -> run_events w evs = Some w' ->
  forall c' b', heap w' !! x = Some c' -> bev_of sd c' = Some b' ->
  exists out, log w' = log w ++ out
    /\ Forall (fun ch => 0 < length ch <= BUFFER_LEN)%nat (writes_to x (other sd) out)
    /\ concat (writes_to x (other sd) out) ++ bev_input b' = bev_input b ++ concat (reads_on x sd evs).
Proof.
  induction evs as [|ev evs IH]; intros w w' c b Hinv Hx Hp Hb Hr c' b' Hx' Hb'; cbn [run_events] in Hr.
  - injection Hr as <-. rewrite Hx in Hx'. injection Hx' as <-. rewrite Hb in Hb'. injection Hb' as <-.
    exists []. split; [by rewrite app_nil_r|]. split; [constructor|]. simpl. by rewrite app_nil_r.
  - destruct (step w ev) as [w1|] eqn:Hs; [|done].
    pose proof (step_inv w ev w1 Hinv Hs) as Hinv1.
    pose proof (inv_live_fresh w x c Hinv Hx) as Hlt.
    destruct (past_lc_bevs w x c Hinv Hx Hp) as [[lb Hlb] [rb Hrb]].
    assert (Hread : (exists s d, ev = Ev_read x s d) \/ (forall s d, ev <> Ev_read x s d)).
    { destruct ev as [| |y s d| | | |]; try (right; intros ? ? ?; discriminate).
      destruct (decide (y = x)) as [->|Hne]; [left; eauto|right; intros ? ? [= ? _ _]; congruence]. }
    destruct Hread as [(s & d & ->)|Hnr].
    + assert (Hbs : exists bs, bev_of s c = Some bs) by (destruct s; simpl; eauto).
      destruct Hbs as [bs Hbs].
      pose proof (read_world w x s d c bs w1 Hx Hbs Hs) as Hw1.
      set (bs1 := mkBev (bev_readcb bs) (bev_enabled bs) (bev_timeout bs) (bev_connecting bs)
              (if bev_readcb bs then skipn BUFFER_LEN (bev_input bs ++ d) else bev_input bs ++ d)) in Hw1.
      set (es := if bev_readcb bs then pipe_out x s c (firstn BUFFER_LEN (bev_input bs ++ d)) else []) in Hw1.
      assert (Hx1 : heap w1 !! x = Some (with_bev s (Some bs1) c)) by (rewrite Hw1; apply lookup_insert_eq).
      assert (Hl1 : log w1 = log w ++ es) by (by rewrite Hw1).
      assert (Hp1 : past_lc x w1) by (by apply (past_lc_app x w w1 es)).
      destruct (decide (s = sd)) as [->|Hne].
      * rewrite Hb in Hbs. injection Hbs as <-.
        destruct (IH w1 w' (with_bev sd (Some bs1) c) bs1 Hinv1 Hx1 Hp1 (bev_of_with_same _ _ _) Hr c' b' Hx' Hb')
          as (out & Hlog & Hf & Hc).
        exists (es ++ out). rewrite Hlog, Hl1, app_assoc. split; [done|].
        unfold reads_on. simpl. rewrite bool_decide_true by done. fold (reads_on x sd evs). simpl.
        rewrite writes_to_app, concat_app, <- app_assoc, Hc, Forall_app.
        assert (Hob : is_Some (bev_of (other sd) c)) by (destruct sd; simpl; eauto).
        destruct Hob as [bo Hob].
        unfold es, bs1 in *. cbn [bev_input]. destruct (bev_readcb b).
        -- unfold pipe_out. rewrite Hob. case_bool_decide as Hlen.
           ++ assert (Hw0 : forall ch, writes_to x (other sd) [E_write x (other sd) ch] = [ch])
                by (intros ch; unfold writes_to; simpl; by rewrite bool_decide_true).
              rewrite Hw0. simpl.
              split; [split; [apply Forall_singleton; rewrite length_firstn in *; lia|done]|].
              rewrite app_nil_r, app_assoc, firstn_skipn, <- app_assoc. done.
           ++ assert (Hz : firstn BUFFER_LEN (bev_input b ++ d) = []) by (destruct (firstn _ _); [done|simpl in Hlen; lia]).
              simpl. split; [split; [constructor|done]|].
              pose proof (firstn_skipn BUFFER_LEN (bev_input b ++ d)) as E.
              rewrite Hz in E. simpl in E. rewrite E. by rewrite <- app_assoc.
        -- simpl. split; [split; [constructor|done]|]. by rewrite <- app_assoc.
      * assert (Hb1 : bev_of sd (with_bev s (Some bs1) c) = Some b) by (by rewrite bev_of_with_ne).
        destruct (IH w1 w' _ b Hinv1 Hx1 Hp1 Hb1 Hr c' b' Hx' Hb') as (out & Hlog & Hf & Hc).
        exists (es ++ out). rewrite Hlog, Hl1, app_assoc. split; [done|].
        unfold reads_on. simpl. rewrite bool_decide_false by naive_solver. fold (reads_on x sd evs).
        assert (Hw0 : writes_to x (other sd) es = []).
        { unfold es, pipe_out. destruct (bev_readcb bs); [|done].
          destruct (bev_of (other s) c); [|done]. case_bool_decide; [|done].
          unfold writes_to. simpl. rewrite bool_decide_false; [done|].
          intros [_ Hs']. destruct s, sd; simpl in *; congruence. }
        rewrite writes_to_app, Hw0. simpl. done.
    + destruct (step_frame w ev w1 x Hinv Hs Hlt) as (Hn & (es & Hl1 & Hwe) & Hh).
      { intros. done. }
      { intros s d ->. by destruct (Hnr s d). }
      destruct (Hh x eq_refl Hlt) as [_ Hv].
      destruct (Hv c Hx) as [Hd|(c1 & Hx1 & Hle)].
      * exfalso. assert (Hd' : heap w' !! x = None) by (apply (dead_run x evs w1 w' Hinv1); [lia|done|done]).
        congruence.
      * assert (Hp1 : past_lc x w1) by (by apply (past_lc_app x w w1 es)).
        destruct (past_lc_bev_of w1 x c1 sd Hinv1 Hx1 Hp1) as [b1 Hb1].
        assert (Hi : bev_input b1 = bev_input b).
        { destruct (Hle sd) as [H|H]; [congruence|]. rewrite Hb1, Hb in H. by injection H. }
        destruct (IH w1 w' c1 b1 Hinv1 Hx1 Hp1 Hb1 Hr c' b' Hx' Hb') as (out & Hlog & Hf & Hc).
        exists (es ++ out). rewrite Hlog, Hl1, app_assoc. split; [done|].
        rewrite reads_on_other by done. rewrite writes_to_app, Hwe by done. simpl. by rewrite <- Hi.
Qed.

Lemma last_elem_of {A} (l : list A) a : last l = Some a -> a ∈ l.
Proof. intros H. apply last_Some in H as [l' ->]. apply elem_of_app. right. by left. Qed.

(** C4: for a connection in C_ESTABLISHED both transports are present,
    and a readable event on side [sd] makes pipe_cb read at most BUFFER_LEN
    bytes (the first ones of the input) and write exactly those bytes, in
    order, to the other side, writing nothing when none was read; and for
    any sequence of events whatsoever (input on either side, other
    connections, resolver answers, signals, ...) after which the connection
    is still there, the byte strings written to the other side are each of
    1 to BUFFER_LEN bytes, and their concatenation followed by what is still
    buffered on side [sd] is the buffered input followed by all the input
    delivered to side [sd]: no byte is lost, duplicated or reordered, for
    any payload size. *)
Theorem relay_verbatim w x sd c b :
  reachable w -> heap w !! x = Some c -> state c = C_ESTABLISHED -> bev_of sd c = Some b ->
  is_Some (bev_of (other sd) c)
  /\ (loop_active w = true -> flag (bev_enabled b) EV_READ = true -> forall data,
       step w (Ev_read x sd data) = Some (mkWorld
         (<[x := with_bev sd (Some (mkBev (bev_readcb b) (bev_enabled b) (bev_timeout b)
                   (bev_connecting b) (skipn BUFFER_LEN (bev_input b ++ data)))) c]> (heap w))
         (connections w) (next_ptr w) (dns_pending w) (dns_cancelled w) (next_req w)
         (parent_pid w) (watcher w) (loop w)
         (log w ++ if bool_decide (0 < length (firstn BUFFER_LEN (bev_input b ++ data)))%nat
                   then [E_write x (other sd) (firstn BUFFER_LEN (bev_input b ++ data))]
                   else [])))
  /\ (forall evs w' c' b', run_events w evs = Some w' ->
       heap w' !! x = Some c' -> bev_of sd c' = Some b' ->
       exists out, log w' = log w ++ out
         /\ Forall (fun ch => 0 < length ch <= BUFFER_LEN)%nat (writes_to x (other sd) out)
         /\ concat (writes_to x (other sd) out) ++ bev_input b'
            = bev_input b ++ concat (reads_on x sd evs)).
Proof.
  intros Hr Hx Hst Hb. pose proof (reachable_inv w Hr) as Hinv.
  pose proof (inv_conn_ok w x c Hinv Hx) as (Hlast & _ & Hsh & _).
  assert (Hp : past_lc x w) by (right; rewrite <- Hst; by apply last_elem_of).
  rewrite (last_phase _ _ Hlast) in Hsh by (by rewrite Hst). rewrite Hst in Hsh.
  destruct Hsh as ((rb & Hrb & Hrr & _) & (lb & Hlb & Hlr & _) & _).
  assert (Hrd : bev_readcb b = true /\ is_Some (bev_of (other sd) c)).
  { destruct sd; simpl in *; [rewrite Hlb in Hb|rewrite Hrb in Hb]; injection Hb as <-;
      (split; [done|]); eexists; eassumption. }
  destruct Hrd as [Hrd Ho]. split; [done|]. split.
  - intros Ha He data. rewrite (read_step w x sd c b data Ha Hx Hb Hrd He).
    unfold pipe_out. destruct Ho as [bo Ho]. by rewrite Ho.
  - intros evs w' c' b' Hrun Hx' Hb'. by apply (live_run x sd evs w w' c b Hinv Hx Hp Hb Hrun c' b').
Qed.

Lemma relay_verbatim_witness :
  exists w c b w' c' b',
    run_events (init_world 100 Watch_pdeathsig) demo_est = Some w
    /\ heap w !! 1%positive = Some c /\ state c = C_ESTABLISHED /\ bev_of Remote c = Some b
    /\ run_events w demo_relay = Some w'
    /\ heap w' !! 1%positive = Some c' /\ bev_of Remote c' = Some b'
    /\ exists out, log w' = log w ++ out
       /\ Forall (fun ch => 0 < length ch <= BUFFER_LEN)%nat (writes_to 1 (other Remote) out)
       /\ concat (writes_to 1 (other Remote) out) ++ bev_input b'
          = bev_input b ++ concat (reads_on 1 Remote demo_relay).
Proof.
  do 6 eexists.
  split; [vm_compute; reflexivity|]. split; [vm_compute; reflexivity|].
  split; [vm_compute; reflexivity|]. split; [vm_compute; reflexivity|].
  split; [vm_compute; reflexivity|]. split; [vm_compute; reflexivity|].
  split; [vm_compute; reflexivity|].
  refine (proj2 (proj2 (relay_verbatim _ 1 Remote _ _ _ _ _ _)) demo_relay _ _ _ _ _ _).
  - apply (run_events_reachable (init_world 100 Watch_pdeathsig) demo_est); [apply reach_init|vm_compute; reflexivity].
  - vm_compute. reflexivity.
  - vm_compute. reflexivity.
  - vm_compute. reflexivity.
  - vm_compute. reflexivity.
  - vm_compute. reflexivity.
  - vm_compute. reflexivity.
Defined.

Lemma upd_delete_deleted w x c c' es :
  inv w -> heap w !! x = Some c -> next c' = next c -> prev c' = prev c ->
  Forall (fun e => eff_ptr e = x) es ->
  valid_states (states (trace x (log w) ++ es)) = true ->
  local_ok (trace x (log w) ++ es) ->
  pend_of x (dns_pending w) = pend_req x c' ->
  C_SHUTTINGDOWN ∉ states es \/ sd_last (states es) ->
  exists w', delete_conn x (mkWorld (<[x := c']> (heap w)) (connections w) (next_ptr w)
         (dns_pending w) (dns_cancelled w) (next_req w) (parent_pid w) (watcher w) (loop w)
         (log w ++ es)) = Some (tt, w') /\ inv w'
    /\ heap w' !! x = None /\ log w' = (log w ++ es) ++ free_effs x c'.
Proof.
  intros Hinv Hx Hn Hp Hes Hv Hl Hpr Hsd.
  pose proof (inv_conn_ok w x c Hinv Hx) as (_ & _ & _ & Hcanc & _).
  assert (Hi : inv_gen (Some x) (mkWorld (<[x := c']> (heap w)) (connections w) (next_ptr w)
         (dns_pending w) (dns_cancelled w) (next_req w) (parent_pid w) (watcher w) (loop w)
         (log w ++ es))).
  { apply (inv_update (Some x) w x c); auto.
    - apply (inv_req_nodup _ _ Hinv).
    - apply (inv_req_fresh _ _ Hinv).
    - rewrite bool_decide_true by done. auto.
    - intros Hr Hin. split; [done|]. pose proof (inv_running_live w x c Hinv Hx Hr) as Hno.
      rewrite states_app in Hin |- *. apply elem_of_app in Hin as [Hin|Hin]; [done|].
      destruct Hsd as [Hsd|(pre & Hpre & Hnp)]; [done|].
      exists (states (trace x (log w)) ++ pre). rewrite Hpre, app_assoc. split; [done|].
      rewrite elem_of_app. tauto. }
  destruct (delete_inv _ _ c' Hi) as (w' & Hd & Hw' & Hdel).
  { cbn [heap]. apply lookup_insert_eq. }
  destruct Hdel as (Hx' & _ & _ & _ & _ & _ & _ & _ & _ & Hlog).
  by exists w'.
Qed.

Lemma timeout_ssl_dead w x c b e res w' :
  inv w -> heap w !! x = Some c -> remote_bev c = Some b -> state c = C_SSL_CONNECTING ->
  flag e BEV_EVENT_CONNECTED = false -> flag e BEV_EVENT_TIMEOUT = true ->
  run (bev_report x Remote e;; ssl_event_cb x Remote e res) w = Some w' ->
  heap w' !! x = None /\ Forall (fun e => no_lookup_effect e = true) (trace x (log w')).
Proof.
  intros Hinv Hx Hrb Hst Hc1 Ht1 Hrun.
  pose proof (inv_conn_ok w x c Hinv Hx) as (Hlast & Hv & Hsh & Hcanc & Hl).
  pose proof (last_nonempty _ _ Hlast) as Hne.
  assert (Hph : phase_of (states (trace x (log w))) = C_SSL_CONNECTING).
  { rewrite <- Hst. apply last_phase; [done|by rewrite Hst]. }
  rewrite Hph in Hsh. destruct Hsh as (Hb & Hlb & Hrr & Hpd & Hh & Hi & Hfl).
  revert Hrun. unfold run, bev_report, ssl_event_cb. munfold.
  mrun_with ltac:(rewrite ?Hx, ?Hrb, ?Hc1, ?Ht1, ?Hlb, ?Hst).
  match goal with
  | |- context [delete_conn x (mkWorld (<[x:=?c']> (heap w)) _ _ _ _ _ _ _ _ (log w ++ ?es))] =>
      destruct (upd_delete_deleted w x c c' es) as (w1 & Hd & _ & Hx1 & Hlog1);
      [done|done|reflexivity|reflexivity|repeat constructor| | | | |]
  end.
  - rewrite states_app. simpl. by apply valid_app_sd.
  - apply local_ok_quiet; [done|done|]. simpl. set_solver.
  - unfold pend_req. simpl. by rewrite Hrr.
  - right. apply sd_last_single.
  - rewrite Hd. intros [= <-]. split; [done|]. rewrite Hlog1, !trace_app.
    rewrite (trace_own x (free_effs _ _)) by apply free_effs_own.
    rewrite (trace_own x (_ :: _)) by repeat constructor.
    apply Forall_app. split; [apply Forall_app; split; [done|repeat constructor]|].
    unfold free_effs. simpl. rewrite Hrr. constructor.
Qed.

Lemma timeout_only_ssl w x c sd b t :
  inv w -> heap w !! x = Some c -> bev_of sd c = Some b -> bev_timeout b = Some t ->
  sd = Remote /\ t = handshake_timeout
  /\ phase_of (states (trace x (log w))) = C_SSL_CONNECTING.
Proof.
  intros Hinv Hx Hb Ht.
  pose proof (inv_conn_ok w x c Hinv Hx) as (_ & _ & Hsh & _).
  destruct (phase_of (states (trace x (log w)))); simpl in Hsh; [| | | |contradiction].
  - destruct Hsh as ((rb & Hrb & _ & _ & Hrt) & Hlb & _).
    destruct sd; simpl in Hb; [congruence|]. rewrite Hrb in Hb. injection Hb as <-.
    rewrite Hrt in Ht. injection Ht as <-. done.
  - destruct Hsh as ((rb & Hrb & _ & _ & Hrt) & Hlb & _).
    destruct sd; simpl in Hb; [congruence|]. rewrite Hrb in Hb. injection Hb as <-. congruence.
  - destruct Hsh as ((rb & Hrb & _ & _ & Hrt) & (lb & Hlb & _ & _ & Hlt) & _).
    destruct sd; simpl in Hb; [rewrite Hlb in Hb|rewrite Hrb in Hb]; injection Hb as <-; congruence.
  - destruct Hsh as ((rb & Hrb & _ & _ & Hrt) & (lb & Hlb & _ & _ & Hlt) & _).
    destruct sd; simpl in Hb; [rewrite Hlb in Hb|rewrite Hrb in Hb]; injection Hb as <-; congruence.
Qed.

Lemma timeout_ignored w x c sd e res :
  heap w !! x = Some c -> state c <> C_SSL_CONNECTING ->
  flag e BEV_EVENT_CONNECTED = false -> flag e BEV_EVENT_TIMEOUT = true ->
  ssl_event_cb x sd e res w = Some (tt, w).
Proof.
  intros Hx Hst Hc Ht. unfold ssl_event_cb. munfold. rewrite Hx, Hc, Ht.
  by rewrite decide_False.
Qed.

(** C5: the only bufferevent timeout is the 60 second handshake timeout on the remote transport of a connection in SSL_CONNECTING; a timeout there destroys the connection with no local transport or resolver request in its history; a timeout event in any other state changes nothing. *)
Theorem handshake_timeout_ssl_only w x c :
  reachable w -> heap w !! x = Some c ->
  (phase_of (states (trace x (log w))) = C_SSL_CONNECTING ->
     exists b, remote_bev c = Some b /\ bev_timeout b = Some handshake_timeout)
  /\ (forall sd b t, bev_of sd c = Some b -> bev_timeout b = Some t ->
        sd = Remote /\ t = handshake_timeout
        /\ phase_of (states (trace x (log w))) = C_SSL_CONNECTING)
  /\ (forall e res w', state c = C_SSL_CONNECTING ->
        flag e BEV_EVENT_CONNECTED = false -> flag e BEV_EVENT_TIMEOUT = true ->
        step w (Ev_bev x Remote e res) = Some w' ->
        heap w' !! x = None
        /\ Forall (fun e => no_lookup_effect e = true) (trace x (log w')))
  /\ (forall sd e res, state c <> C_SSL_CONNECTING ->
        flag e BEV_EVENT_CONNECTED = false -> flag e BEV_EVENT_TIMEOUT = true ->
        ssl_event_cb x sd e res w = Some (tt, w)).
Proof.
  intros Hr Hx. pose proof (reachable_inv w Hr) as Hinv. split; [|split; [|split]].
  - intros Hph. pose proof (inv_conn_ok w x c Hinv Hx) as (_ & _ & Hsh & _).
    rewrite Hph in Hsh. destruct Hsh as ((b & Hb & _ & _ & Ht) & _). by exists b.
  - intros sd b t Hb Ht. by apply (timeout_only_ssl w x c sd b t).
  - intros e res w' Hst Hc Ht Hs. unfold step in Hs.
    destruct (negb (loop_active w)); [done|]. rewrite Hx in Hs. simpl in Hs.
    destruct (remote_bev c) as [b|] eqn:Hrb; [|done].
    destruct (_ && _ && _); [|done].
    by apply (timeout_ssl_dead w x c b e res w').
  - intros sd e res Hst Hc Ht. by apply (timeout_ignored w x c).
Qed.

Lemma handshake_timeout_ssl_only_witness :
  exists w c, run_events (init_world 100 Watch_pdeathsig) demo_accept = Some w
  /\ heap w !! 1%positive = Some c
  /\ phase_of (states (trace 1 (log w))) = C_SSL_CONNECTING
  /\ exists b, remote_bev c = Some b /\ bev_timeout b = Some handshake_timeout.
Proof.
  do 2 eexists. split; [vm_compute; reflexivity|]. split; [vm_compute; reflexivity|].
  split; [vm_compute; reflexivity|].
  refine (proj1 (handshake_timeout_ssl_only _ 1 _ _ _) _).
  - apply (run_events_reachable (init_world 100 Watch_pdeathsig) demo_accept); [apply reach_init|vm_compute; reflexivity].
  - vm_compute. reflexivity.
  - vm_compute. reflexivity.
Defined.

Lemma address_resolved_freed x w :
  heap w !! x = None -> address_resolved DNS_ERR_CANCEL 0 0 None x w = None.
Proof. intros Hx. unfold address_resolved. munfold. by rewrite Hx. Qed.

(** C6: a cancelled resolver request pending in libevent belongs to a connection already freed by free_conn, and running its DNS_ERR_CANCEL callback, address_resolved, writes through the freed pointer: undefined behaviour. *)
Theorem cancelled_callback_freed w r arg :
  reachable w -> (r, arg) ∈ dns_cancelled w ->
  heap w !! arg = None
  /\ address_resolved DNS_ERR_CANCEL 0 0 None arg w = None
  /\ (exists i, list_find (fun q => q.1 = r) (dns_cancelled w) = Some (i, (r, arg)))
  /\ step w (Ev_dns_cancelled r) = None.
Proof.
  intros Hr Hin. pose proof (reachable_inv w Hr) as Hinv.
  pose proof (cancelled_dead w r arg Hinv Hin) as Hd.
  assert (Hnd : NoDup (map fst (dns_cancelled w))).
  { pose proof (inv_req_nodup _ _ Hinv) as H. rewrite map_app in H.
    by apply NoDup_app in H as (_ & _ & ?). }
  destruct (list_find_req _ _ _ Hnd Hin) as [i Hi].
  split; [done|]. split; [by apply address_resolved_freed|]. split; [by exists i|].
  unfold step. destruct (negb (loop_active w)); [done|]. rewrite Hi.
  by apply (dns_cancelled_none w r i r arg).
Qed.

Lemma cancelled_callback_freed_witness :
  exists w, run_events (init_world 100 Watch_pdeathsig) demo_cancel = Some w
  /\ (1%positive, 1%positive) ∈ dns_cancelled w
  /\ heap w !! 1%positive = None
  /\ address_resolved DNS_ERR_CANCEL 0 0 None 1 w = None
  /\ (exists i, list_find (fun q => q.1 = 1%positive) (dns_cancelled w) = Some (i, (1%positive, 1%positive)))
  /\ step w (Ev_dns_cancelled 1) = None.
Proof.
  eexists. split; [vm_compute; reflexivity|].
  split; [apply list_elem_of_In; vm_compute; tauto|].
  apply cancelled_callback_freed.
  - apply (run_events_reachable (init_world 100 Watch_pdeathsig) demo_cancel); [apply reach_init|vm_compute; reflexivity].
  - apply list_elem_of_In. vm_compute. tauto.
Defined.

(** C7: address_resolved on a live connection with a result other than DNS_ERR_CANCEL sets remote_host to the first name on success or to the numeric ip on any failure, remote_ip to the numeric ip, clears resolver_req, moves to LOCAL_CONNECTING and starts a local connect. *)
Theorem address_resolved_fields w x c result type count addrs :
  heap w !! x = Some c -> result <> DNS_ERR_CANCEL ->
  (forall names, addrs = Some names -> count = Z.of_nat (length names)) ->
  exists host w' c',
    address_resolved result type count addrs x w = Some (tt, w')
    /\ heap w' !! x = Some c'
    /\ remote_host c' = Some host /\ remote_ip c' = Some (ip_convert (remote_addr c))
    /\ (forall name rest, result = DNS_ERR_NONE -> type = DNS_PTR ->
          addrs = Some (name :: rest) -> host = name)
    /\ (result <> DNS_ERR_NONE \/ type <> DNS_PTR \/ addrs = None \/ addrs = Some [] ->
          host = ip_convert (remote_addr c))
    /\ state c' = C_LOCAL_CONNECTING /\ resolver_req c' = None
    /\ (exists lb, local_bev c' = Some lb /\ bev_connecting lb = true)
    /\ log w' = log w ++ [E_state x C_LOCAL_CONNECTING; E_bev_new x Local].
Proof.
  intros Hx Hres Hcnt. unfold address_resolved. munfold.
  mrun_with ltac:(rewrite ?Hx). rewrite bool_decide_false by done.
  mrun_with ltac:(rewrite ?Hx).
  destruct (bool_decide (result ≠ DNS_ERR_NONE) || bool_decide (addrs = None)
            || bool_decide (type ≠ DNS_PTR) || bool_decide (count = 0)) eqn:Ec.
  - mrun_with ltac:(rewrite ?Hx).
    eexists (ip_convert (remote_addr c)), _, _. split; [reflexivity|].
    cbn [heap log]. rewrite lookup_insert_eq. split; [reflexivity|]. mcbn.
    split; [done|]. split; [done|]. split.
    + intros name rest Hr Ht Ha. exfalso. rewrite Ha in Hcnt.
      specialize (Hcnt _ eq_refl). simpl in Hcnt.
      rewrite (bool_decide_false (result ≠ DNS_ERR_NONE)), (bool_decide_false (addrs = None)),
        (bool_decide_false (type ≠ DNS_PTR)), (bool_decide_false (count = 0)) in Ec;
        [discriminate|lia|congruence|congruence|congruence].
    + split; [done|]. split; [done|]. split; [done|]. split; [by eexists|]. done.
  - repeat (apply orb_false_elim in Ec as [Ec ?]).
    destruct addrs as [[|name rest]|].
    + specialize (Hcnt _ eq_refl). simpl in Hcnt. exfalso.
      match goal with H : bool_decide (count = 0) = false |- _ =>
        apply bool_decide_eq_false in H end. lia.
    + mrun_with ltac:(rewrite ?Hx).
      eexists name, _, _. split; [reflexivity|].
      cbn [heap log]. rewrite lookup_insert_eq. split; [reflexivity|]. mcbn.
      split; [done|]. split; [done|]. split.
      * intros name' rest' _ _ [= -> ->]. done.
      * split; [|split; [done|split; [done|split; [by eexists|done]]]].
        intros Hf. exfalso.
        apply bool_decide_eq_false in Ec.
        repeat match goal with H : bool_decide _ = false |- _ => apply bool_decide_eq_false in H end.
        destruct Hf as [Hf|[Hf|[Hf|Hf]]]; [tauto|tauto|discriminate|discriminate].
    + exfalso. match goal with H : bool_decide (None = None) = false |- _ =>
        apply bool_decide_eq_false in H end. done.
Qed.

Lemma address_resolved_fields_witness :
  exists host w' c',
    address_resolved DNS_ERR_NONE DNS_PTR 1 (Some ["client.example"%string]) 1
      (mkWorld {[1%positive := mkConn C_HOSTNAME_LOOKUP demo_addr None None None None
                                 (Some 1%positive) None None]} (Some 1%positive) 2 [] [] 2
         100 Watch_pdeathsig Loop_running [])
    = Some (tt, w')
    /\ heap w' !! 1%positive = Some c'
    /\ remote_host c' = Some host /\ remote_ip c' = Some (ip_convert demo_addr)
    /\ (forall name rest, DNS_ERR_NONE = DNS_ERR_NONE -> DNS_PTR = DNS_PTR ->
          Some ["client.example"%string] = Some (name :: rest) -> host = name)
    /\ (DNS_ERR_NONE <> DNS_ERR_NONE \/ DNS_PTR <> DNS_PTR
        \/ Some ["client.example"%string] = None \/ Some ["client.example"%string] = Some [] ->
          host = ip_convert demo_addr)
    /\ state c' = C_LOCAL_CONNECTING /\ resolver_req c' = None
    /\ (exists lb, local_bev c' = Some lb /\ bev_connecting lb = true)
    /\ log w' = [] ++ [E_state 1 C_LOCAL_CONNECTING; E_bev_new 1 Local].
Proof.
  refine (address_resolved_fields
    (mkWorld {[1%positive := mkConn C_HOSTNAME_LOOKUP demo_addr None None None None
                               (Some 1%positive) None None]} (Some 1%positive) 2 [] [] 2
       100 Watch_pdeathsig Loop_running []) 1
    (mkConn C_HOSTNAME_LOOKUP demo_addr None None None None (Some 1%positive) None None)
    DNS_ERR_NONE DNS_PTR 1 (Some ["client.example"%string]) _ _ _).
  - vm_compute. reflexivity.
  - vm_compute. discriminate.
  - intros names [= <-]. reflexivity.
Defined.

Lemma registry_alloc w L c es :
  inv w -> registry w L -> next c = connections w -> prev c = None ->
  registry (acc_world w c es) (next_ptr w :: L).
Proof.
  intros Hinv ((p' & Hs) & Hnd & Hdom) Hn Hp. set (x := next_ptr w) in *.
  destruct (inv_fresh _ _ Hinv x ltac:(unfold x; lia)) as (Hx0 & _).
  assert (HxL : x ∉ L) by (intros H; apply Hdom in H; rewrite Hx0 in H; by destruct H).
  assert (Hlk : forall y, y <> x -> strip <$> link_heap (heap w) (connections w) x !! y
                                  = strip <$> heap w !! y).
  { intros y Hy. unfold link_heap. destruct (connections w) as [hd|]; [|done].
    destruct (heap w !! hd) as [hc|] eqn:E; [|done].
    destruct (decide (hd = y)) as [->|]; simplify_map_eq; [|done]. by rewrite strip_with_prev. }
  unfold acc_world. split; [|split].
  - cbn [heap connections]. unfold link_heap.
    destruct (connections w) as [hd|] eqn:Ec.
    + exists p'. apply (seg_cons _ x c); [by rewrite lookup_insert_eq|done|]. rewrite Hn.
      destruct L as [|hd' L']; [apply seg_nil_inv in Hs as [? _]; discriminate|].
      apply seg_cons_inv in Hs as ([= <-] & hc & Hhc & Hhp & Hs). rewrite Hhc.
      apply (seg_cons _ hd (with_prev (Some x) hc)).
      * rewrite lookup_insert_ne, lookup_insert_eq; [done|]. intros Heq. assert (heap w !! hd = None) by (rewrite <- Heq; exact Hx0). congruence.
      * done.
      * apply seg_frame with (h := heap w); [exact Hs|]. intros y Hy.
        apply NoDup_cons in Hnd as [Hhd _].
        rewrite !lookup_insert_ne; [done| |]; intros Heq; [subst y; done|]. apply HxL. right. rewrite <- Heq in Hy. exact Hy.
    + apply seg_end_none in Hs; [subst|done]. exists (Some x).
      apply (seg_cons _ x c); [by rewrite lookup_insert_eq|done|]. rewrite Hn. constructor.
  - by constructor.
  - intros y. cbn [heap]. destruct (decide (y = x)) as [->|Hyx].
    + rewrite lookup_insert_eq. split; [by left|by eexists].
    + rewrite lookup_insert_ne by exact (not_eq_sym Hyx). rewrite elem_of_cons.
      rewrite <- (fmap_is_Some strip), Hlk, fmap_is_Some, Hdom by done. intuition.
Qed.

Lemma registry_delete_inv w L1 x L2 :
  inv w -> registry w (L1 ++ x :: L2) ->
  exists w', delete_conn x w = Some (tt, w') /\ registry w' (L1 ++ L2)
    /\ heap w' !! x = None /\ delete_conn x w' = Some (tt, w').
Proof.
  intros Hinv Hreg. pose proof Hreg as (_ & Hnd & Hdom).
  destruct (proj2 (Hdom x) ltac:(set_solver)) as [cx Hx].
  pose proof (inv_conn_ok w x cx Hinv Hx) as (_ & _ & Hsh & _).
  pose proof (shape_pend _ _ _ _ _ Hsh) as Hpd.
  assert (Hr : forall r, resolver_req cx = Some r ->
     (r, x) ∈ dns_pending w /\ NoDup (map fst (dns_pending w))).
  { intros r Hr. split; [|apply (inv_nodup_pending _ _ Hinv)].
    unfold pend_req in Hpd. rewrite Hr in Hpd.
    assert (Hin : (r, x) ∈ pend_of x (dns_pending w)) by (rewrite Hpd; by left).
    by apply list_elem_of_filter in Hin as [_ ?]. }
  destruct (delete_conn_spec _ _ _ _ _ Hreg Hx Hr) as (w' & Hrun & Hreg' & Hdel).
  exists w'. split; [done|]. split; [done|]. split; [apply Hdel|].
  apply (delete_conn_absent _ _ _ Hreg').
  apply NoDup_app in Hnd as (_ & Hdisj & Hnd2). apply NoDup_cons in Hnd2 as [HxL2 _].
  rewrite elem_of_app. intros [H|H]; [|done]. apply (Hdisj x H). by left.
Qed.

(** C8: in every reachable world the connections list is a duplicate-free list of the live records; delete_conn of a pointer not in it changes nothing; delete_conn of a member removes exactly it, keeping the order of the others, and a second call is a no-op; accepting a connection and deleting it gives back the same list. *)
Theorem registry_roundtrip w :
  reachable w ->
  exists L, registry w L
  /\ (forall x, x ∉ L -> delete_conn x w = Some (tt, w))
  /\ (forall L1 x L2, L = L1 ++ x :: L2 ->
        exists w', delete_conn x w = Some (tt, w') /\ registry w' (L1 ++ L2)
          /\ heap w' !! x = None /\ delete_conn x w' = Some (tt, w'))
  /\ (forall a, exists w1 w2, new_ssl_conn_cb (Some a) true w = Some (tt, w1)
        /\ registry w1 (next_ptr w :: L)
        /\ delete_conn (next_ptr w) w1 = Some (tt, w2) /\ registry w2 L).
Proof.
  intros Hr. pose proof (reachable_inv w Hr) as Hinv.
  destruct (inv_registry _ _ Hinv) as (L & Hreg). exists L.
  split; [done|]. split; [intros x Hx; by apply (delete_conn_absent _ L)|].
  split; [intros L1 x L2 ->; by apply registry_delete_inv|].
  intros a. rewrite (acc_success w a Hinv).
  set (w1 := acc_world w _ _).
  assert (Hinv1 : inv w1).
  { apply (accept_inv w (Some a) true). done. unfold run. by rewrite (acc_success w a Hinv). }
  assert (Hreg1 : registry w1 (next_ptr w :: L)) by (apply registry_alloc; done).
  destruct (registry_delete_inv w1 [] (next_ptr w) L Hinv1 Hreg1) as (w2 & Hd & Hreg2 & _).
  exists w1, w2. done.
Qed.

Lemma registry_roundtrip_witness :
  exists w, run_events (init_world 100 Watch_pdeathsig) demo_accept = Some w
  /\ exists L, registry w L
  /\ (forall x, x ∉ L -> delete_conn x w = Some (tt, w))
  /\ (forall L1 x L2, L = L1 ++ x :: L2 ->
        exists w', delete_conn x w = Some (tt, w') /\ registry w' (L1 ++ L2)
          /\ heap w' !! x = None /\ delete_conn x w' = Some (tt, w'))
  /\ (forall a, exists w1 w2, new_ssl_conn_cb (Some a) true w = Some (tt, w1)
        /\ registry w1 (next_ptr w :: L)
        /\ delete_conn (next_ptr w) w1 = Some (tt, w2) /\ registry w2 L).
Proof.
  eexists. split; [vm_compute; reflexivity|].
  apply registry_roundtrip.
  apply (run_events_reachable (init_world 100 Watch_pdeathsig) demo_accept); [apply reach_init|vm_compute; reflexivity].
Defined.

Lemma free_conn_ub w x c r :
  heap w !! x = Some c -> resolver_req c = Some r -> dns_pending w = [] ->
  free_conn x w = None.
Proof.
  intros Hx Hr Hp. destruct c as [st ad h i lb rb rr n p]. simpl in Hr. subst rr.
  munfold. mcbn. rewrite Hx.
  destruct lb, rb; mcbn; simplify_map_eq; rewrite Hp; reflexivity.
Qed.

Lemma main_free_body n z w c :
  heap w !! z = Some c ->
  main_free_loop (S n) (Some z) w =
  (free_conn z ≫= fun _ => main_free_loop n (next c))
    (match remote_bev c with
     | Some _ => set_log (log w ++ [E_ssl_shutdown z]) w
     | None => w
     end).
Proof.
  intros Hz. cbn [main_free_loop]. cbv [mbind M_bind load mret M_ret SSL_shutdown emit].
  rewrite Hz. by destruct (remote_bev c).
Qed.

Lemma main_free_ub L : forall a p p' w n y cy r,
  seg (heap w) a p L None p' -> NoDup L -> (length L < n)%nat ->
  dns_pending w = [] -> y ∈ L -> heap w !! y = Some cy -> resolver_req cy = Some r ->
  main_free_loop n a w = None.
Proof.
  induction L as [|z L IH]; intros a p p' w n y cy r Hs Hnd Hn Hp Hy Hyc Hr; [set_solver|].
  apply seg_cons_inv in Hs as (-> & cz & Hz & _ & Hs).
  destruct n as [|n]; [simpl in Hn; lia|].
  rewrite (main_free_body n z w cz Hz).
  set (w1 := match remote_bev cz with
             | Some _ => set_log (log w ++ [E_ssl_shutdown z]) w
             | None => w
             end).
  assert (Hh1 : heap w1 = heap w) by (unfold w1; by destruct (remote_bev cz)).
  assert (Hp1 : dns_pending w1 = dns_pending w) by (unfold w1; by destruct (remote_bev cz)).
  destruct (resolver_req cz) as [rz|] eqn:Ez.
  - unfold mbind, M_bind. rewrite (free_conn_ub w1 z cz rz); [done|by rewrite Hh1|done|].
    by rewrite Hp1.
  - assert (Hyz : y <> z) by (intros ->; congruence).
    rewrite (bind_some _ _ _ _ _ (free_conn_spec w1 z cz ltac:(by rewrite Hh1)
               ltac:(intros ? Hq; rewrite Ez in Hq; discriminate))).
    apply NoDup_cons in Hnd as [HzL Hnd].
    apply (IH _ (Some z) p' _ n y cy r).
    + cbn [heap]. rewrite Hh1. apply seg_frame with (h := heap w); [done|].
      intros q Hq. rewrite lookup_delete_ne; [done|]. by intros <-.
    + done.
    + simpl in Hn. lia.
    + cbn [dns_pending]. unfold pend_after. by rewrite Ez, Hp1.
    + apply elem_of_cons in Hy as [->|]; done.
    + cbn [heap]. rewrite Hh1, lookup_delete_ne; [done|congruence].
    + done.
Qed.

Lemma main_free_ok L : forall a p p' w n,
  seg (heap w) a p L None p' -> NoDup L -> (length L < n)%nat ->
  (forall y cy, y ∈ L -> heap w !! y = Some cy -> resolver_req cy = None) ->
  exists w', main_free_loop n a w = Some (tt, w').
Proof.
  induction L as [|z L IH]; intros a p p' w n Hs Hnd Hn Hres.
  - apply seg_nil_inv in Hs as [<- _]. destruct n; eexists; reflexivity.
  - apply seg_cons_inv in Hs as (-> & cz & Hz & _ & Hs).
    destruct n as [|n]; [simpl in Hn; lia|].
    rewrite (main_free_body n z w cz Hz).
    set (w1 := match remote_bev cz with
               | Some _ => set_log (log w ++ [E_ssl_shutdown z]) w
               | None => w
               end).
    assert (Hh1 : heap w1 = heap w) by (unfold w1; by destruct (remote_bev cz)).
    assert (Ez : resolver_req cz = None) by (apply (Hres z); [left|done]).
    rewrite (bind_some _ _ _ _ _ (free_conn_spec w1 z cz ltac:(by rewrite Hh1)
               ltac:(intros ? Hq; rewrite Ez in Hq; discriminate))).
    apply NoDup_cons in Hnd as [HzL Hnd].
    apply (IH _ (Some z) p').
    + cbn [heap]. rewrite Hh1. apply seg_frame with (h := heap w); [done|].
      intros q Hq. rewrite lookup_delete_ne; [done|]. by intros <-.
    + done.
    + simpl in Hn. lia.
    + intros y cy Hy Hyc. cbn [heap] in Hyc. rewrite Hh1 in Hyc.
      apply lookup_delete_Some in Hyc as [_ Hyc]. apply (Hres y); [by right|done].
Qed.

Lemma evdns_base_free_then {A} (k : M A) w :
  (evdns_base_free;; k) w = k (set_dns [] (dns_cancelled w) w).
Proof. reflexivity. Qed.

Lemma main_shutdown_free w :
  main_shutdown w =
  match main_free_loop (S (size (heap w))) (connections w) (set_dns [] (dns_cancelled w) w) with
  | Some (_, w') => Some (EXIT_SUCCESS, w')
  | None => None
  end.
Proof. unfold main_shutdown. rewrite evdns_base_free_then. reflexivity. Qed.

Lemma main_shutdown_ub w r x : inv w -> (r, x) ∈ dns_pending w -> main_shutdown w = None.
Proof.
  intros Hinv Hin. destruct (pending_live w r x Hinv Hin) as (cx & Hx & Hr & _).
  destruct (inv_registry _ _ Hinv) as (L & Hreg).
  pose proof (registry_size _ _ Hreg) as Hsz.
  destruct Hreg as ((p' & Hs) & Hnd & Hdom).
  rewrite main_shutdown_free.
  rewrite (main_free_ub L (connections w) None p' (set_dns [] (dns_cancelled w) w)
             (S (size (heap w))) x cx r); [done|done|done|lia|done| |done|done].
  apply Hdom. by eexists.
Qed.

Lemma no_pending_no_resolver w y c :
  inv w -> dns_pending w = [] -> heap w !! y = Some c -> resolver_req c = None.
Proof.
  intros Hinv Hp Hy. pose proof (inv_conn_ok w y c Hinv Hy) as (_ & _ & Hsh & _).
  apply shape_pend in Hsh. rewrite Hp in Hsh. unfold pend_req in Hsh.
  destruct (resolver_req c); [discriminate|done].
Qed.

Lemma main_shutdown_ok w : inv w -> dns_pending w = [] ->
  exists w', main_shutdown w = Some (EXIT_SUCCESS, w').
Proof.
  intros Hinv Hp. destruct (inv_registry _ _ Hinv) as (L & Hreg).
  pose proof (registry_size _ _ Hreg) as Hsz.
  destruct Hreg as ((p' & Hs) & Hnd & _).
  rewrite main_shutdown_free.
  destruct (main_free_ok L (connections w) None p' (set_dns [] (dns_cancelled w) w)
             (S (size (heap w)))) as (w' & ->); [done|done|lia| |by exists w'].
  intros y cy _ Hy. by apply (no_pending_no_resolver w y cy).
Qed.

(** C9: when the poll watcher sees a parent pid other than the recorded one, check_parent puts every connection in SHUTTING_DOWN, disables reads and flushes only its remote transport, and breaks the loop; the shutdown in main then succeeds when no lookup is pending, and has undefined behaviour (evdns_cancel_request on the freed resolver base) when one is. *)
Theorem parent_death_shutdown w ppid period :
  reachable w -> loop_active w = true -> watcher w = Watch_poll period ->
  ppid <> parent_pid w ->
  exists w', step w (Ev_parent_timer ppid) = Some w'
  /\ loop w' = Loop_broken
  /\ heap w' = close_rec false <$> heap w
  /\ (forall y, trace y (log w') = trace y (log w) ++
        match heap w !! y with
        | Some c => E_state y C_SHUTTINGDOWN ::
                    match remote_bev c with
                    | Some _ => [E_disable y Remote EV_READ; E_flush y Remote]
                    | None => []
                    end
        | None => []
        end)
  /\ (forall r x, (r, x) ∈ dns_pending w -> main_shutdown w' = None)
  /\ (dns_pending w = [] -> exists w'', main_shutdown w' = Some (EXIT_SUCCESS, w'')).
Proof.
  intros Hr Ha Hw Hp. pose proof (reachable_inv w Hr) as Hinv.
  destruct (close_connections_spec w false Hinv) as (es & Hc & Htr).
  set (w' := mkWorld (close_rec false <$> heap w) (connections w) (next_ptr w) (dns_pending w)
               (dns_cancelled w) (next_req w) (parent_pid w) (watcher w) Loop_broken
               (log w ++ es)).
  assert (Hstep : step w (Ev_parent_timer ppid) = Some w').
  { unfold step. rewrite Ha, Hw. simpl. unfold run, check_parent.
    rewrite (bind_some _ _ _ _ _ (eq_refl : get w = Some (w, w))). cbv beta.
    rewrite bool_decide_true by done.
    rewrite (bind_some _ _ _ _ _ Hc). reflexivity. }
  assert (Hinv' : inv w') by (apply (step_inv w (Ev_parent_timer ppid)); done).
  exists w'. split; [done|]. split; [done|]. split; [done|]. split; [|split].
  - intros y. unfold w'. cbn [log]. rewrite trace_app, Htr.
    destruct (heap w !! y) as [c|]; [|done]. unfold close_effs. simpl.
    destruct (remote_bev c); simpl; by rewrite ?app_nil_r.
  - intros r x Hin. by apply (main_shutdown_ub w' r x).
  - intros Hp0. by apply main_shutdown_ok.
Qed.

Lemma parent_death_shutdown_witness :
  exists w w', run_events (init_world 100 (Watch_poll parent_timeout)) demo_lookup = Some w
  /\ step w (Ev_parent_timer 1) = Some w'
  /\ loop w' = Loop_broken
  /\ heap w' = close_rec false <$> heap w
  /\ main_shutdown w' = None.
Proof.
  assert (Hw : exists w, run_events (init_world 100 (Watch_poll parent_timeout)) demo_lookup
                         = Some w) by (eexists; vm_compute; reflexivity).
  destruct Hw as [w Hw].
  assert (Hr : reachable w).
  { apply (run_events_reachable (init_world 100 (Watch_poll parent_timeout)) demo_lookup);
      [apply reach_init|exact Hw]. }
  assert (Hin : (1%positive, 1%positive) ∈ dns_pending w).
  { assert (Hd : dns_pending w = [(1%positive, 1%positive)]).
    { revert Hw. vm_compute. intros [= <-]. reflexivity. }
    rewrite Hd. by left. }
  assert (Ha : loop_active w = true) by (revert Hw; vm_compute; intros [= <-]; reflexivity).
  assert (Hwt : watcher w = Watch_poll parent_timeout)
    by (revert Hw; vm_compute; intros [= <-]; reflexivity).
  assert (Hpp : 1 <> parent_pid w) by (revert Hw; vm_compute; intros [= <-]; discriminate).
  destruct (parent_death_shutdown w 1 parent_timeout Hr Ha Hwt Hpp)
    as (w' & Hs & Hl & Hh & _ & Hub & _).
  exists w, w'. repeat split; try done. exact (Hub _ _ Hin).
Defined.

(** C10: evdns_getnameinfo on an address of a family other than AF_INET and AF_INET6 returns NULL and issues no request; a live connection with such an address has no resolver request, nothing pending for it, and never enters LOCAL_CONNECTING. *)
Theorem unresolvable_no_lookup w x c :
  reachable w -> heap w !! x = Some c -> ~ resolvable (remote_addr c) ->
  (forall w0, evdns_getnameinfo x (remote_addr c) w0 = Some (None, w0))
  /\ (C_LOCAL_CONNECTING ∉ states (trace x (log w)))
  /\ resolver_req c = None
  /\ pend_of x (dns_pending w) = [].
Proof.
  intros Hr Hx Hnr. pose proof (reachable_inv w Hr) as Hinv.
  pose proof (inv_conn_ok w x c Hinv Hx) as (_ & Hv & Hsh & _).
  pose proof (shape_pend _ _ _ _ _ Hsh) as Hpd.
  assert (Hlc : C_LOCAL_CONNECTING ∉ states (trace x (log w))).
  { intros Hin. destruct (valid_states_lc _ Hv Hin) as [Hph|Hph]; rewrite Hph in Hsh;
      simpl in Hsh; tauto. }
  assert (Hrr : resolver_req c = None).
  { destruct (phase_of (states (trace x (log w)))); simpl in Hsh; try tauto.
    destruct Hsh as (_ & _ & _ & _ & _ & _ & Hres).
    destruct (resolver_req c) as [r|]; [|done]. exfalso. apply Hnr, Hres. by eexists. }
  split; [|split; [done|split; [done|]]].
  - intros w0. unfold evdns_getnameinfo. unfold resolvable in Hnr.
    rewrite !bool_decide_false by tauto. reflexivity.
  - rewrite Hpd. unfold pend_req. by rewrite Hrr.
Qed.

Lemma unresolvable_no_lookup_witness :
  exists w c, run_events (init_world 100 Watch_pdeathsig) demo_unresolvable = Some w
  /\ heap w !! 1%positive = Some c
  /\ state c = C_HOSTNAME_LOOKUP
  /\ resolver_req c = None
  /\ pend_of 1 (dns_pending w) = [].
Proof.
  do 2 eexists. split; [vm_compute; reflexivity|]. split; [vm_compute; reflexivity|].
  split; [vm_compute; reflexivity|].
  refine (proj2 (proj2 (unresolvable_no_lookup _ 1 _ _ _ _))).
  - apply (run_events_reachable (init_world 100 Watch_pdeathsig) demo_unresolvable);
      [apply reach_init|vm_compute; reflexivity].
  - vm_compute. reflexivity.
  - vm_compute. intros [H|H]; discriminate.
Defined.

(** * Further properties of the relay *)

Lemma head_prev_none w hd hc : inv w -> connections w = Some hd -> heap w !! hd = Some hc -> prev hc = None.
Proof.
  intros Hinv Hc Hh. destruct (inv_registry _ _ Hinv) as (L & (p' & Hs) & _ & _).
  rewrite Hc in Hs. destruct L as [|y L]; [apply seg_nil_inv in Hs as [? _]; discriminate|].
  apply seg_cons_inv in Hs as ([= <-] & c & Hc' & Hp & _). congruence.
Qed.

Lemma acc_delete w addr es :
  inv w ->
  delete_conn (next_ptr w) (acc_world w (acc_conn (connections w) addr) es)
  = Some (tt, mkWorld (heap w) (connections w) (next_ptr w + 1)%positive (dns_pending w)
                (dns_cancelled w) (next_req w) (parent_pid w) (watcher w) (loop w) (log w ++ es)).
Proof.
  intros Hinv. destruct (inv_fresh _ _ Hinv (next_ptr w) ltac:(lia)) as [Hx _].
  unfold delete_conn, acc_world, acc_conn, link_heap.
  cbv [mbind M_bind get]. cbn [heap connections delete_conn_loop].
  destruct (connections w) as [hd|] eqn:Ec.
  - destruct (conns_live w hd Hinv Ec) as (hc & Hhc & Hne).
    pose proof (head_prev_none w hd hc Hinv Ec Hhc) as Hp.
    rewrite Hhc. munfold. mcbn.
    repeat (mcbn; first [rewrite lookup_insert_eq | rewrite decide_True by done
            | rewrite lookup_insert_ne by congruence | rewrite Hhc]).
    mcbn. do 3 f_equal. apply map_eq. intros i.
    destruct (decide (i = next_ptr w)) as [->|]; [by rewrite lookup_delete_eq|].
    rewrite lookup_delete_ne by congruence.
    destruct (decide (i = hd)) as [->|]; simplify_map_eq; [|done].
    destruct hc; simpl in *; by subst.
  - munfold. repeat (mcbn; first [rewrite lookup_insert_eq | rewrite decide_True by done]).
    mcbn. do 3 f_equal. by rewrite delete_insert_eq, delete_id.
Qed.

(** X1: when accept fails or the peer address is missing, new_ssl_conn_cb
    allocates a connection, logs its first state and deletes it again:
    the registry, the lookups and every live connection are unchanged. *)
Theorem accept_failure_unchanged w a ok :
  reachable w -> a = None \/ ok = false ->
  new_ssl_conn_cb a ok w =
  Some (tt, mkWorld (heap w) (connections w) (next_ptr w + 1)%positive (dns_pending w)
              (dns_cancelled w) (next_req w) (parent_pid w) (watcher w) (loop w)
              (log w ++ [E_state (next_ptr w) C_SSL_CONNECTING])).
Proof.
  intros Hr Ha. pose proof (reachable_inv w Hr) as Hinv.
  rewrite new_conn_prefix by done. destruct a as [addr|].
  - destruct Ha as [Ha| ->]; [discriminate|]. rewrite acc_store. by apply acc_delete.
  - by apply acc_delete.
Qed.

Lemma accept_failure_unchanged_witness :
  exists w, run_events (init_world 100 Watch_pdeathsig) demo_accept = Some w
  /\ new_ssl_conn_cb (Some demo_addr) false w =
     Some (tt, mkWorld (heap w) (connections w) (next_ptr w + 1)%positive (dns_pending w)
                 (dns_cancelled w) (next_req w) (parent_pid w) (watcher w) (loop w)
                 (log w ++ [E_state (next_ptr w) C_SSL_CONNECTING])).
Proof.
  eexists. split; [vm_compute; reflexivity|].
  apply (accept_failure_unchanged _ (Some demo_addr) false); [|right; reflexivity].
  apply (run_events_reachable (init_world 100 Watch_pdeathsig) demo_accept); [apply reach_init|vm_compute; reflexivity].
Defined.

Lemma local_connecting_phase w x c lb :
  inv w -> heap w !! x = Some c -> local_bev c = Some lb -> bev_connecting lb = true ->
  phase_of (states (trace x (log w))) = C_LOCAL_CONNECTING.
Proof.
  intros Hinv Hx Hlb Hcn. pose proof (inv_conn_ok w x c Hinv Hx) as (_ & _ & Hsh & _).
  destruct (phase_of (states (trace x (log w)))); simpl in Hsh; [| |done| |contradiction].
  - destruct Hsh as (_ & H & _). congruence.
  - destruct Hsh as (_ & H & _). congruence.
  - destruct Hsh as (_ & (lb0 & H & _ & H' & _) & _). congruence.
Qed.

(** X4: when sending the host-id line on a new local connection fails, the
    connection is established, sends the line once and is freed with
    both transports; no other connection is affected. *)
Theorem local_send_failure w x c lb res :
  reachable w -> loop_active w = true -> heap w !! x = Some c -> local_bev c = Some lb ->
  bev_connecting lb = true -> res < 0 ->
  exists w' ip host, step w (Ev_bev x Local BEV_EVENT_CONNECTED res) = Some w'
  /\ heap w' !! x = None
  /\ remote_ip c = Some ip /\ remote_host c = Some host
  /\ trace x (log w') = trace x (log w) ++
       [E_state x C_ESTABLISHED; E_send x Local (hostid_line ip host) res;
        E_bev_free x Local; E_bev_free x Remote]
  /\ (forall y, y <> x -> trace y (log w') = trace y (log w)).
Proof.
  intros Hr Hla Hx Hlb Hcn Hres. pose proof (reachable_inv w Hr) as Hinv.
  pose proof (local_connecting_phase w x c lb Hinv Hx Hlb Hcn) as Hph.
  pose proof (inv_conn_ok w x c Hinv Hx) as (Hlast & Hv & Hsh & Hcanc & Hl).
  pose proof (last_nonempty _ _ Hlast) as Hne.
  pose proof (shape_pend _ _ _ _ _ Hsh) as Hpd.
  rewrite Hph in Hsh.
  destruct Hsh as ((b & Hrb & _) & _ & Hrr & _ & [host Hh] & [ip Hi] & _).
  assert (Hnest : C_ESTABLISHED ∉ states (trace x (log w))).
  { intros Hin. pose proof (valid_states_est _ Hv Hin). congruence. }
  assert (Ho : local_out (trace x (log w)) = []) by (apply Hl, Hnest).
  destruct (local_est_line (trace x (log w)) x ip host res Ho) as (Hlok & Hls).
  assert (Hes : states [E_state x C_ESTABLISHED; E_send x Local (hostid_line ip host) res]
                = [C_ESTABLISHED]) by reflexivity.
  assert (Hc1 : flag BEV_EVENT_CONNECTED BEV_EVENT_CONNECTED = true) by reflexivity.
  unfold step. rewrite Hla. cbn [negb]. rewrite Hx. cbn [bev_of]. rewrite Hlb.
  replace (bool_decide (BEV_EVENT_CONNECTED ∈ bev_event_flags) && _ && _) with true
    by (rewrite Hcn; vm_compute; reflexivity).
  unfold run, bev_report, ssl_event_cb, is_local_bev, local_connected.
  munfold.
  mrun_with ltac:(rewrite ?Hx, ?Hrb, ?Hc1, ?Hlb, ?Hh, ?Hi).
  rewrite bool_decide_true by done.
  match goal with
  | |- context [delete_conn x (mkWorld (<[x:=?c']> (heap w)) _ _ _ _ _ _ _ _ (log w ++ ?es))] =>
      destruct (upd_delete_deleted w x c c' es) as (w1 & Hd & _ & Hx1 & Hlog1);
      [done|done|reflexivity|reflexivity|repeat constructor| | | | |]
  end.
  - rewrite states_app, Hes, valid_states_snoc, Hv by done. simpl. by rewrite Hph.
  - exact Hlok.
  - unfold pend_req in *. by rewrite Hpd, Hrr.
  - left. simpl. set_solver.
  - rewrite Hd. exists w1, ip, host. split; [done|]. split; [done|].
    split; [done|]. split; [done|].
    rewrite Hlog1, !trace_app.
    rewrite (trace_own x (free_effs _ _)) by apply free_effs_own.
    rewrite (trace_own x (_ :: _)) by repeat constructor.
    split.
    + unfold free_effs. simpl. rewrite Hrr. by rewrite <- app_assoc.
    + intros y Hy. rewrite !trace_app. rewrite (trace_other x y (free_effs _ _)) by first [done | apply free_effs_own].
      rewrite (trace_other x y (_ :: _)) by first [done | repeat constructor].
      by rewrite !app_nil_r.
Qed.



Lemma local_send_failure_witness :
  exists w c lb, run_events (init_world 100 Watch_pdeathsig) demo_lc = Some w
  /\ heap w !! 1%positive = Some c /\ local_bev c = Some lb
  /\ exists w' ip host, step w (Ev_bev 1 Local BEV_EVENT_CONNECTED (-1)) = Some w'
  /\ heap w' !! 1%positive = None
  /\ remote_ip c = Some ip /\ remote_host c = Some host
  /\ trace 1 (log w') = trace 1 (log w) ++
       [E_state 1 C_ESTABLISHED; E_send 1 Local (hostid_line ip host) (-1);
        E_bev_free 1 Local; E_bev_free 1 Remote]
  /\ (forall y, y <> 1%positive -> trace y (log w') = trace y (log w)).
Proof.
  do 3 eexists. split; [vm_compute; reflexivity|].
  split; [vm_compute; reflexivity|]. split; [vm_compute; reflexivity|].
  eapply (local_send_failure _ 1 _ _ (-1)); [|vm_compute; reflexivity|vm_compute; reflexivity
    |vm_compute; reflexivity|vm_compute; reflexivity|lia].
  apply (run_events_reachable (init_world 100 Watch_pdeathsig) demo_lc); [apply reach_init|vm_compute; reflexivity].
Defined.

Lemma upd_delete_full w x c c' es :
  inv w -> heap w !! x = Some c -> next c' = next c -> prev c' = prev c ->
  Forall (fun e => eff_ptr e = x) es ->
  valid_states (states (trace x (log w) ++ es)) = true ->
  local_ok (trace x (log w) ++ es) ->
  pend_of x (dns_pending w) = pend_req x c' ->
  C_SHUTTINGDOWN ∉ states es \/ sd_last (states es) ->
  exists w', delete_conn x (mkWorld (<[x := c']> (heap w)) (connections w) (next_ptr w)
         (dns_pending w) (dns_cancelled w) (next_req w) (parent_pid w) (watcher w) (loop w)
         (log w ++ es)) = Some (tt, w') /\ inv w'
    /\ deleted x c' (mkWorld (<[x := c']> (heap w)) (connections w) (next_ptr w)
         (dns_pending w) (dns_cancelled w) (next_req w) (parent_pid w) (watcher w) (loop w)
         (log w ++ es)) w'.
Proof.
  intros Hinv Hx Hn Hp Hes Hv Hl Hpr Hsd.
  pose proof (inv_conn_ok w x c Hinv Hx) as (_ & _ & _ & Hcanc & _).
  assert (Hi : inv_gen (Some x) (mkWorld (<[x := c']> (heap w)) (connections w) (next_ptr w)
         (dns_pending w) (dns_cancelled w) (next_req w) (parent_pid w) (watcher w) (loop w)
         (log w ++ es))).
  { apply (inv_update (Some x) w x c); auto.
    - apply (inv_req_nodup _ _ Hinv).
    - apply (inv_req_fresh _ _ Hinv).
    - rewrite bool_decide_true by done. auto.
    - intros Hr Hin. split; [done|]. pose proof (inv_running_live w x c Hinv Hx Hr) as Hno.
      rewrite states_app in Hin |- *. apply elem_of_app in Hin as [Hin|Hin]; [done|].
      destruct Hsd as [Hsd|(pre & Hpre & Hnp)]; [done|].
      exists (states (trace x (log w)) ++ pre). rewrite Hpre, app_assoc. split; [done|].
      rewrite elem_of_app. tauto. }
  destruct (delete_inv _ _ c' Hi) as (w' & Hd & Hw' & Hdel).
  { cbn [heap]. apply lookup_insert_eq. }
  by exists w'.
Qed.

Lemma error_flags e : e ∈ bev_error_flags ->
  bool_decide (e ∈ bev_event_flags) = true /\ flag e BEV_EVENT_CONNECTED = false
  /\ flag e BEV_EVENT_TIMEOUT = false /\ flag e error_conditions = true.
Proof.
  unfold bev_error_flags. intros He.
  repeat (apply elem_of_cons in He as [He|He]; [subst e; vm_compute; tauto|]).
  by apply elem_of_nil in He.
Qed.

Lemma live_local_fields w x c :
  inv w -> heap w !! x = Some c -> is_Some (local_bev c) ->
  (exists b, remote_bev c = Some b) /\ resolver_req c = None
  /\ is_Some (remote_host c) /\ is_Some (remote_ip c).
Proof.
  intros Hinv Hx Hl. pose proof (inv_conn_ok w x c Hinv Hx) as (_ & _ & Hsh & _).
  destruct (phase_of (states (trace x (log w)))); simpl in Hsh; [| | | |contradiction].
  - destruct Hsh as (_ & H & _). rewrite H in Hl. by destruct Hl.
  - destruct Hsh as (_ & H & _). rewrite H in Hl. by destruct Hl.
  - destruct Hsh as ((b & Hb & _) & _ & Hr & _ & Hh & Hi & _). eauto.
  - destruct Hsh as ((b & Hb & _) & _ & Hr & _ & (h & i & Hh & Hi & _) & _). eauto.
Qed.

Lemma live_remote w x c : inv w -> heap w !! x = Some c -> exists b, remote_bev c = Some b.
Proof.
  intros Hinv Hx. pose proof (inv_conn_ok w x c Hinv Hx) as (_ & _ & Hsh & _).
  destruct (phase_of (states (trace x (log w)))); simpl in Hsh; [| | | |contradiction];
    destruct Hsh as ((b & Hb & _) & _); eauto.
Qed.

(** X5: an EOF or error on the local side disables and frees the local
    transport, flushes and shuts down TLS on the remote side, then frees
    the connection; other connections are unaffected. *)
Theorem local_error_teardown w x c lb e res :
  reachable w -> loop_active w = true -> heap w !! x = Some c -> local_bev c = Some lb ->
  e ∈ bev_error_flags ->
  exists w', step w (Ev_bev x Local e res) = Some w'
  /\ heap w' !! x = None
  /\ trace x (log w') = trace x (log w) ++
       [E_disable x Local (Z.lor EV_READ EV_WRITE); E_bev_free x Local;
        E_state x C_SHUTTINGDOWN; E_disable x Remote EV_READ; E_flush x Remote;
        E_ssl_shutdown x; E_bev_free x Remote]
  /\ dns_pending w' = dns_pending w
  /\ (forall y, y <> x -> trace y (log w') = trace y (log w)).
Proof.
  intros Hr Hla Hx Hlb He. pose proof (reachable_inv w Hr) as Hinv.
  destruct (error_flags e He) as (Hev & Hc1 & Ht1 & He1).
  destruct (live_local_fields w x c Hinv Hx ltac:(by rewrite Hlb)) as ((rb & Hrb) & Hrr & _ & _).
  pose proof (inv_conn_ok w x c Hinv Hx) as (Hlast & Hv & Hsh & Hcanc & Hl).
  pose proof (last_nonempty _ _ Hlast) as Hne.
  pose proof (shape_pend _ _ _ _ _ Hsh) as Hpd.
  unfold step. rewrite Hla. cbn [negb]. rewrite Hx. cbn [bev_of]. rewrite Hlb, Hev, Hc1, Ht1.
  cbn [negb orb andb].
  unfold run, bev_report, ssl_event_cb, is_local_bev. munfold.
  mrun_with ltac:(rewrite ?Hx, ?Hlb, ?Hrb, ?Hc1, ?Ht1, ?He1).
  match goal with
  | |- context [delete_conn x (mkWorld (<[x:=?c']> (heap w)) _ _ _ _ _ _ _ _ (log w ++ ?es))] =>
      destruct (upd_delete_full w x c c' es) as (w1 & Hd & _ & Hdel);
      [done|done|reflexivity|reflexivity|repeat constructor| | | | |]
  end.
  - rewrite states_app. simpl. by apply valid_app_sd.
  - apply local_ok_quiet; [done|done|]. simpl. set_solver.
  - unfold pend_req in *. by rewrite Hpd, Hrr.
  - right. apply sd_last_single.
  - rewrite Hd. destruct Hdel as (Hx1 & _ & _ & Hp1 & _ & _ & _ & _ & _ & Hlog1).
    exists w1. split; [done|]. split; [done|].
    cbn [log dns_pending] in Hlog1, Hp1.
    split; [|split].
    + rewrite Hlog1, !trace_app.
      rewrite (trace_own x (free_effs _ _)) by apply free_effs_own.
      rewrite (trace_own x (_ :: _)) by repeat constructor.
      unfold free_effs. simpl. rewrite Hrr. by rewrite <- app_assoc.
    + rewrite Hp1. unfold pend_after. simpl. by rewrite Hrr.
    + intros y Hy. rewrite Hlog1, !trace_app.
      rewrite (trace_other x y (free_effs _ _)) by first [done | apply free_effs_own].
      rewrite (trace_other x y (_ :: _)) by first [done | repeat constructor].
      by rewrite !app_nil_r.
Qed.

Lemma local_error_teardown_witness :
  exists w c lb, run_events (init_world 100 Watch_pdeathsig) demo_est = Some w
  /\ heap w !! 1%positive = Some c /\ local_bev c = Some lb
  /\ exists w', step w (Ev_bev 1 Local (Z.lor BEV_EVENT_EOF BEV_EVENT_READING) 0) = Some w'
  /\ heap w' !! 1%positive = None
  /\ trace 1 (log w') = trace 1 (log w) ++
       [E_disable 1 Local (Z.lor EV_READ EV_WRITE); E_bev_free 1 Local;
        E_state 1 C_SHUTTINGDOWN; E_disable 1 Remote EV_READ; E_flush 1 Remote;
        E_ssl_shutdown 1; E_bev_free 1 Remote]
  /\ dns_pending w' = dns_pending w
  /\ (forall y, y <> 1%positive -> trace y (log w') = trace y (log w)).
Proof.
  do 3 eexists. split; [vm_compute; reflexivity|].
  split; [vm_compute; reflexivity|]. split; [vm_compute; reflexivity|].
  eapply (local_error_teardown _ 1); [|vm_compute; reflexivity|vm_compute; reflexivity
    |vm_compute; reflexivity|left].
  apply (run_events_reachable (init_world 100 Watch_pdeathsig) demo_est); [apply reach_init|vm_compute; reflexivity].
Defined.

(** X6: an EOF or error on the remote side frees the remote transport,
    flushes the local one if present, cancels a pending lookup and frees
    the connection; other connections are unaffected. *)
Theorem remote_error_teardown w x c rb e res :
  reachable w -> loop_active w = true -> heap w !! x = Some c -> remote_bev c = Some rb ->
  e ∈ bev_error_flags ->
  exists w', step w (Ev_bev x Remote e res) = Some w'
  /\ heap w' !! x = None
  /\ trace x (log w') = trace x (log w) ++
       [E_disable x Remote (Z.lor EV_READ EV_WRITE); E_bev_free x Remote;
        E_state x C_SHUTTINGDOWN]
       ++ (match local_bev c with
           | Some _ => [E_disable x Local EV_READ; E_flush x Local; E_bev_free x Local]
           | None => [] end)
       ++ (match resolver_req c with Some r => [E_cancel x r] | None => [] end)
  /\ dns_pending w' = pend_after c (dns_pending w)
  /\ dns_cancelled w' = dns_cancelled w ++ pend_req x c
  /\ (forall y, y <> x -> trace y (log w') = trace y (log w)).
Proof.
  intros Hr Hla Hx Hrb He. pose proof (reachable_inv w Hr) as Hinv.
  destruct (error_flags e He) as (Hev & Hc1 & Ht1 & He1).
  pose proof (inv_conn_ok w x c Hinv Hx) as (Hlast & Hv & Hsh & Hcanc & Hl).
  pose proof (last_nonempty _ _ Hlast) as Hne.
  pose proof (shape_pend _ _ _ _ _ Hsh) as Hpd.
  unfold step. rewrite Hla. cbn [negb]. rewrite Hx. cbn [bev_of]. rewrite Hrb, Hev, Hc1, Ht1.
  cbn [negb orb andb].
  unfold run, bev_report, ssl_event_cb, is_local_bev. munfold.
  destruct (local_bev c) as [lb|] eqn:Hlb;
  (mrun_with ltac:(rewrite ?Hx, ?Hlb, ?Hrb, ?Hc1, ?Ht1, ?He1);
  (match goal with
  | |- context [delete_conn x (mkWorld (<[x:=?c']> (heap w)) _ _ _ _ _ _ _ _ (log w ++ ?es))] =>
      destruct (upd_delete_full w x c c' es) as (w1 & Hd & _ & Hdel);
      [done|done|reflexivity|reflexivity|repeat constructor| | | | |]
  end);
  [ rewrite states_app; simpl; by apply valid_app_sd
  | apply local_ok_quiet; [done|done|]; simpl; set_solver
  | unfold pend_req in *; by rewrite Hpd
  | right; apply sd_last_single
  | ]).
  - rewrite Hd. destruct Hdel as (Hx1 & _ & _ & Hp1 & Hc1' & _ & _ & _ & _ & Hlog1).
    exists w1. split; [done|]. split; [done|].
    cbn [log dns_pending dns_cancelled] in Hlog1, Hp1, Hc1'.
    split; [|split; [|split]].
    + rewrite Hlog1, !trace_app.
      rewrite (trace_own x (free_effs _ _)) by apply free_effs_own.
      rewrite (trace_own x (_ :: _)) by repeat constructor.
      unfold free_effs. simpl. rewrite <- !app_assoc. done.
    + rewrite Hp1. done.
    + rewrite Hc1'. done.
    + intros y Hy. rewrite Hlog1, !trace_app.
      rewrite (trace_other x y (free_effs _ _)) by first [done | apply free_effs_own].
      rewrite (trace_other x y (_ :: _)) by first [done | repeat constructor].
      by rewrite !app_nil_r.
  - rewrite Hd. destruct Hdel as (Hx1 & _ & _ & Hp1 & Hc1' & _ & _ & _ & _ & Hlog1).
    exists w1. split; [done|]. split; [done|].
    cbn [log dns_pending dns_cancelled] in Hlog1, Hp1, Hc1'.
    split; [|split; [|split]].
    + rewrite Hlog1, !trace_app.
      rewrite (trace_own x (free_effs _ _)) by apply free_effs_own.
      rewrite (trace_own x (_ :: _)) by repeat constructor.
      unfold free_effs. simpl. rewrite <- !app_assoc. done.
    + rewrite Hp1. done.
    + rewrite Hc1'. done.
    + intros y Hy. rewrite Hlog1, !trace_app.
      rewrite (trace_other x y (free_effs _ _)) by first [done | apply free_effs_own].
      rewrite (trace_other x y (_ :: _)) by first [done | repeat constructor].
      by rewrite !app_nil_r.
Qed.

Lemma remote_error_teardown_witness :
  exists w c rb, run_events (init_world 100 Watch_pdeathsig) demo_lookup = Some w
  /\ heap w !! 1%positive = Some c /\ remote_bev c = Some rb
  /\ exists w', step w (Ev_bev 1 Remote (Z.lor BEV_EVENT_EOF BEV_EVENT_READING) 0) = Some w'
  /\ heap w' !! 1%positive = None
  /\ trace 1 (log w') = trace 1 (log w) ++
       [E_disable 1 Remote (Z.lor EV_READ EV_WRITE); E_bev_free 1 Remote;
        E_state 1 C_SHUTTINGDOWN]
       ++ (match local_bev c with
           | Some _ => [E_disable 1 Local EV_READ; E_flush 1 Local; E_bev_free 1 Local]
           | None => [] end)
       ++ (match resolver_req c with Some r => [E_cancel 1 r] | None => [] end)
  /\ dns_pending w' = pend_after c (dns_pending w)
  /\ dns_cancelled w' = dns_cancelled w ++ pend_req 1 c
  /\ (forall y, y <> 1%positive -> trace y (log w') = trace y (log w)).
Proof.
  do 3 eexists. split; [vm_compute; reflexivity|].
  split; [vm_compute; reflexivity|]. split; [vm_compute; reflexivity|].
  eapply (remote_error_teardown _ 1); [|vm_compute; reflexivity|vm_compute; reflexivity
    |vm_compute; reflexivity|left].
  apply (run_events_reachable (init_world 100 Watch_pdeathsig) demo_lookup); [apply reach_init|vm_compute; reflexivity].
Defined.

(** X7: SIGTERM, or SIGUSR1 under the parent-death watcher, ends the event
    loop and closes every connection with its local transport flushed,
    without freeing any of them. *)
Theorem signal_shutdown w s :
  reachable w -> loop_active w = true ->
  s = SIGTERM \/ (s = SIGUSR1 /\ watcher w = Watch_pdeathsig) ->
  exists w', step w (Ev_signal s) = Some w'
  /\ loop w' = Loop_exiting
  /\ heap w' = close_rec true <$> heap w
  /\ connections w' = connections w
  /\ dns_pending w' = dns_pending w /\ dns_cancelled w' = dns_cancelled w
  /\ (forall y, trace y (log w') = trace y (log w) ++
        match heap w !! y with Some c => close_effs true y c | None => [] end).
Proof.
  intros Hr Ha Hs. pose proof (reachable_inv w Hr) as Hinv.
  destruct (close_connections_spec w true Hinv) as (es & Hc & Htr).
  assert (Hg : bool_decide (s = SIGTERM)
               || (bool_decide (s = SIGUSR1) && bool_decide (watcher w = Watch_pdeathsig)) = true).
  { destruct Hs as [->|[-> Hw]]; [done|]. rewrite Hw. done. }
  unfold step. rewrite Ha, Hg. cbn [negb]. unfold run, shutdown_cb.
  rewrite (bool_decide_false (EV_SIGNAL = SIGTERM)) by done.
  rewrite (bool_decide_false (EV_SIGNAL = SIGUSR1)) by done.
  rewrite (bind_some _ _ _ _ _ Hc). unfold event_base_loopexit. munfold. mcbn.
  unfold loop_active in Ha.
  destruct (loop w) eqn:El; [| |discriminate]; (eexists; split; [reflexivity|]);
    cbn [heap connections dns_pending dns_cancelled log loop set_loop];
    (split; [done|]); (split; [done|]); (split; [done|]); (split; [done|]); (split; [done|]);
    intros y; by rewrite trace_app, Htr.
Qed.

Lemma signal_shutdown_witness :
  exists w, run_events (init_world 100 Watch_pdeathsig) demo_est = Some w
  /\ exists w', step w (Ev_signal SIGUSR1) = Some w'
  /\ loop w' = Loop_exiting
  /\ heap w' = close_rec true <$> heap w
  /\ connections w' = connections w
  /\ dns_pending w' = dns_pending w /\ dns_cancelled w' = dns_cancelled w
  /\ (forall y, trace y (log w') = trace y (log w) ++
        match heap w !! y with Some c => close_effs true y c | None => [] end).
Proof.
  eexists. split; [vm_compute; reflexivity|].
  apply (signal_shutdown _ SIGUSR1); [|vm_compute; reflexivity|right; split; [reflexivity|vm_compute; reflexivity]].
  apply (run_events_reachable (init_world 100 Watch_pdeathsig) demo_est); [apply reach_init|vm_compute; reflexivity].
Defined.

(** X8: a lookup is pending for a connection exactly when that live
    connection records it as its resolver request. *)
Theorem pending_iff_resolver w r x :
  reachable w ->
  (r, x) ∈ dns_pending w <-> exists c, heap w !! x = Some c /\ resolver_req c = Some r.
Proof.
  intros Hr. pose proof (reachable_inv w Hr) as Hinv. split.
  - intros Hin. destruct (pending_live w r x Hinv Hin) as (c & Hx & Hrr & _). eauto.
  - intros (c & Hx & Hrr). pose proof (inv_conn_ok w x c Hinv Hx) as (_ & _ & Hsh & _).
    apply shape_pend in Hsh. unfold pend_req in Hsh. rewrite Hrr in Hsh.
    assert (Hin : (r, x) ∈ pend_of x (dns_pending w)) by (rewrite Hsh; by left).
    by apply list_elem_of_filter in Hin as [_ ?].
Qed.

Lemma pending_iff_resolver_witness :
  exists w, run_events (init_world 100 Watch_pdeathsig) demo_lookup = Some w
  /\ ((1%positive, 1%positive) ∈ dns_pending w <->
      exists c, heap w !! 1%positive = Some c /\ resolver_req c = Some 1%positive).
Proof.
  eexists. split; [vm_compute; reflexivity|].
  apply pending_iff_resolver.
  apply (run_events_reachable (init_world 100 Watch_pdeathsig) demo_lookup); [apply reach_init|vm_compute; reflexivity].
Defined.

(** X9: a connection has at most one pending lookup, and a freed one has
    none. *)
Theorem one_lookup_per_conn w x :
  reachable w -> (length (pend_of x (dns_pending w)) <= 1)%nat
  /\ (heap w !! x = None -> pend_of x (dns_pending w) = []).
Proof.
  intros Hr. pose proof (reachable_inv w Hr) as Hinv.
  destruct (heap w !! x) as [c|] eqn:Hx.
  - pose proof (inv_conn_ok w x c Hinv Hx) as (_ & _ & Hsh & _).
    apply shape_pend in Hsh. rewrite Hsh. unfold pend_req.
    split; [destruct (resolver_req c); simpl; lia|done].
  - destruct (inv_dead _ _ Hinv x Hx) as (Hp & _). rewrite Hp. split; [simpl; lia|done].
Qed.

Lemma one_lookup_per_conn_witness :
  exists w, run_events (init_world 100 Watch_pdeathsig) demo_cancel = Some w
  /\ (length (pend_of 1 (dns_pending w)) <= 1)%nat
  /\ (heap w !! 1%positive = None -> pend_of 1 (dns_pending w) = []).
Proof.
  eexists. split; [vm_compute; reflexivity|].
  apply one_lookup_per_conn.
  apply (run_events_reachable (init_world 100 Watch_pdeathsig) demo_cancel); [apply reach_init|vm_compute; reflexivity].
Defined.

(** X10: every live connection has its remote transport; one with a local
    transport has its host name and address and no lookup; one waiting
    for a lookup has no local transport; host and address are set together. *)
Theorem live_conn_fields w x c :
  reachable w -> heap w !! x = Some c ->
  is_Some (remote_bev c)
  /\ (is_Some (local_bev c) ->
        is_Some (remote_host c) /\ is_Some (remote_ip c) /\ resolver_req c = None
        /\ resolvable (remote_addr c))
  /\ (is_Some (resolver_req c) -> local_bev c = None /\ resolvable (remote_addr c))
  /\ (remote_host c = None <-> remote_ip c = None).
Proof.
  intros Hr Hx. pose proof (reachable_inv w Hr) as Hinv.
  pose proof (inv_conn_ok w x c Hinv Hx) as (_ & _ & Hsh & _).
  destruct (phase_of (states (trace x (log w)))); simpl in Hsh; [| | | |contradiction].
  - destruct Hsh as ((b & Hb & _) & Hl & Hrr & _ & Hh & Hi & _).
    rewrite Hb, Hl, Hrr, Hh, Hi. split; [by eexists|]. split; [by intros []|].
    split; [by intros []|done].
  - destruct Hsh as ((b & Hb & _) & Hl & _ & Hh & Hi & _ & Hres).
    rewrite Hb, Hl, Hh, Hi. split; [by eexists|]. split; [by intros []|].
    split; [intros H; split; [done|by apply Hres]|done].
  - destruct Hsh as ((b & Hb & _) & (lb & Hl & _) & Hrr & _ & [h Hh] & [i Hi] & Hres).
    rewrite Hb, Hl, Hrr, Hh, Hi. split; [by eexists|]. split; [intros _; eauto|].
    split; [by intros []|done].
  - destruct Hsh as ((b & Hb & _) & (lb & Hl & _) & Hrr & _ & (h & i & Hh & Hi & _) & Hres).
    rewrite Hb, Hl, Hrr, Hh, Hi. split; [by eexists|]. split; [intros _; eauto|].
    split; [by intros []|done].
Qed.

Lemma live_conn_fields_witness :
  exists w c, run_events (init_world 100 Watch_pdeathsig) demo_est = Some w
  /\ heap w !! 1%positive = Some c
  /\ is_Some (remote_bev c)
  /\ (is_Some (local_bev c) ->
        is_Some (remote_host c) /\ is_Some (remote_ip c) /\ resolver_req c = None
        /\ resolvable (remote_addr c))
  /\ (is_Some (resolver_req c) -> local_bev c = None /\ resolvable (remote_addr c))
  /\ (remote_host c = None <-> remote_ip c = None).
Proof.
  assert (Hw : exists w, run_events (init_world 100 Watch_pdeathsig) demo_est = Some w)
    by (eexists; vm_compute; reflexivity).
  destruct Hw as [w Hw].
  assert (Hx : exists c, heap w !! 1%positive = Some c)
    by (revert Hw; vm_compute; intros [= <-]; eexists; reflexivity).
  destruct Hx as [c Hx]. exists w, c. split; [done|]. split; [done|].
  apply (live_conn_fields w 1 c); [|done].
  apply (run_events_reachable (init_world 100 Watch_pdeathsig) demo_est); [apply reach_init|exact Hw].
Defined.


Lemma shutdown_effs_own y c : Forall (fun e => eff_ptr e = y) (shutdown_effs y c).
Proof.
  unfold shutdown_effs. apply Forall_app. split; [destruct (remote_bev c); repeat constructor|].
  apply free_effs_own.
Qed.

Lemma main_free_spec L : forall a p p' w n,
  seg (heap w) a p L None p' -> NoDup L -> (length L < n)%nat ->
  (forall y cy, y ∈ L -> heap w !! y = Some cy -> resolver_req cy = None) ->
  exists h' es, main_free_loop n a w =
    Some (tt, mkWorld h' (connections w) (next_ptr w) (dns_pending w) (dns_cancelled w)
                (next_req w) (parent_pid w) (watcher w) (loop w) (log w ++ es))
  /\ (forall y, h' !! y = if bool_decide (y ∈ L) then None else heap w !! y)
  /\ (forall y, trace y es = if bool_decide (y ∈ L)
        then match heap w !! y with Some c => shutdown_effs y c | None => [] end
        else []).
Proof.
  induction L as [|z L IH]; intros a p p' w n Hs Hnd Hn Hres.
  - apply seg_nil_inv in Hs as [<- _]. exists (heap w), [].
    split; [destruct n; rewrite app_nil_r; cbn; by rewrite <- world_eta|].
    split; intros y; rewrite bool_decide_false by set_solver; done.
  - apply seg_cons_inv in Hs as (-> & cz & Hz & _ & Hs).
    destruct n as [|n]; [simpl in Hn; lia|].
    rewrite (main_free_body n z w cz Hz).
    set (w1 := match remote_bev cz with
               | Some _ => set_log (log w ++ [E_ssl_shutdown z]) w
               | None => w
               end).
    assert (Hh1 : heap w1 = heap w) by (unfold w1; by destruct (remote_bev cz)).
    assert (Ez : resolver_req cz = None) by (apply (Hres z); [left|done]).
    rewrite (bind_some _ _ _ _ _ (free_conn_spec w1 z cz ltac:(by rewrite Hh1)
               ltac:(intros ? Hq; rewrite Ez in Hq; discriminate))).
    apply NoDup_cons in Hnd as [HzL Hnd].
    match goal with |- context [main_free_loop n (next cz) ?W] =>
      destruct (IH (next cz) (Some z) p' W n) as (h' & es & Hrun & Hh' & Ht) end.
    + cbn [heap]. rewrite Hh1. apply seg_frame with (h := heap w); [exact Hs|].
      intros q Hq. rewrite lookup_delete_ne; [done|]. by intros <-.
    + exact Hnd.
    + simpl in Hn. lia.
    + intros y cy Hy Hyc. cbn [heap] in Hyc. rewrite Hh1 in Hyc.
      apply lookup_delete_Some in Hyc as [_ Hyc]. apply (Hres y); [by right|done].
    + rewrite Hrun. exists h', (shutdown_effs z cz ++ es).
      split; [|split].
      * cbn [heap connections next_ptr dns_pending dns_cancelled next_req parent_pid watcher loop log].
        unfold pend_after, pend_req. rewrite Ez, app_nil_r. unfold shutdown_effs, w1.
        destruct (remote_bev cz); cbn [heap connections next_ptr dns_pending dns_cancelled next_req
          parent_pid watcher loop log set_log]; by rewrite <- !app_assoc.
      * intros y. rewrite Hh'. cbn [heap]. rewrite Hh1. destruct (decide (y = z)) as [->|Hyz].
        -- rewrite (bool_decide_false (z ∈ L)) by done.
           rewrite (bool_decide_true (z ∈ z :: L)) by set_solver. by rewrite lookup_delete_eq.
        -- rewrite lookup_delete_ne by congruence.
           by rewrite (bool_decide_ext (y ∈ z :: L) (y ∈ L)) by set_solver.
      * intros y. rewrite trace_app, Ht. cbn [heap]. rewrite Hh1.
        destruct (decide (y = z)) as [->|Hyz].
        -- rewrite (bool_decide_false (z ∈ L)) by done.
           rewrite (bool_decide_true (z ∈ z :: L)) by set_solver. rewrite Hz, app_nil_r.
           apply trace_own, shutdown_effs_own.
        -- rewrite (trace_other z y) by first [apply shutdown_effs_own | done].
           rewrite lookup_delete_ne by congruence. cbn [app].
           by rewrite (bool_decide_ext (y ∈ z :: L) (y ∈ L)) by set_solver.
Qed.

(** X11: with no lookup pending, main's exit path frees every connection
    (shutting down TLS on the remote side first) and returns EXIT_SUCCESS. *)
Theorem main_shutdown_frees w :
  reachable w -> dns_pending w = [] ->
  exists w', main_shutdown w = Some (EXIT_SUCCESS, w')
  /\ heap w' = ∅ /\ dns_pending w' = [] /\ dns_cancelled w' = dns_cancelled w
  /\ (forall y, trace y (log w') = trace y (log w) ++
        match heap w !! y with Some c => shutdown_effs y c | None => [] end).
Proof.
  intros Hr Hp. pose proof (reachable_inv w Hr) as Hinv.
  destruct (inv_registry _ _ Hinv) as (L & Hreg).
  pose proof (registry_size _ _ Hreg) as Hsz.
  destruct Hreg as ((p' & Hs) & Hnd & Hdom).
  rewrite main_shutdown_free.
  destruct (main_free_spec L (connections w) None p' (set_dns [] (dns_cancelled w) w)
             (S (size (heap w)))) as (h' & es & Hrun & Hh & Ht); [done|done|cbn [heap]; lia| |].
  { intros y cy _ Hy. by apply (no_pending_no_resolver w y cy). }
  rewrite Hrun. eexists. split; [reflexivity|].
  cbn [heap connections next_ptr dns_pending dns_cancelled next_req parent_pid watcher loop log set_dns] in *.
  split; [|split; [done|split; [done|]]].
  - apply map_eq. intros y. rewrite Hh, lookup_empty.
    case_bool_decide as Hy; [done|]. destruct (heap w !! y) eqn:E; [|done].
    exfalso. apply Hy, Hdom. by eexists.
  - intros y. rewrite trace_app, Ht. case_bool_decide as Hy; [done|].
    destruct (heap w !! y) eqn:E; [|by rewrite app_nil_r].
    exfalso. apply Hy, Hdom. by eexists.
Qed.

Lemma main_shutdown_frees_witness :
  exists w, run_events (init_world 100 Watch_pdeathsig) (demo_est ++ [Ev_signal SIGTERM]) = Some w
  /\ exists w', main_shutdown w = Some (EXIT_SUCCESS, w')
  /\ heap w' = ∅ /\ dns_pending w' = [] /\ dns_cancelled w' = dns_cancelled w
  /\ (forall y, trace y (log w') = trace y (log w) ++
        match heap w !! y with Some c => shutdown_effs y c | None => [] end).
Proof.
  eexists. split; [vm_compute; reflexivity|].
  apply main_shutdown_frees; [|vm_compute; reflexivity].
  apply (run_events_reachable (init_world 100 Watch_pdeathsig) (demo_est ++ [Ev_signal SIGTERM]));
    [apply reach_init|vm_compute; reflexivity].
Defined.

(** * Properties of copy_file and copy_to_file *)

Lemma BUFSIZ_pos : (0 < BUFSIZ)%nat.
Proof. vm_compute. lia. Qed.

Lemma fread_at f st data :
  files st !! st_name f = Some data ->
  fread f st = (firstn BUFSIZ (skipn (st_pos f) data),
                mkStream (st_name f) (st_pos f + length (firstn BUFSIZ (skipn (st_pos f) data)))
                  (st_eof f || Nat.ltb (length (firstn BUFSIZ (skipn (st_pos f) data))) BUFSIZ)).
Proof. intros H. unfold fread, file_data. by rewrite H. Qed.

Lemma file_data_insert n d fl w sp : file_data (mkFs (<[n := d]> fl) w sp) n = d.
Proof. unfold file_data. cbn [files]. by rewrite lookup_insert_eq. Qed.

Lemma copy_loop_spec dst data : forall fuel f st,
  dst <> st_name f -> files st !! st_name f = Some data -> is_Some (files st !! dst) ->
  (length (skipn (st_pos f) data) + space st < fuel)%nat ->
  let rest := skipn (st_pos f) data in
  if decide (length rest <= space st)%nat then
    copy_loop fuel f dst st =
      (true, mkStream (st_name f) (st_pos f + length rest) true,
       mkFs (<[dst := file_data st dst ++ rest]> (files st)) (writable st)
         (space st - length rest))
  else exists f',
    copy_loop fuel f dst st =
      (false, f', mkFs (<[dst := file_data st dst ++ firstn (space st) rest]> (files st))
                    (writable st) 0).
Proof.
  induction fuel as [|fuel IH]; intros f st Hne Hf Hd Hfuel rest; [lia|].
  cbn [copy_loop]. rewrite (fread_at f st data Hf). fold rest. fold rest in Hfuel.
  set (buf := firstn BUFSIZ rest).
  pose proof BUFSIZ_pos as HB.
  assert (Hsplit : rest = buf ++ skipn (length buf) rest).
  { unfold buf. rewrite length_firstn.
    rewrite <- (firstn_skipn BUFSIZ rest) at 1. f_equal.
    destruct (decide (BUFSIZ <= length rest)%nat).
    - by rewrite Nat.min_l.
    - rewrite Nat.min_r by lia. rewrite !skipn_all2 by lia. done. }
  assert (Hlen : length rest = (length buf + length (skipn (length buf) rest))%nat).
  { rewrite Hsplit at 1. by rewrite length_app. }
  destruct (Nat.eqb (length buf) 0) eqn:E0.
  - apply Nat.eqb_eq in E0.
    assert (Hr : rest = []).
    { apply length_zero_iff_nil. unfold buf in E0. rewrite length_firstn in E0. lia. }
    rewrite decide_True by (rewrite Hr; simpl; lia).
    rewrite E0, Hr. cbn [length]. rewrite Nat.add_0_r, Nat.sub_0_r, app_nil_r.
    replace (st_eof f || Nat.ltb 0 BUFSIZ) with true by (destruct (st_eof f); reflexivity).
    destruct Hd as [d Hd]. unfold file_data. rewrite Hd. cbn [default].
    rewrite insert_id by done. by destruct st.
  - apply Nat.eqb_neq in E0.
    cbv zeta. unfold fwrite.
    destruct (Nat.eqb (Nat.min (length buf) (space st)) (length buf)) eqn:E1.
    + apply Nat.eqb_eq in E1.
      assert (Hle : (length buf <= space st)%nat) by lia.
      rewrite E1, firstn_all.
      set (f' := mkStream (st_name f) (st_pos f + length buf) (st_eof f || Nat.ltb (length buf) BUFSIZ)).
      set (st' := mkFs (<[dst := file_data st dst ++ buf]> (files st))
                    (writable st) (space st - length buf)).
      assert (Hrest : skipn (st_pos f') data = skipn (length buf) rest).
      { unfold f', rest. cbn [st_pos]. by rewrite skipn_skipn, Nat.add_comm. }
      pose proof (IH f' st' Hne ltac:(unfold st'; cbn [files st_name]; by rewrite lookup_insert_ne)
                    ltac:(unfold st'; cbn [files]; by rewrite lookup_insert_eq)
                    ltac:(rewrite Hrest; unfold st'; cbn [space]; lia)) as IH'.
      cbv zeta in IH'. rewrite Hrest in IH'.
      unfold st' in IH'. cbn [space files writable] in IH'.
      rewrite file_data_insert, insert_insert_eq in IH'.
      unfold f' in IH'. cbn [st_name st_pos] in IH'.
      destruct (decide (length (skipn (length buf) rest) <= space st - length buf)%nat) as [Hy|Hn'].
      * rewrite decide_True by lia. unfold f', st'. rewrite IH'.
        assert (E2 : (st_pos f + length buf + length (skipn (length buf) rest) = st_pos f + length rest)%nat) by lia.
        assert (E3 : (space st - length buf - length (skipn (length buf) rest) = space st - length rest)%nat) by lia.
        rewrite E2, E3, <- app_assoc, <- Hsplit. reflexivity.
      * rewrite decide_False by lia. destruct IH' as [f2 IH']. exists f2. unfold f', st'. rewrite IH'.
        assert (E4 : buf ++ take (space st - length buf) (drop (length buf) rest) = take (space st) rest).
        { symmetry. rewrite Hsplit at 1. rewrite firstn_app, firstn_all2 by lia. done. }
        rewrite <- app_assoc, E4, insert_insert_eq. reflexivity.
    + apply Nat.eqb_neq in E1.
      assert (Hlt : (space st < length buf)%nat) by lia.
      rewrite Nat.min_r by lia.
      rewrite decide_False by lia.
      assert (E5 : take (space st) buf = take (space st) rest).
      { unfold buf. rewrite firstn_firstn. f_equal.
        assert (length buf <= BUFSIZ)%nat by (unfold buf; rewrite length_firstn; lia). lia. }
      rewrite E5, Nat.sub_diag. eexists. reflexivity.
Qed.


(** X12: copy_file with reset copies the whole source file to [newname]
    when the disk has room, and returns 0 with the source at end of file. *)
Lemma copy_file_copies f newname st data :
  newname <> st_name f -> newname ∈ writable st ->
  files st !! st_name f = Some data ->
  (length data <= space st + length (file_data st newname))%nat ->
  copy_file f newname true true st =
    (0, mkStream (st_name f) (length data) true,
     mkFs (<[newname := data]> (files st)) (writable st)
       (space st + length (file_data st newname) - length data)).
Proof.
  intros Hne Hw Hf Hsp. unfold copy_file, fopen_w. rewrite bool_decide_true by done.
  cbn [andb negb].
  set (st1 := mkFs (<[newname := []]> (files st)) (writable st) (space st + length (file_data st newname))).
  assert (Hf1 : files st1 !! st_name (fseek_start f) = Some data).
  { unfold st1. cbn. by rewrite lookup_insert_ne. }
  assert (Hd1 : is_Some (files st1 !! newname)).
  { unfold st1. cbn [files]. rewrite lookup_insert_eq. by eexists. }
  assert (Hfu : (length (skipn (st_pos (fseek_start f)) data) + space st1
                 < copy_fuel (fseek_start f) st1)%nat).
  { unfold copy_fuel, file_data. rewrite Hf1. cbn. rewrite skipn_O. lia. }
  pose proof (copy_loop_spec newname data _ (fseek_start f) st1 Hne Hf1 Hd1 Hfu) as H.
  cbv zeta in H. cbn [st_pos st_name] in H. rewrite skipn_O in H.
  rewrite decide_True in H by (unfold st1; cbn [space]; lia).
  cbv beta iota zeta. rewrite H. cbn [st_eof].
  unfold st1. cbn [files writable space]. rewrite file_data_insert, insert_insert_eq. reflexivity.
Qed.

(** X16: copy_to_file appends the whole file [name] to [to] when the disk
    has room, and returns 0. *)
Lemma copy_to_file_appends name to st data :
  name <> to -> files st !! name = Some data -> is_Some (files st !! to) ->
  (length data <= space st)%nat ->
  copy_to_file name to st =
    (0, mkFs (<[to := file_data st to ++ data]> (files st)) (writable st)
          (space st - length data)).
Proof.
  intros Hne Hf Hd Hsp. unfold copy_to_file, fopen_r. rewrite Hf.
  assert (Hfu : (length (skipn (st_pos (mkStream name 0 false)) data) + space st
                 < copy_fuel (mkStream name 0 false) st)%nat).
  { unfold copy_fuel, file_data. cbn [st_name st_pos]. rewrite Hf, skipn_O. cbn. lia. }
  pose proof (copy_loop_spec to data _ (mkStream name 0 false) st (not_eq_sym Hne) Hf Hd Hfu) as H.
  cbv zeta in H. cbn [st_pos st_name] in H. rewrite skipn_O in H.
  rewrite decide_True in H by lia. by rewrite H.
Qed.

Lemma copy_file_copies_witness :
  copy_file (mkStream "a" 1 false) "b" true true (demo_fs 5) =
    (0, mkStream "a" (length demo_bytes) true,
     mkFs (<["b"%string := demo_bytes]> (files (demo_fs 5))) (writable (demo_fs 5))
       (space (demo_fs 5) + length (file_data (demo_fs 5) "b") - length demo_bytes)).
Proof.
  apply (copy_file_copies (mkStream "a" 1 false) "b" (demo_fs 5) demo_bytes).
  - done.
  - unfold demo_fs. cbn [writable]. set_solver.
  - vm_compute. reflexivity.
  - vm_compute. lia.
Defined.

Lemma copy_to_file_appends_witness :
  copy_to_file "a" "b" (demo_fs 4) =
    (0, mkFs (<["b"%string := file_data (demo_fs 4) "b" ++ demo_bytes]> (files (demo_fs 4)))
          (writable (demo_fs 4)) (space (demo_fs 4) - length demo_bytes)).
Proof.
  apply (copy_to_file_appends "a" "b" (demo_fs 4) demo_bytes).
  - done.
  - vm_compute. reflexivity.
  - vm_compute. by eexists.
  - vm_compute. lia.
Defined.
